(** * Neural machine translation: BLEU scoring, attention and beam search

    A shallow embedding of [bleu_score.py] and of the attention and
    beam-update methods of [encoder_decoder.py], with the properties the
    specification states about them.

    Conventions.
    - Python floats are idealised as real numbers ([R]); integer counts
      are [nat].
    - A Python call either returns a value or raises; this is the
      [result] monad below.
    - Tensors are nested lists, outermost dimension first. *)

From Stdlib Require Import String.
From Stdlib Require Import List Arith PeanoNat Lia Bool ZArith.
From Stdlib Require Import Reals Lra.
From Stdlib Require Import Sorting.Permutation Sorting.Sorted.
Import ListNotations.

Set Implicit Arguments.

(** ** Python outcomes *)

Module Py.

(** The exceptions the modelled code can raise: [ZeroDivisionError] by
    Python's arithmetic, [RuntimeError] by torch (a view of the wrong
    size, an index out of range, more selected entries than the row
    has).  [ComplexResult] is not an exception of Python: it marks a
    power with a negative base, which is a complex number for a
    fractional exponent and leaves the real-valued model. *)
Inductive exn : Type :=
| ZeroDivisionError
| RuntimeError
| ComplexResult.

Inductive result (A : Type) : Type :=
| Val (a : A)
| Raise (e : exn).

Arguments Val {A} a.
Arguments Raise {A} e.

Definition bind {A B : Type} (m : result A) (k : A -> result B) : result B :=
  match m with
  | Val a => k a
  | Raise e => Raise e
  end.

Definition returns {A : Type} (m : result A) : Prop := exists a, m = Val a.

(** [a / b] on Python ints: true division, raising on a zero divisor. *)
Definition truediv (a b : nat) : result R :=
  if b =? 0 then Raise ZeroDivisionError else Val (INR a / INR b)%R.

(** [x ** y] on a float exponent.  A zero base gives 1 for a zero
    exponent, 0 for a positive one and raises for a negative one; a
    positive base is the real power; a negative base is outside the
    model. *)
Definition pow (x y : R) : result R :=
  if Req_dec_T x 0 then
    if Rlt_dec y 0 then Raise ZeroDivisionError
    else if Req_dec_T y 0 then Val 1%R
    else Val 0%R
  else if Rlt_dec 0 x then Val (Rpower x y)
  else Raise ComplexResult.

(** [for i in range(lo, lo + len): acc = body(acc, i)], stopping at the
    first exception. *)
Fixpoint for_range {A : Type} (lo len : nat) (body : A -> nat -> result A)
    (acc : A) : result A :=
  match len with
  | O => Val acc
  | S len' => bind (body acc lo) (for_range (S lo) len' body)
  end.

End Py.

Notation "x <- m ;; k" := (Py.bind m (fun x => k))
  (at level 61, m at next level, right associativity).

(** ** bleu_score.py *)

Module Bleu.
Import Py.

Section WithTokens.

(** Tokens are words or token ids: any type whose equality Python's
    [==] decides. *)
Variable token : Type.
Variable token_eq_dec : forall x y : token, {x = y} + {x <> y}.

Definition ngram_eq_dec : forall x y : list token, {x = y} + {x <> y} :=
  list_eq_dec token_eq_dec.

(** [seq[i:j]] for [0 <= i]: the slice is clipped to the sequence. *)
Definition slice (seq : list token) (i j : nat) : list token :=
  firstn (j - i) (skipn i seq).

(** [range(n)] *)
Definition range (n : nat) : list nat := List.seq 0 n.

Definition grouper (seq : list token) (n : nat) : list (list token) :=
  if n <=? length seq then
    map (fun i => slice seq i (i + n)) (range (length seq - n + 1))
  else [].

(** [c in reference_n_gram] *)
Definition contains (l : list (list token)) (c : list token) : bool :=
  if in_dec ngram_eq_dec c l then true else false.

(** The loop [for c in candidate_n_gram: if c in reference_n_gram:
    match_c += 1], from [match_c]. *)
Definition count_matches (reference_n_gram candidate_n_gram : list (list token))
    (match_c : nat) : nat :=
  fold_left (fun match_c c =>
               if contains reference_n_gram c then match_c + 1 else match_c)
            candidate_n_gram match_c.

Definition n_gram_precision (reference candidate : list token) (n : nat)
    : result R :=
  let reference_n_gram := grouper reference n in
  let candidate_n_gram := grouper candidate n in
  let len_c := length candidate_n_gram in
  if len_c =? 0 then Val 0%R
  else
    let match_c := count_matches reference_n_gram candidate_n_gram 0 in
    truediv match_c len_c.

Definition brevity_penalty (reference candidate : list token) : result R :=
  let len_r := length reference in
  let len_c := length candidate in
  if len_c =? 0 then Val 0%R
  else
    breavity <- truediv len_r len_c ;;
    if Rlt_dec breavity 1 then Val 1%R
    else Val (exp (1 - breavity)).

(** The loop of [BLEU_score]: [p_product *= n_gram_precision(.., i)]
    for [i] in [range(lo, lo + len)]. *)
Definition precision_product (reference candidate : list token)
    (lo len : nat) (p_product : R) : result R :=
  for_range lo len
    (fun p_product i =>
       p <- n_gram_precision reference candidate i ;;
       Val (p_product * p)%R)
    p_product.

Definition BLEU_score (reference candidate : list token) (n : nat)
    : result R :=
  bp <- brevity_penalty reference candidate ;;
  p_product <- precision_product reference candidate 0 (n + 1) 1%R ;;
  e <- truediv 1 n ;;
  root <- pow p_product e ;;
  Val (bp * root)%R.

End WithTokens.

End Bleu.

(** ** Tensor primitives of torch used by encoder_decoder.py *)

Module Torch.
Import Py.

(** Elementwise combination of two tensors of one shape. *)
Fixpoint map2 {A B C : Type} (f : A -> B -> C) (xs : list A) (ys : list B)
    : list C :=
  match xs, ys with
  | x :: xs', y :: ys' => f x y :: map2 f xs' ys'
  | _, _ => []
  end.

Fixpoint mapM {A B : Type} (f : A -> result B) (xs : list A)
    : result (list B) :=
  match xs with
  | [] => Val []
  | x :: xs' => y <- f x ;; ys <- mapM f xs' ;; Val (y :: ys)
  end.

Fixpoint map2M {A B C : Type} (f : A -> B -> result C) (xs : list A)
    (ys : list B) : result (list C) :=
  match xs, ys with
  | x :: xs', y :: ys' => z <- f x y ;; zs <- map2M f xs' ys' ;; Val (z :: zs)
  | _, _ => Val []
  end.

(** [torch.sum(t, dim=0)] given the sum of two slices.  The shape of an
    empty tensor is not kept by a nested list: the sum of no slice is
    [zero]. *)
Definition sum0 {A : Type} (add : A -> A -> A) (zero : A) (t : list A) : A :=
  match t with
  | [] => zero
  | x :: xs => fold_left add xs x
  end.

(** The tensor of zeros with the shape of [t]. *)
Definition zeros_like (t : list (list R)) : list (list R) :=
  map (map (fun _ => 0%R)) t.

(** Row [i] of [flat.view(r, c)]. *)
Definition row_of {A : Type} (c : nat) (flat : list A) (i : nat) : list A :=
  firstn c (skipn (i * c) flat).

(** [t.view(r, c)] on the elements of [t] in storage order; the number
    of elements must be [r * c]. *)
Definition view2 {A : Type} (r c : nat) (flat : list A)
    : result (list (list A)) :=
  if length flat =? r * c then Val (map (row_of c flat) (seq 0 r))
  else Raise RuntimeError.

(** [t.view(a, b, c)] *)
Definition view3 {A : Type} (a b c : nat) (flat : list A)
    : result (list (list (list A))) :=
  if length flat =? a * b * c then
    mapM (fun i => view2 b c (firstn (b * c) (skipn (i * (b * c)) flat)))
         (seq 0 a)
  else Raise RuntimeError.

(** Storage order of a 2-D and of a 3-D tensor. *)
Definition flatten2 {A : Type} (t : list (list A)) : list A := concat t.
Definition flatten3 {A : Type} (t : list (list (list A))) : list A :=
  concat (map (@concat A) t).

(** [t.repeat_interleave(n)] on a 1-D tensor. *)
Definition repeat_interleave {A : Type} (n : nat) (t : list A) : list A :=
  flat_map (fun x => repeat x n) t.

(** [torch.gather] along the last dimension of one row: [out[k] =
    input[index[k]]], raising on an index out of range. *)
Definition gather_row {A : Type} (input : list A) (index : list nat)
    : result (list A) :=
  mapM (fun j => match nth_error input j with
                 | Some x => Val x
                 | None => Raise RuntimeError
                 end) index.

(** Energies after [masked_fill(mask, -inf)]. *)
Inductive ext : Type :=
| NegInf
| Fin (r : R).

Definition exp_ext (x : ext) : R :=
  match x with
  | NegInf => 0%R
  | Fin r => exp r
  end.

Definition masked_fill (e : list (list R)) (mask : list (list bool))
    : list (list ext) :=
  map2 (map2 (fun x (b : bool) => if b then NegInf else Fin x)) e mask.

(** [softmax(e, 0)] of an (S, M) tensor: [exp(e[s][m])] over the sum of
    [exp(e[s'][m])] for all [s'].  (torch subtracts the column maximum
    first, which leaves the quotient unchanged.) *)
Definition softmax0 (e : list (list ext)) : list (list R) :=
  let ex := map (map exp_ext) e in
  let z := sum0 (map2 Rplus) [] ex in
  map (fun row => map2 Rdiv row z) ex.

End Torch.

(** ** encoder_decoder.py: attention *)

Module Attention.
Import Py Torch.

Inductive cell : Type := lstm | gru | rnn.

Definition tensor2 : Type := list (list R).
Definition tensor3 : Type := list (list (list R)).

(** A decoder hidden state: a float tensor, or for an LSTM the pair
    (hidden, cell state). *)
Definition hidden_state (c : cell) : Type :=
  match c with
  | lstm => (tensor2 * tensor2)%type
  | _ => tensor2
  end.

Record decoder : Type := {
  cell_type : cell;
  hidden_state_size : nat;
  heads : nat;
  (** the bias-free linear layers, acting on the last dimension *)
  W : list R -> list R;
  Wtilde : list R -> list R;
  Q : list R -> list R
}.

Section WithCosine.

(** [torch.nn.functional.cosine_similarity] of two vectors. *)
Variable cosine_similarity : list R -> list R -> R.

(** [htilde_t] is (M, 2H) and is broadcast along the source axis of the
    (S, M, 2H) tensor [h]; the result is (S, M). *)
Definition get_energy_scores (htilde_t : tensor2) (h : tensor3) : tensor2 :=
  map (fun h_s => map2 cosine_similarity htilde_t h_s) h.

(** [torch.arange(S).unsqueeze(-1) >= F_lens] *)
Definition pad_mask (S : nat) (F_lens : list nat) : list (list bool) :=
  map (fun s => map (fun f => f <=? s) F_lens) (seq 0 S).

Definition get_attention_weights (htilde_t : tensor2) (h : tensor3)
    (F_lens : list nat) : tensor2 :=
  let e_t := get_energy_scores htilde_t h in
  let pad_mask := pad_mask (length h) F_lens in
  let e_t := masked_fill e_t pad_mask in
  softmax0 e_t.

(** [if self.cell_type == 'lstm': htilde_t = htilde_t[0]] *)
Definition recurrent_part (c : cell) : hidden_state c -> tensor2 :=
  match c with
  | lstm => fun htilde_t => fst htilde_t
  | gru => fun htilde_t => htilde_t
  | rnn => fun htilde_t => htilde_t
  end.

(** [alpha_t.unsqueeze(2) * h] *)
Definition weigh (alpha_t : tensor2) (h : tensor3) : tensor3 :=
  map2 (map2 (fun a h_sm => map (Rmult a) h_sm)) alpha_t h.

(** [DecoderWithAttention.attend].  The sum over the source axis of an
    (S, M, 2H) tensor is (M, 2H), the shape of [htilde_t]: this gives
    the sum of no slice, when S is 0. *)
Definition attend (c : cell) (htilde_t : hidden_state c) (h : tensor3)
    (F_lens : list nat) : tensor2 :=
  let htilde_t := recurrent_part c htilde_t in
  let alpha_t := get_attention_weights htilde_t h F_lens in
  sum0 (map2 (map2 Rplus)) (zeros_like htilde_t) (weigh alpha_t h).

(** [int(self.hidden_state_size / self.heads)] *)
Definition head_size (self : decoder) : result nat :=
  if heads self =? 0 then Raise ZeroDivisionError
  else Val (hidden_state_size self / heads self).

(** The first component of [htilde_t_input]: [self.Wtilde(x).view(M *
    self.heads, int(self.hidden_state_size / self.heads))]. *)
Definition project_query (self : decoder) (x : tensor2) : result tensor2 :=
  let M := length x in
  d <- head_size self ;;
  view2 (M * heads self) d (flatten2 (map (Wtilde self) x)).

Definition multihead_query (self : decoder)
    : hidden_state (cell_type self) -> result (hidden_state (cell_type self)) :=
  match cell_type self as c
        return hidden_state c -> result (hidden_state c) with
  | lstm => fun htilde_t =>
              q <- project_query self (fst htilde_t) ;; Val (q, snd htilde_t)
  | gru => fun htilde_t => project_query self htilde_t
  | rnn => fun htilde_t => project_query self htilde_t
  end.

(** [DecoderWithMultiHeadAttention.attend] *)
Definition multihead_attend (self : decoder)
    (htilde_t : hidden_state (cell_type self)) (h : tensor3)
    (F_lens : list nat) : result tensor2 :=
  let S := length h in
  let M := length (recurrent_part (cell_type self) htilde_t) in
  htilde_t_input <- multihead_query self htilde_t ;;
  d <- head_size self ;;
  h_input <- view3 S (M * heads self) d
               (flatten3 (map (map (W self)) h)) ;;
  let F_lens_input := repeat_interleave (heads self) F_lens in
  c_t <- view2 M (hidden_state_size self)
           (flatten2 (attend (cell_type self) htilde_t_input h_input
                             F_lens_input)) ;;
  Val (map (Q self) c_t).

End WithCosine.

End Attention.

(** ** encoder_decoder.py: one step of beam search *)

Module Beam.
Import Py Torch.

Definition cell : Type := Attention.cell.

(** The attributes of [EncoderDecoder] that [update_beam] reads. *)
Record model : Type := {
  cell_type : cell;
  beam_width : nat;
  target_vocab_size : nat
}.

(** [htilde_t]: an (M, K, 2H) tensor, or a pair of them for an LSTM. *)
Definition hidden_state (c : cell) : Type :=
  match c with
  | Attention.lstm => (Attention.tensor3 * Attention.tensor3)%type
  | _ => Attention.tensor3
  end.

(** [t.squeeze(1)] of a 3-D tensor: the middle dimension is dropped
    when its size is 1, and the tensor is unchanged otherwise. *)
Definition squeeze1 {A : Type} (t : list (list (list A)))
    : list (list A) + list (list (list A)) :=
  if forallb (fun t_m => length t_m =? 1) t then inl (map (@concat A) t)
  else inr t.

(** [torch.flatten(t, start_dim=1)] of a 2-D or 3-D tensor. *)
Definition flatten_from1 {A : Type}
    (t : list (list A) + list (list (list A))) : list (list A) :=
  match t with
  | inl t2 => t2
  | inr t3 => map (@concat A) t3
  end.

(** [torch.gather(t, 1, paths.unsqueeze(-1).expand_as(t))] of an
    (M, K, 2H) tensor: the index is constant along the last axis, so
    slot [(m, k)] receives the whole vector at [(m, paths[m][k])]. *)
Definition gather_hidden (t : Attention.tensor3) (paths : list (list nat))
    : result Attention.tensor3 :=
  map2M gather_row t paths.

(** [torch.gather(b, 2, paths.expand_as(b))] of a (t, M, K) tensor: the
    index is the same at every time step. *)
Definition gather_history (b : list (list (list nat)))
    (paths : list (list nat)) : result (list (list (list nat))) :=
  mapM (fun b_i => map2M gather_row b_i paths) b.

Definition gather_state (c : cell) (paths : list (list nat))
    : hidden_state c -> result (hidden_state c) :=
  match c as c0 return hidden_state c0 -> result (hidden_state c0) with
  | Attention.lstm => fun htilde_t =>
      h0 <- gather_hidden (fst htilde_t) paths ;;
      h1 <- gather_hidden (snd htilde_t) paths ;;
      Val (h0, h1)
  | Attention.gru => fun htilde_t => gather_hidden htilde_t paths
  | Attention.rnn => fun htilde_t => gather_hidden htilde_t paths
  end.

Section WithScores.

(** Log-probabilities with their addition. *)
Variable score : Type.
Variable add : score -> score -> score.

(** [torch.topk(row, k)] on one row: the values and their indices. *)
Variable topk : nat -> list score -> result (list score * list nat).

(** [(logpb_tm1.unsqueeze(-1) + logpy_t).squeeze(1)], flattened from
    dimension 1. *)
Definition extensions_flat (logpb_tm1 : list (list score))
    (logpy_t : list (list (list score))) : list (list score) :=
  let extensions_t :=
    squeeze1 (map2 (map2 (fun lp dist => map (add lp) dist))
                   logpb_tm1 logpy_t) in
  flatten_from1 extensions_t.

(** [torch.topk(extensions_flat, k=self.beam_width, dim=1)] *)
Definition select (self : model) (extensions_flat : list (list score))
    : result (list (list score) * list (list nat)) :=
  selected <- mapM (topk (beam_width self)) extensions_flat ;;
  Val (map fst selected, map snd selected).

Definition paths_of (self : model) (indices : list (list nat))
    : list (list nat) :=
  map (map (fun i => i / target_vocab_size self)) indices.

Definition tokens_of (self : model) (indices : list (list nat))
    : list (list nat) :=
  map (map (fun i => i mod target_vocab_size self)) indices.

Definition update_beam (self : model)
    (htilde_t : hidden_state (cell_type self))
    (b_tm1_1 : list (list (list nat)))
    (logpb_tm1 : list (list score)) (logpy_t : list (list (list score)))
    : result (hidden_state (cell_type self) * list (list (list nat))
              * list (list score)) :=
  let extensions_flat := extensions_flat logpb_tm1 logpy_t in
  sel <- select self extensions_flat ;;
  let logpb_t := fst sel in
  let indices := snd sel in
  let paths := paths_of self indices in
  let tokens := tokens_of self indices in
  b_tm1_1_gathered <- gather_history b_tm1_1 paths ;;
  let b_t_1 := b_tm1_1_gathered ++ [tokens] in
  b_t_0 <- gather_state (cell_type self) paths htilde_t ;;
  Val (b_t_0, b_t_1, logpb_t).

End WithScores.

(** A selection primitive that meets the contract of [torch.topk]:
    insertion sort by decreasing value, equal values in index order, and
    the first [k] entries. *)
Section Selection.

Variable score : Type.
Variable leb : score -> score -> bool.

Fixpoint insert_desc (p : score * nat) (l : list (score * nat))
    : list (score * nat) :=
  match l with
  | [] => [p]
  | q :: l' => if leb (fst q) (fst p) then p :: l
               else q :: insert_desc p l'
  end.

Definition sort_desc (l : list (score * nat)) : list (score * nat) :=
  fold_right insert_desc [] l.

Definition topk_sorted (k : nat) (xs : list score)
    : result (list score * list nat) :=
  if k <=? length xs then
    let s := firstn k (sort_desc (combine xs (seq 0 (length xs)))) in
    Val (map fst s, map snd s)
  else Raise RuntimeError.

End Selection.

End Beam.

(** ** Python outcomes with index errors *)

Module Outcome.

(** The exceptions of [Py], and the [IndexError] of an index out of
    range. *)
Inductive error : Type :=
| Builtin (e : Py.exn)
| IndexError.

Inductive outcome (A : Type) : Type :=
| Ret (a : A)
| Throw (e : error).

Arguments Ret {A} a.
Arguments Throw {A} e.

Definition bind {A B : Type} (m : outcome A) (k : A -> outcome B) : outcome B :=
  match m with
  | Ret a => k a
  | Throw e => Throw e
  end.

Definition lift {A : Type} (m : Py.result A) : outcome A :=
  match m with
  | Py.Val a => Ret a
  | Py.Raise e => Throw (Builtin e)
  end.

Fixpoint mapM {A B : Type} (f : A -> outcome B) (xs : list A)
    : outcome (list B) :=
  match xs with
  | [] => Ret []
  | x :: xs' => bind (f x) (fun y => bind (mapM f xs') (fun ys => Ret (y :: ys)))
  end.

(** [for i in range(lo, lo + len): acc = body(acc, i)] *)
Fixpoint for_range {A : Type} (lo len : nat) (body : A -> nat -> outcome A)
    (acc : A) : outcome A :=
  match len with
  | O => Ret acc
  | S len' => bind (body acc lo) (for_range (S lo) len' body)
  end.

(** The position an index designates in a sequence of [n] elements: a
    negative index counts from the end. *)
Definition position (n : nat) (i : Z) : outcome nat :=
  if ((0 <=? i) && (i <? Z.of_nat n))%Z then Ret (Z.to_nat i)
  else if ((- Z.of_nat n <=? i) && (i <? 0))%Z then Ret (Z.to_nat (Z.of_nat n + i))
  else Throw IndexError.

(** [l[i]] *)
Definition getitem {A : Type} (l : list A) (i : Z) : outcome A :=
  bind (position (length l) i)
       (fun p => match nth_error l p with
                 | Some x => Ret x
                 | None => Throw IndexError
                 end).

(** [x / n] for a float (or the int 0) [x] and an int [n]. *)
Definition fdiv (x : R) (n : nat) : outcome R :=
  if n =? 0 then Throw (Builtin Py.ZeroDivisionError) else Ret (x / INR n)%R.

End Outcome.

Notation "x <~ m ;; k" := (Outcome.bind m (fun x => k))
  (at level 61, m at next level, right associativity).

(** ** encoder_decoder.py: the first hidden state and teacher forcing *)

Module Decoder.
Import Outcome.

Definition tensor2 : Type := Attention.tensor2.
Definition tensor3 : Type := Attention.tensor3.

(** [v[a:b]] for [0 <= a]: the slice is clipped to the vector. *)
Definition slice {A : Type} (v : list A) (a b : nat) : list A :=
  firstn (b - a) (skipn a v).

(** [torch.cat([x, y], dim=1)] of two 2-D tensors: the numbers of rows
    must agree. *)
Definition cat1 (x y : tensor2) : outcome tensor2 :=
  if length x =? length y then Ret (Torch.map2 (@app R) x y)
  else Throw (Builtin Py.RuntimeError).

(** [h[F_lens - 1, torch.arange(len(F_lens)), 0 : half]]: row [m] is
    read at the time step [F_lens[m] - 1] of batch element [m]. *)
Definition last_forward_states (half : nat) (h : tensor3) (F_lens : list Z)
    : outcome tensor2 :=
  mapM (fun fm : Z * nat =>
          h_s <~ getitem h (fst fm - 1) ;;
          v <~ getitem h_s (Z.of_nat (snd fm)) ;;
          Ret (slice v 0 half))
       (combine F_lens (seq 0 (length F_lens))).

(** [DecoderWithoutAttention.get_first_hidden_state] *)
Definition get_first_hidden_state (hidden_state_size : nat) (h : tensor3)
    (F_lens : list Z) : outcome tensor2 :=
  let half := hidden_state_size / 2 in
  h_forward <~ last_forward_states half h F_lens ;;
  h_0 <~ getitem h 0 ;;
  let h_backward := map (fun v => slice v half hidden_state_size) h_0 in
  cat1 h_forward h_backward.

Section TeacherForcing.

(** The decoder is a torch module: its two methods are taken as
    functions of their arguments, which return or raise. *)
Variable c : Attention.cell.
Variable source_lengths : Type.
Variable decoder_first_hidden_state :
  tensor3 -> source_lengths -> outcome tensor2.
Variable decoder :
  list nat -> Attention.hidden_state c -> tensor3 -> source_lengths ->
  outcome (tensor2 * Attention.hidden_state c).

(** [if self.cell_type == 'lstm': htilde_tm1 = (htilde_tm1,
    torch.zeros_like(htilde_tm1))] *)
Definition with_cell_state (htilde_tm1 : tensor2) : Attention.hidden_state c :=
  match c as c0 return Attention.hidden_state c0 with
  | Attention.lstm => (htilde_tm1, Torch.zeros_like htilde_tm1)
  | Attention.gru => htilde_tm1
  | Attention.rnn => htilde_tm1
  end.

(** [torch.stack(logits_lst)]: no tensor to stack is an error. *)
Definition stack (logits_lst : list tensor2) : outcome (list tensor2) :=
  match logits_lst with
  | [] => Throw (Builtin Py.RuntimeError)
  | _ => Ret logits_lst
  end.

(** [EncoderDecoder.get_logits_for_teacher_forcing]; [E] is (T, M). *)
Definition get_logits_for_teacher_forcing (h : tensor3) (F_lens : source_lengths)
    (E : list (list nat)) : outcome (list tensor2) :=
  htilde_tm1 <~ decoder_first_hidden_state h F_lens ;;
  let htilde_tm1 := with_cell_state htilde_tm1 in
  let T := length E in
  state <~ for_range 0 (T - 1)
             (fun (state : list tensor2 * Attention.hidden_state c) i =>
                E_i <~ getitem E (Z.of_nat i) ;;
                step <~ decoder E_i (snd state) h F_lens ;;
                Ret (fst state ++ [fst step], snd step))
             ([], htilde_tm1) ;;
  stack (fst state).

End TeacherForcing.

End Decoder.

(** ** training_and_testing.py: BLEU over batches *)

Module Evaluation.
Import Outcome.

(** A 2-D [LongTensor] with its shape, which an empty tensor keeps. *)
Record long_matrix : Type := {
  size0 : nat;
  size1 : nat;
  entries : list (list Z)
}.

(** A 3-D [LongTensor] with the size of its last dimension. *)
Record long_cube : Type := {
  cube_size0 : nat;
  cube_size1 : nat;
  cube_size2 : nat;
  cube_entries : list (list (list Z))
}.

(** [E.T.tolist()]: one list per column. *)
Definition transposed (E : long_matrix) : list (list Z) :=
  map (fun m => map (fun row => nth m row 0%Z) (entries E)) (seq 0 (size1 E)).

(** [list(filter(lambda x: x != target_sos and x != target_eos, row))] *)
Definition strip_tags (target_sos target_eos : Z) (row : list Z) : list Z :=
  filter (fun x => negb (Z.eqb x target_sos) && negb (Z.eqb x target_eos)) row.

Definition compute_batch_total_bleu (E_ref E_cand : long_matrix)
    (target_sos target_eos : Z) : outcome R :=
  let E_ref := transposed E_ref in
  let E_cand := transposed E_cand in
  total_score <~ for_range 0 (length E_ref)
     (fun total_score i =>
        ref_i <~ getitem E_ref (Z.of_nat i) ;;
        let ref := strip_tags target_sos target_eos ref_i in
        cand_i <~ getitem E_cand (Z.of_nat i) ;;
        let cand := strip_tags target_sos target_eos cand_i in
        score <~ lift (Bleu.BLEU_score Z.eq_dec ref cand 4) ;;
        Ret (total_score + score)%R)
     0%R ;;
  fdiv total_score (length E_ref).

(** [b_1[..., 0]]: the first path of every beam. *)
Definition first_paths (b_1 : long_cube) : outcome long_matrix :=
  if cube_size2 b_1 =? 0 then Throw IndexError
  else Ret {| size0 := cube_size0 b_1;
              size1 := cube_size1 b_1;
              entries := map (map (fun paths => nth 0 paths 0%Z))
                             (cube_entries b_1) |}.

Section Dataset.

(** A batch of the data loader is a triple [(F, F_lens, E_ref)]; the
    model maps [(F, F_lens)] to the paths of its beam search. *)
Variables source source_lengths : Type.
Variable model : source -> source_lengths -> long_cube.

(** The loop over the batches, from [(total_score, count)]. *)
Fixpoint accumulate_bleu
    (batches : list (source * source_lengths * long_matrix))
    (target_sos target_eos : Z) (state : R * nat) : outcome (R * nat) :=
  match batches with
  | [] => Ret state
  | (F, F_lens, E_ref) :: batches' =>
      let b_1 := model F F_lens in
      E_cand <~ first_paths b_1 ;;
      score <~ compute_batch_total_bleu E_ref E_cand target_sos target_eos ;;
      accumulate_bleu batches' target_sos target_eos
                      ((fst state + score)%R, snd state + 1)
  end.

Definition compute_average_bleu_over_dataset
    (dataloader : list (source * source_lengths * long_matrix))
    (target_sos target_eos : Z) : outcome R :=
  state <~ accumulate_bleu dataloader target_sos target_eos (0%R, 0) ;;
  fdiv (fst state) (snd state).

End Dataset.

End Evaluation.

(** * The vocabulary of the properties *)

(** ** Shapes and entries of tensors *)

Module Shapes.

(** An (r, c) and an (a, b, c) tensor. *)
Definition shape2 {A : Type} (r c : nat) (t : list (list A)) : Prop :=
  length t = r /\ Forall (fun row => length row = c) t.

Definition shape3 {A : Type} (a b c : nat) (t : list (list (list A))) : Prop :=
  length t = a /\ Forall (shape2 b c) t.

(** Column [m] of a 2-D tensor. *)
Definition column {A : Type} (d : A) (m : nat) (t : list (list A)) : list A :=
  map (fun row => nth m row d) t.

(** Entries of 2-D and 3-D tensors. *)
Definition at2 {A : Type} (t : list (list A)) (m k : nat) : option A :=
  nth_error (nth m t []) k.

Definition at3 {A : Type} (t : list (list (list A))) (m k v : nat) : option A :=
  nth_error (nth k (nth m t []) []) v.

(** Reading a row at the positions [p]. *)
Definition reindex {A : Type} (d : A) (row : list A) (p : list nat) : list A :=
  map (fun j => nth j row d) p.

(** The index tensor [paths] fits an (M, K) slice: its entries select
    among the K slots. *)
Definition fits (M K : nat) (paths : list (list nat)) : Prop :=
  shape2 M K paths /\ Forall (Forall (fun p => p < K)) paths.

Definition Rsum (l : list R) : R := fold_right Rplus 0%R l.

Definition Rprod (l : list R) : R := fold_right Rmult 1%R l.

End Shapes.

(** ** BLEU *)

Module BleuTerms.
Import Py Bleu.

Section WithTokens.

Variable token : Type.
Variable token_eq_dec : forall x y : token, {x = y} + {x <> y}.

(** The window of length [n] that starts at position [i]. *)
Definition window (seq : list token) (i n : nat) : list token :=
  firstn n (skipn i seq).

(** [g] is one of the n-grams of [seq]. *)
Definition occurs (seq : list token) (n : nat) (g : list token) : Prop :=
  exists j, j + n <= length seq /\ window seq j n = g.

(** The value of a precision, read off the outcome. *)
Definition precision_value (reference candidate : list token) (i : nat) : R :=
  match n_gram_precision token_eq_dec reference candidate i with
  | Val p => p
  | Raise _ => 0%R
  end.

(** The precisions of the orders [lo, lo + 1, ..., lo + len - 1]. *)
Definition precisions (reference candidate : list token) (lo len : nat)
    : list R :=
  map (precision_value reference candidate) (seq lo len).

(** The positions of the candidate whose n-gram is among the n-grams of
    the reference. *)
Definition matched_positions (reference candidate : list token) (n : nat)
    : list nat :=
  filter (fun i => contains token_eq_dec (grouper reference n)
                            (window candidate i n))
         (seq 0 (length candidate - n + 1)).

End WithTokens.

End BleuTerms.

(** ** Attention *)

Module AttentionTerms.
Import Torch Attention.

(** The energy of source position [s] for batch element [m] after the
    padding mask: minus infinity from position [F_lens[m]] on. *)
Definition masked_energy (cosine_similarity : list R -> list R -> R)
    (htilde_t : tensor2) (h : tensor3) (F_lens : list nat) (s m : nat) : ext :=
  if nth m F_lens 0 <=? s then NegInf
  else Fin (cosine_similarity (nth m htilde_t []) (nth m (nth s h []) [])).

End AttentionTerms.

(** ** Beam search *)

Module BeamTerms.
Import Py Torch Shapes Beam.

Section WithScores.

Variable score : Type.
Variable add : score -> score -> score.
Variable leb : score -> score -> bool.
Variable topk : nat -> list score -> result (list score * list nat).

(** [vals] and [idxs] are [k] largest entries of [xs] and their
    positions: the positions are distinct, each value is the entry at
    its position, and no entry left out is above a selected one.  Which
    of several equal entries is selected is left open. *)
Definition selected (k : nat) (xs vals : list score) (idxs : list nat) : Prop :=
  length idxs = k /\
  NoDup idxs /\
  Forall2 (fun v i => nth_error xs i = Some v) vals idxs /\
  (forall j x v, nth_error xs j = Some x -> ~ In j idxs -> In v vals ->
                 leb x v = true).

(** The contract of [torch.topk] on a row with at least [k] entries. *)
Definition topk_contract : Prop :=
  forall k xs, k <= length xs ->
    exists vals idxs, topk k xs = Val (vals, idxs) /\ selected k xs vals idxs.

(** The score of extending hypothesis [k] of batch element [m] by the
    token [v]. *)
Definition candidate (logpb_tm1 : list (list score))
    (logpy_t : list (list (list score))) (m k v : nat) : option score :=
  match at2 logpb_tm1 m k, at3 logpy_t m k v with
  | Some p, Some x => Some (add p x)
  | _, _ => None
  end.

(** The components of a hidden state: one tensor, or two for an LSTM. *)
Definition components (c : cell) : hidden_state c -> list Attention.tensor3 :=
  match c with
  | Attention.lstm => fun htilde_t => [fst htilde_t; snd htilde_t]
  | Attention.gru => fun htilde_t => [htilde_t]
  | Attention.rnn => fun htilde_t => [htilde_t]
  end.

(** The shapes [update_beam] is called with: M batch elements, K
    hypotheses, V tokens, histories of length t, hidden vectors of
    length H; K is the beam width and V the target vocabulary size. *)
Record well_shaped (self : model) (M K V t H : nat)
    (htilde_t : hidden_state (cell_type self))
    (b_tm1_1 : list (list (list nat)))
    (logpb_tm1 : list (list score)) (logpy_t : list (list (list score)))
    : Prop := {
  width_is_K : beam_width self = K;
  vocab_is_V : target_vocab_size self = V;
  vocab_nonempty : 1 <= V;
  logpb_shape : shape2 M K logpb_tm1;
  logpy_shape : shape3 M K V logpy_t;
  history_shape : shape3 t M K b_tm1_1;
  hidden_shape : Forall (shape3 M K H) (components (cell_type self) htilde_t)
}.

(** [p] may stand before [q] in a list sorted by decreasing value. *)
Definition before (p q : score * nat) : Prop := leb (fst q) (fst p) = true.

End WithScores.

End BeamTerms.

(** ** Concrete inputs *)

Module Examples.

(** Token ids. *)
Definition reference_ids : list nat := [1; 2; 3; 4].
Definition candidate_ids : list nat := [1; 2; 1; 2].

(** The sentences of [test_bleu_score.py], split into words. *)
Definition test_reference : list string :=
  ["it"; "is"; "a"; "guide"; "to"; "action"; "that"; "ensures"; "that";
   "the"; "military"; "will"; "always"; "heed"; "party"; "commands"]%string.

Definition test_candidate : list string :=
  ["it"; "is"; "a"; "guide"; "to"; "action"; "which"; "ensures"; "that";
   "the"; "military"; "always"; "obeys"; "the"; "commands"; "of"; "the";
   "party"]%string.

(** Two source positions, a batch of two sentences of lengths 1 and 2,
    a constant similarity. *)
Definition flat_similarity (x y : list R) : R := 0%R.
Definition query : Attention.tensor2 := [[1%R]; [1%R]].
Definition encoded : Attention.tensor3 := [[[1%R]; [1%R]]; [[2%R]; [2%R]]].
Definition source_lengths : list nat := [1; 2].

(** One head, identity projections, an LSTM state. *)
Definition one_head : Attention.decoder := {|
  Attention.cell_type := Attention.lstm;
  Attention.hidden_state_size := 1;
  Attention.heads := 1;
  Attention.W := fun v => v;
  Attention.Wtilde := fun v => v;
  Attention.Q := fun v => v
|}.

Definition lstm_state : Attention.hidden_state (Attention.cell_type one_head) :=
  ([[1%R]; [1%R]], [[0%R]; [0%R]]).

(** A beam of width 2 over a vocabulary of 2 tokens, integer scores. *)
Definition gru_beam : Beam.model := {|
  Beam.cell_type := Attention.gru;
  Beam.beam_width := 2;
  Beam.target_vocab_size := 2
|}.

Definition hidden_in : Beam.hidden_state (Beam.cell_type gru_beam) :=
  [[[1%R]; [2%R]]].
Definition history_in : list (list (list nat)) := [[[0; 1]]].
Definition logpb_in : list (list Z) := [[0; -1]]%Z.
Definition logpy_in : list (list (list Z)) := [[[-5; -1]; [-3; -2]]]%Z.

End Examples.

(** ** The first hidden state and teacher forcing *)

Module DecoderTerms.

(** The time step that the index [f - 1] designates among [S] steps,
    for a source length [f] between 0 and [S]: the index -1 of a zero
    length is the last step. *)
Definition read_step (S : nat) (f : Z) : nat :=
  if (f =? 0)%Z then S - 1 else Z.to_nat (f - 1).

Section TeacherForcing.

Variable c : Attention.cell.
Variable source_lengths : Type.
Variable decoder :
  list nat -> Attention.hidden_state c -> Decoder.tensor3 -> source_lengths ->
  Outcome.outcome (Decoder.tensor2 * Attention.hidden_state c).

(** The decoder fed with the rows [rows] one after the other, from the
    hidden state [htilde]: the logits of the steps and the last hidden
    state, or the exception of the first step that raises. *)
Fixpoint fed_rows (h : Decoder.tensor3) (F_lens : source_lengths)
    (rows : list (list nat)) (htilde : Attention.hidden_state c)
    : Outcome.outcome (list Decoder.tensor2 * Attention.hidden_state c) :=
  match rows with
  | [] => Outcome.Ret ([], htilde)
  | E_i :: rows' =>
      step <~ decoder E_i htilde h F_lens ;;
      rest <~ fed_rows h F_lens rows' (snd step) ;;
      Outcome.Ret (fst step :: fst rest, snd rest)
  end.

End TeacherForcing.

End DecoderTerms.

(** ** Further examples *)

Module MoreExamples.

(** An excerpt of a longer sequence of token ids, and ids that
    [Examples.reference_ids] does not have. *)
Definition excerpt_before : list nat := [7].
Definition excerpt : list nat := [1; 2; 3].
Definition excerpt_after : list nat := [8; 9].
Definition short_ids : list nat := [1; 2].
Definition other_ids : list nat := [5; 6].

(** A GRU decoder with identity projections. *)
Definition identity_heads (n_heads H : nat) : Attention.decoder := {|
  Attention.cell_type := Attention.gru;
  Attention.hidden_state_size := H;
  Attention.heads := n_heads;
  Attention.W := fun v => v;
  Attention.Wtilde := fun v => v;
  Attention.Q := fun v => v
|}.

(** Hidden states of size 2 for two source positions and a batch of two
    sentences; the position 1 of the first sentence is padding. *)
Definition wide_query : Attention.tensor2 := [[1%R; 2%R]; [3%R; 4%R]].
Definition wide_encoded : Attention.tensor3 :=
  [[[1%R; 2%R]; [3%R; 4%R]]; [[5%R; 6%R]; [7%R; 8%R]]].
Definition wide_encoded_repadded : Attention.tensor3 :=
  [[[1%R; 2%R]; [3%R; 4%R]]; [[0%R; 0%R]; [7%R; 8%R]]].

(** Source lengths as a [LongTensor]. *)
Definition lengths_Z : list Z := [1; 2]%Z.
Definition lengths_with_zero : list Z := [0; 2]%Z.
Definition lengths_too_long : list Z := [3; 1]%Z.

(** A beam of width 1 over a vocabulary of 2 tokens. *)
Definition greedy_beam : Beam.model := {|
  Beam.cell_type := Attention.gru;
  Beam.beam_width := 1;
  Beam.target_vocab_size := 2
|}.

Definition greedy_hidden : Beam.hidden_state (Beam.cell_type greedy_beam) :=
  [[[1%R]]].
Definition greedy_history : list (list (list nat)) := [[[0]]].
Definition greedy_logpb : list (list Z) := [[0]]%Z.
Definition greedy_logpy : list (list (list Z)) := [[[-5; -1]]]%Z.

(** Batches of two target sequences; 0 is the start tag and 1 the end
    tag. *)
Definition sos : Z := 0%Z.
Definition eos : Z := 1%Z.

Definition ref_batch : Evaluation.long_matrix := {|
  Evaluation.size0 := 3;
  Evaluation.size1 := 2;
  Evaluation.entries := [[0; 0]; [5; 6]; [1; 1]]%Z
|}.

Definition cand_batch : Evaluation.long_matrix := {|
  Evaluation.size0 := 2;
  Evaluation.size1 := 2;
  Evaluation.entries := [[0; 0]; [5; 7]]%Z
|}.

Definition narrow_batch : Evaluation.long_matrix := {|
  Evaluation.size0 := 2;
  Evaluation.size1 := 1;
  Evaluation.entries := [[0]; [5]]%Z
|}.

Definition no_batch : Evaluation.long_matrix := {|
  Evaluation.size0 := 2;
  Evaluation.size1 := 0;
  Evaluation.entries := [[]; []]
|}.

Definition tag_rows : list (list Z) := [[1; 1]; [1; 0]]%Z.

(** A model whose beam search returns one path per sequence. *)
Definition searched_paths (F F_lens : unit) : Evaluation.long_cube := {|
  Evaluation.cube_size0 := 2;
  Evaluation.cube_size1 := 2;
  Evaluation.cube_size2 := 1;
  Evaluation.cube_entries := [[[0]; [0]]; [[5]; [7]]]%Z
|}.

Definition one_batch : list (unit * unit * Evaluation.long_matrix) :=
  [(tt, tt, ref_batch)].

(** A decoder step that returns its hidden state as logits, and a
    target of three rows. *)
Definition echo_decoder (E_tm1 : list nat)
    (htilde_tm1 : Attention.hidden_state Attention.gru)
    (h : Decoder.tensor3) (F_lens : list Z)
    : Outcome.outcome (Decoder.tensor2 * Attention.hidden_state Attention.gru) :=
  Outcome.Ret (htilde_tm1, htilde_tm1).

Definition target_rows : list (list nat) := [[0; 0]; [5; 6]; [1; 1]].

End MoreExamples.

(** * Properties *)

(** ** The result monad *)

Module PyFacts.
Import Py.

Lemma Val_inj (A : Type) (a b : A) : Val a = Val b -> a = b.
Proof. intros H; injection H; auto. Qed.

Lemma bind_Val (A B : Type) (a : A) (k : A -> result B) :
  bind (Val a) k = k a.
Proof. reflexivity. Qed.

Lemma truediv_pos (a b : nat) :
  b <> 0 -> truediv a b = Val (INR a / INR b)%R.
Proof.
  intros Hb. unfold truediv.
  destruct (Nat.eqb_spec b 0) as [E | _]; [contradiction | reflexivity].
Qed.

Lemma pow_zero_base (y : R) : (0 < y)%R -> pow 0 y = Val 0%R.
Proof.
  intros Hy. unfold pow.
  destruct (Req_dec_T 0 0) as [_ | N]; [| contradiction N; reflexivity].
  destruct (Rlt_dec y 0) as [L | _]; [lra |].
  destruct (Req_dec_T y 0) as [E | _]; [lra | reflexivity].
Qed.

Lemma pow_pos_base (x y : R) : (0 < x)%R -> pow x y = Val (Rpower x y).
Proof.
  intros Hx. unfold pow.
  destruct (Req_dec_T x 0) as [E | _]; [lra |].
  destruct (Rlt_dec 0 x) as [_ | N]; [reflexivity | contradiction].
Qed.

(** The [n]-th power undoes the exponent [1/n] on a positive base. *)
Lemma Rpower_root (x : R) (n : nat) :
  (0 < x)%R -> n <> 0 -> (Rpower x (INR 1 / INR n) ^ n = x)%R.
Proof.
  intros Hx Hn.
  assert (Hpos : (0 < Rpower x (INR 1 / INR n))%R) by apply exp_pos.
  rewrite <- (Rpower_pow n _ Hpos), Rpower_mult.
  replace (INR 1 / INR n * INR n)%R with 1%R.
  - apply Rpower_1; assumption.
  - simpl. field. apply not_0_INR; assumption.
Qed.

End PyFacts.

(** ** BLEU *)

Module BleuFacts.
Import Py PyFacts Bleu BleuTerms.

Section WithTokens.

Variable token : Type.
Variable token_eq_dec : forall x y : token, {x = y} + {x <> y}.

Local Abbreviation ngram := (list token).
Local Abbreviation precision := (n_gram_precision token_eq_dec).
Local Abbreviation product := (precision_product token_eq_dec).
Local Abbreviation BLEU := (BLEU_score token_eq_dec).

Lemma slice_window (seq : ngram) (i n : nat) :
  slice seq i (i + n) = window seq i n.
Proof. unfold slice, window. replace (i + n - i) with n by lia. reflexivity. Qed.

Lemma grouper_windows (seq : ngram) (n : nat) :
  n <= length seq ->
  grouper seq n = map (fun i => window seq i n) (List.seq 0 (length seq - n + 1)).
Proof.
  intros Hn. unfold grouper, range.
  destruct (Nat.leb_spec n (length seq)) as [_ | Hlt]; [| lia].
  apply map_ext. intros i. apply slice_window.
Qed.

Lemma grouper_short (seq : ngram) (n : nat) :
  length seq < n -> grouper seq n = [].
Proof.
  intros Hn. unfold grouper.
  destruct (Nat.leb_spec n (length seq)) as [Hle | _]; [lia | reflexivity].
Qed.

Lemma length_grouper (seq : ngram) (n : nat) :
  n <= length seq -> length (grouper seq n) = length seq - n + 1.
Proof.
  intros Hn. rewrite grouper_windows by assumption.
  rewrite length_map, length_seq. reflexivity.
Qed.

Lemma In_grouper (seq : ngram) (n : nat) (g : ngram) :
  In g (grouper seq n) <-> occurs seq n g.
Proof.
  unfold occurs. split.
  - intros Hin. destruct (Nat.le_gt_cases n (length seq)) as [Hle | Hgt].
    + rewrite grouper_windows in Hin by assumption.
      apply in_map_iff in Hin. destruct Hin as [j [Hj Hin]].
      apply in_seq in Hin. exists j. split; [lia | assumption].
    + rewrite grouper_short in Hin by assumption. contradiction.
  - intros [j [Hj Hg]]. rewrite grouper_windows by lia.
    apply in_map_iff. exists j. split; [assumption |].
    apply in_seq. lia.
Qed.

Lemma map_constant (A B : Type) (b : B) (l : list A) :
  map (fun _ => b) l = repeat b (length l).
Proof. induction l as [| a l IH]; simpl; [| rewrite IH]; reflexivity. Qed.

Lemma grouper_order_zero (seq : ngram) :
  grouper seq 0 = repeat [] (length seq + 1).
Proof.
  rewrite grouper_windows by lia.
  rewrite (map_ext _ (fun _ => @nil token)) by reflexivity.
  rewrite map_constant, length_seq. f_equal. lia.
Qed.

Lemma contains_spec (l : list ngram) (c : ngram) :
  contains token_eq_dec l c = true <-> In c l.
Proof.
  unfold contains. destruct (in_dec _ c l) as [Hin | Hout].
  - split; auto.
  - split; [discriminate | contradiction].
Qed.

(** The counting loop adds the number of candidate n-grams found among
    the reference n-grams, each occurrence counted. *)
Lemma count_matches_filter (r c : list ngram) (acc : nat) :
  count_matches token_eq_dec r c acc
  = acc + length (filter (contains token_eq_dec r) c).
Proof.
  unfold count_matches. revert acc.
  induction c as [| g c IH]; intros acc; simpl; [lia |].
  rewrite IH. destruct (contains token_eq_dec r g); simpl; lia.
Qed.

Lemma count_matches_le (r c : list ngram) :
  count_matches token_eq_dec r c 0 <= length c.
Proof. rewrite count_matches_filter. simpl. apply filter_length_le. Qed.

Lemma precision_nonempty (reference candidate : ngram) (n : nat) :
  n <= length candidate ->
  precision reference candidate n
  = Val (INR (count_matches token_eq_dec (grouper reference n)
                            (grouper candidate n) 0)
         / INR (length candidate - n + 1))%R.
Proof.
  intros Hn. unfold n_gram_precision.
  rewrite (length_grouper _ Hn).
  destruct (Nat.eqb_spec (length candidate - n + 1) 0) as [E | N]; [lia |].
  apply truediv_pos. assumption.
Qed.

Lemma precision_no_ngram (reference candidate : ngram) (n : nat) :
  length candidate < n -> precision reference candidate n = Val 0%R.
Proof.
  intros Hn. unfold n_gram_precision.
  rewrite (grouper_short _ Hn). reflexivity.
Qed.

(** [n_gram_precision] never raises and its value lies in [0, 1]. *)
Lemma precision_bounds (reference candidate : ngram) (n : nat) :
  exists p, precision reference candidate n = Val p /\ (0 <= p <= 1)%R.
Proof.
  destruct (Nat.le_gt_cases n (length candidate)) as [Hle | Hgt].
  - rewrite precision_nonempty by assumption.
    eexists. split; [reflexivity |].
    set (len_c := length candidate - n + 1).
    assert (Hm := count_matches_le (grouper reference n) (grouper candidate n)).
    rewrite (length_grouper _ Hle) in Hm. fold len_c in Hm.
    assert (Hpos : (0 < INR len_c)%R) by (apply lt_0_INR; unfold len_c; lia).
    assert (H0 := pos_INR (count_matches token_eq_dec (grouper reference n)
                                         (grouper candidate n) 0)).
    apply le_INR in Hm. split.
    + apply Rmult_le_pos; [assumption |].
      left. apply Rinv_0_lt_compat. assumption.
    + apply (Rmult_le_reg_r (INR len_c)); [assumption |].
      unfold Rdiv. rewrite Rmult_assoc, Rinv_l by lra. lra.
  - rewrite precision_no_ngram by assumption.
    exists 0%R. split; [reflexivity | lra].
Qed.

(** Every reference n-gram list holds the empty window when [n = 0], and
    so does the candidate's: all candidate windows match. *)
Lemma precision_order_zero (reference candidate : ngram) :
  precision reference candidate 0 = Val 1%R.
Proof.
  rewrite precision_nonempty by lia.
  rewrite count_matches_filter, !grouper_order_zero. simpl.
  replace (filter _ _) with (repeat (@nil token) (length candidate + 1)).
  - rewrite repeat_length. replace (length candidate - 0 + 1)
      with (length candidate + 1) by lia.
    f_equal. field. apply not_0_INR. lia.
  - symmetry. apply forallb_filter_id. apply forallb_forall.
    intros g Hg. apply repeat_spec in Hg. subst g.
    apply contains_spec. replace (length reference + 1) with (S (length reference)) by lia.
    simpl. left. reflexivity.
Qed.

Lemma precision_empty_candidate (reference : ngram) (n : nat) :
  1 <= n -> precision reference [] n = Val 0%R.
Proof. intros Hn. apply precision_no_ngram. simpl. lia. Qed.

End WithTokens.

End BleuFacts.

Module BleuSpec.
Import Py PyFacts Shapes Bleu BleuTerms BleuFacts.

Section WithTokens.

Variable token : Type.
Variable token_eq_dec : forall x y : token, {x = y} + {x <> y}.

Local Abbreviation ngram := (list token).
Local Abbreviation precision := (n_gram_precision token_eq_dec).
Local Abbreviation product := (precision_product token_eq_dec).
Local Abbreviation BLEU := (BLEU_score token_eq_dec).

Local Abbreviation precision_value := (BleuTerms.precision_value token_eq_dec).
Local Abbreviation precisions := (BleuTerms.precisions token_eq_dec).
Local Abbreviation matched_positions :=
  (BleuTerms.matched_positions token_eq_dec).

Lemma precision_is_value (reference candidate : ngram) (i : nat) :
  precision reference candidate i = Val (precision_value reference candidate i).
Proof.
  unfold precision_value.
  destruct (precision_bounds token_eq_dec reference candidate i) as [p [E _]].
  rewrite E. reflexivity.
Qed.

Lemma precision_value_bounds (reference candidate : ngram) (i : nat) :
  (0 <= precision_value reference candidate i <= 1)%R.
Proof.
  unfold precision_value.
  destruct (precision_bounds token_eq_dec reference candidate i) as [p [E B]].
  rewrite E. assumption.
Qed.

Lemma product_value (reference candidate : ngram) (lo len : nat) (acc : R) :
  product reference candidate lo len acc
  = Val (acc * Rprod (precisions reference candidate lo len))%R.
Proof.
  unfold precision_product, precisions. revert lo acc.
  induction len as [| len IH]; intros lo acc; simpl.
  - f_equal. unfold Rprod. simpl. ring.
  - rewrite precision_is_value. simpl. rewrite IH.
    f_equal. unfold Rprod. simpl. ring.
Qed.

Lemma Rprod_bounds (l : list R) :
  Forall (fun p => 0 <= p <= 1)%R l -> (0 <= Rprod l <= 1)%R.
Proof.
  unfold Rprod. induction 1 as [| p l Hp _ IH]; simpl; [lra | nra].
Qed.

Lemma Rprod_zero (l : list R) : In 0%R l -> Rprod l = 0%R.
Proof.
  unfold Rprod. induction l as [| p l IH]; simpl; [contradiction |].
  intros [E | Hin]; [subst p; ring | rewrite (IH Hin); ring].
Qed.

Lemma precisions_bounds (reference candidate : ngram) (lo len : nat) :
  (0 <= Rprod (precisions reference candidate lo len) <= 1)%R.
Proof.
  apply Rprod_bounds, Forall_forall. intros p Hp.
  apply in_map_iff in Hp. destruct Hp as [i [E _]]. subst p.
  apply precision_value_bounds.
Qed.

Lemma brevity_penalty_empty (reference : ngram) :
  brevity_penalty reference [] = Val 0%R.
Proof. reflexivity. Qed.

Lemma brevity_penalty_nonempty (reference candidate : ngram) :
  0 < length candidate ->
  brevity_penalty reference candidate
  = if Rlt_dec (INR (length reference) / INR (length candidate)) 1
    then Val 1%R
    else Val (exp (1 - INR (length reference) / INR (length candidate))).
Proof.
  intros Hc. unfold brevity_penalty.
  destruct (Nat.eqb_spec (length candidate) 0) as [E | N]; [lia |].
  rewrite truediv_pos by assumption. reflexivity.
Qed.

Lemma brevity_penalty_returns (reference candidate : ngram) :
  exists bp, brevity_penalty reference candidate = Val bp.
Proof.
  destruct (Nat.eq_dec (length candidate) 0) as [E | N].
  - apply length_zero_iff_nil in E. subst candidate.
    exists 0%R. apply brevity_penalty_empty.
  - rewrite brevity_penalty_nonempty by lia.
    destruct (Rlt_dec _ 1); eexists; reflexivity.
Qed.

(** [BLEU_score] for [n >= 1]: no outcome but a value, the brevity
    penalty times the [n]-th root of the product of the precisions of
    orders [0..n]. *)
Lemma BLEU_score_root (reference candidate : ngram) (n : nat) :
  1 <= n ->
  exists bp root,
    brevity_penalty reference candidate = Val bp /\
    (0 <= root)%R /\
    (root ^ n = Rprod (precisions reference candidate 0 (n + 1)))%R /\
    BLEU reference candidate n = Val (bp * root)%R.
Proof.
  intros Hn.
  destruct (brevity_penalty_returns reference candidate) as [bp Hbp].
  set (P := Rprod (precisions reference candidate 0 (n + 1))).
  assert (HP : (0 <= P <= 1)%R) by apply precisions_bounds.
  assert (Hstep : BLEU reference candidate n
                  = root <- pow P (INR 1 / INR n) ;; Val (bp * root)%R).
  { unfold BLEU_score. rewrite Hbp. simpl bind.
    rewrite product_value. simpl bind.
    rewrite truediv_pos by lia. simpl bind.
    fold P. replace (1 * P)%R with P by ring. reflexivity. }
  assert (He : (0 < INR 1 / INR n)%R).
  { apply Rdiv_lt_0_compat; [simpl; lra | apply lt_0_INR; lia]. }
  destruct (Req_dec_T P 0) as [E | N].
  - exists bp, 0%R. repeat split; [assumption | lra | |].
    + rewrite E. apply pow_i. lia.
    + rewrite Hstep, E, pow_zero_base by assumption. reflexivity.
  - assert (Hpos : (0 < P)%R) by lra.
    exists bp, (Rpower P (INR 1 / INR n)). repeat split; [assumption | | |].
    + left. apply exp_pos.
    + apply Rpower_root; [assumption | lia].
    + rewrite Hstep, pow_pos_base by assumption. reflexivity.
Qed.

Lemma nth_precisions (reference candidate : ngram) (n i : nat) :
  i < n ->
  nth i (precisions reference candidate 0 n) 0%R
  = precision_value reference candidate i.
Proof.
  intros Hi. unfold precisions.
  rewrite (nth_indep _ 0%R (precision_value reference candidate 0))
    by (rewrite length_map, length_seq; assumption).
  rewrite map_nth, seq_nth by assumption. reflexivity.
Qed.

(** C5.  For [max_n >= 1], [BLEU_score] returns the brevity penalty
    times the [max_n]-th root of the product of the precisions of
    orders [0, 1, ..., max_n], each of them the value
    [n_gram_precision] returns (order 0 included); the root is the
    non-negative number whose [max_n]-th power is the product.  When
    one of the precisions is 0, the score is 0. *)
Theorem BLEU_score_penalised_root (reference candidate : ngram) (n : nat) :
  1 <= n ->
  exists (bp : R) (ps : list R) (root : R),
    brevity_penalty reference candidate = Val bp /\
    length ps = n + 1 /\
    (forall i, i <= n -> precision reference candidate i = Val (nth i ps 0%R)) /\
    (0 <= root)%R /\
    (root ^ n = Rprod ps)%R /\
    BLEU reference candidate n = Val (bp * root)%R /\
    (In 0%R ps -> BLEU reference candidate n = Val 0%R).
Proof.
  intros Hn.
  destruct (BLEU_score_root reference candidate Hn)
    as [bp [root [Hbp [Hroot [Hpow Hscore]]]]].
  exists bp, (precisions reference candidate 0 (n + 1)), root.
  repeat split; try assumption.
  - unfold precisions. rewrite length_map, length_seq. reflexivity.
  - intros i Hi. rewrite nth_precisions by lia. apply precision_is_value.
  - intros Hin. apply Rprod_zero in Hin. rewrite Hin in Hpow.
    assert (E : root = 0%R).
    { destruct (Req_dec_T root 0) as [E | N]; [assumption |].
      exfalso. apply (pow_nonzero root n N). assumption. }
    rewrite Hscore, E. f_equal. ring.
Qed.

(** C9.  With an empty candidate and [max_n >= 1], [brevity_penalty]
    and [BLEU_score] both return 0 and [n_gram_precision] returns a
    value at every order: no call raises.  ([grouper] has no failing
    operation; for the empty sequence it yields no n-gram of a
    positive order.) *)
Theorem empty_candidate_never_raises (reference : ngram) (n : nat) :
  1 <= n ->
  brevity_penalty reference [] = Val 0%R /\
  BLEU reference [] n = Val 0%R /\
  (forall i, returns (precision reference [] i)) /\
  (forall i, 1 <= i -> grouper (@nil token) i = []).
Proof.
  intros Hn. repeat split.
  - destruct (BLEU_score_root reference [] Hn)
      as [bp [root [Hbp [_ [_ Hscore]]]]].
    rewrite brevity_penalty_empty in Hbp. apply Val_inj in Hbp. subst bp.
    rewrite Hscore. f_equal. ring.
  - intros i. exists (precision_value reference [] i).
    apply precision_is_value.
  - intros i Hi. apply grouper_short. simpl. lia.
Qed.

(** C10.  [grouper(seq, 0)] is [len(seq) + 1] empty windows, never the
    empty list; hence the precision of order 0 is 1 for every
    reference and candidate, and the loop of [BLEU_score] over
    [range(n + 1)] yields what it yields over the orders [1..n]. *)
Theorem order_zero_factor_is_one (reference candidate seq0 : ngram) :
  grouper seq0 0 = repeat [] (length seq0 + 1) /\
  grouper seq0 0 <> [] /\
  precision reference candidate 0 = Val 1%R /\
  precision reference [] 0 = Val 1%R /\
  (forall n acc, product reference candidate 0 (n + 1) acc
                 = product reference candidate 1 n acc).
Proof.
  repeat split.
  - apply grouper_order_zero.
  - rewrite grouper_order_zero.
    replace (length seq0 + 1) with (S (length seq0)) by lia. discriminate.
  - apply precision_order_zero.
  - apply precision_order_zero.
  - intros n acc. replace (n + 1) with (S n) by lia.
    unfold precision_product at 1. simpl for_range.
    rewrite precision_order_zero. simpl bind.
    replace (acc * 1)%R with acc by ring. reflexivity.
Qed.

Lemma filter_map_comm (A B : Type) (f : B -> bool) (g : A -> B) (l : list A) :
  length (filter f (map g l)) = length (filter (fun a => f (g a)) l).
Proof.
  induction l as [| a l IH]; simpl; [reflexivity |].
  destruct (f (g a)); simpl; rewrite IH; reflexivity.
Qed.

Lemma window_of_repeat (x : token) (k j : nat) :
  j + 1 <= k -> window (repeat x k) j 1 = [x].
Proof.
  intros Hj. unfold window.
  assert (Hlen : length (skipn j (repeat x k)) = k - j)
    by (rewrite length_skipn, repeat_length; reflexivity).
  destruct (skipn j (repeat x k)) as [| y rest] eqn:E; simpl in Hlen; [lia |].
  simpl. f_equal.
  assert (Hin : In y (repeat x k)).
  { apply (@nth_error_In _ _ j). rewrite <- hd_error_skipn, E. reflexivity. }
  apply repeat_spec in Hin. assumption.
Qed.

Lemma matched_positions_spec (reference candidate : ngram) (n i : nat) :
  n <= length candidate ->
  In i (matched_positions reference candidate n) <->
  i + n <= length candidate /\ occurs reference n (window candidate i n).
Proof.
  intros Hn. unfold matched_positions.
  rewrite filter_In, in_seq, contains_spec, In_grouper.
  split; intros [H1 H2]; (split; [lia | assumption]).
Qed.

Lemma precision_matched_positions (reference candidate : ngram) (n : nat) :
  n <= length candidate ->
  precision reference candidate n
  = Val (INR (length (matched_positions reference candidate n))
         / INR (length candidate - n + 1))%R.
Proof.
  intros Hn. rewrite precision_nonempty by assumption.
  rewrite count_matches_filter. simpl.
  rewrite (grouper_windows candidate Hn), filter_map_comm. reflexivity.
Qed.

(** C7.  For [n >= 1] and a candidate with at least one n-gram, the
    precision is the number of candidate positions whose n-gram occurs
    somewhere among the reference n-grams, over the number of candidate
    n-grams.  Every position counts, whatever the number of occurrences
    in the reference: a reference [[x]] gives precision 1 to the
    candidate made of [k] copies of [x]. *)
Theorem precision_counts_unclipped_matches
    (reference candidate : ngram) (n : nat) :
  1 <= n -> n <= length candidate ->
  (exists matched : list nat,
      NoDup matched /\
      (forall i, In i matched <->
                 i + n <= length candidate /\
                 occurs reference n (window candidate i n)) /\
      length (grouper candidate n) = length candidate - n + 1 /\
      precision reference candidate n
      = Val (INR (length matched) / INR (length (grouper candidate n)))%R) /\
  (forall (x : token) (k : nat),
      1 <= k -> precision [x] (repeat x k) 1 = Val 1%R).
Proof.
  intros _ Hn. split.
  - exists (matched_positions reference candidate n).
    split; [apply NoDup_filter, seq_NoDup |].
    split; [intros i; apply matched_positions_spec; assumption |].
    split; [apply length_grouper; assumption |].
    rewrite (length_grouper _ Hn).
    apply precision_matched_positions. assumption.
  - intros x k Hk.
    assert (Hlen : 1 <= length (repeat x k)) by (rewrite repeat_length; lia).
    rewrite precision_matched_positions by assumption.
    unfold matched_positions. rewrite forallb_filter_id.
    + rewrite length_seq. f_equal. field.
      apply not_0_INR. rewrite repeat_length. lia.
    + apply forallb_forall. intros j Hj. apply in_seq in Hj.
      rewrite repeat_length in Hj.
      rewrite window_of_repeat by lia.
      apply contains_spec. simpl. left. reflexivity.
Qed.

(** C6, as the code has it.  [brevity_penalty] returns 0 for an empty
    candidate; 1 for a non-empty candidate at least as long as the
    reference, equal lengths included; and [exp(1 - r/c)] for a
    non-empty candidate shorter than the reference. *)
Theorem brevity_penalty_cases (reference candidate : ngram) :
  (length candidate = 0 -> brevity_penalty reference candidate = Val 0%R) /\
  (0 < length candidate -> length reference <= length candidate ->
   brevity_penalty reference candidate = Val 1%R) /\
  (0 < length candidate < length reference ->
   brevity_penalty reference candidate
   = Val (exp (1 - INR (length reference) / INR (length candidate)))).
Proof.
  repeat split.
  - intros E. apply length_zero_iff_nil in E. subst candidate. reflexivity.
  - intros Hc Hle. rewrite brevity_penalty_nonempty by assumption.
    assert (Hpos : (0 < INR (length candidate))%R) by (apply lt_0_INR; lia).
    destruct (Rlt_dec _ 1) as [_ | Hge]; [reflexivity |].
    assert (E : length reference = length candidate).
    { apply Nat.le_antisymm; [assumption |].
      apply INR_le. apply Rnot_lt_le in Hge.
      apply (Rmult_le_compat_r (INR (length candidate))) in Hge; [| lra].
      unfold Rdiv in Hge. rewrite Rmult_assoc, Rinv_l in Hge by lra. lra. }
    rewrite E. replace (1 - _)%R with 0%R by (field; lra).
    rewrite exp_0. reflexivity.
  - intros [Hc Hlt]. rewrite brevity_penalty_nonempty by assumption.
    assert (Hpos : (0 < INR (length candidate))%R) by (apply lt_0_INR; lia).
    destruct (Rlt_dec _ 1) as [Hlt1 | _]; [| reflexivity].
    exfalso. apply lt_INR in Hlt.
    apply (Rmult_lt_compat_r (INR (length candidate))) in Hlt1; [| lra].
    unfold Rdiv in Hlt1. rewrite Rmult_assoc, Rinv_l in Hlt1 by lra. lra.
Qed.

End WithTokens.

(** C6, as stated, fails where both sequences are empty: the candidate
    is at least as long as the reference and the penalty is 0, not 1. *)
Lemma brevity_penalty_both_empty :
  length (@nil nat) >= length (@nil nat) /\
  brevity_penalty (@nil nat) (@nil nat) = Val 0%R /\
  brevity_penalty (@nil nat) (@nil nat) <> Val 1%R.
Proof.
  split; [simpl; lia |]. split; [reflexivity |].
  simpl. intros H. apply Val_inj in H. lra.
Qed.

(** C4, at the order 0.  For an empty candidate the documented value
    of [n_gram_precision] is 0; at [n = 0] the code returns 1, as the
    empty sequence still yields one (empty) window.  The other parts of
    the claim hold: the value always lies in [0, 1], and it is 0 for an
    empty candidate at every order [n >= 1]. *)
Theorem precision_empty_candidate_order_zero :
  n_gram_precision Nat.eq_dec [7] [] 0 = Val 1%R /\
  n_gram_precision Nat.eq_dec [7] [] 0 <> Val 0%R /\
  (forall (reference candidate : list nat) (n : nat),
      exists p, n_gram_precision Nat.eq_dec reference candidate n = Val p /\
                (0 <= p <= 1)%R) /\
  (forall (reference : list nat) (n : nat),
      1 <= n -> n_gram_precision Nat.eq_dec reference [] n = Val 0%R).
Proof.
  assert (E := precision_order_zero Nat.eq_dec [7] []).
  repeat split.
  - assumption.
  - rewrite E. intros H. apply Val_inj in H. lra.
  - intros reference candidate n. apply precision_bounds.
  - intros reference n Hn. apply precision_empty_candidate. assumption.
Qed.

End BleuSpec.

(** ** Tensors as nested lists *)

Module TorchFacts.
Import Py PyFacts Torch Shapes.

Lemma length_map2 (A B C : Type) (f : A -> B -> C) (xs : list A) (ys : list B) :
  length (map2 f xs ys) = Nat.min (length xs) (length ys).
Proof.
  revert ys. induction xs as [| x xs IH]; intros [| y ys]; simpl; auto.
Qed.

Lemma nth_map2 (A B C : Type) (f : A -> B -> C) (xs : list A) (ys : list B)
    (i : nat) (a : A) (b : B) (c : C) :
  i < length xs -> i < length ys ->
  nth i (map2 f xs ys) c = f (nth i xs a) (nth i ys b).
Proof.
  revert ys i. induction xs as [| x xs IH]; intros [| y ys] [| i]; simpl;
    intros Hx Hy; try lia; [reflexivity |].
  apply IH; lia.
Qed.

Lemma nth_error_nth_default (A : Type) (l : list A) (i : nat) (d : A) :
  i < length l -> nth_error l i = Some (nth i l d).
Proof.
  revert i. induction l as [| x l IH]; intros [| i]; simpl; intros H;
    try lia; [reflexivity |].
  apply IH. lia.
Qed.

Lemma Forall_nth_default (A : Type) (P : A -> Prop) (l : list A) (i : nat) (d : A) :
  Forall P l -> i < length l -> P (nth i l d).
Proof.
  intros HF Hi. rewrite Forall_forall in HF. apply HF, nth_In. assumption.
Qed.

Lemma map_nth_range (A : Type) (l : list A) (d : A) :
  map (fun i => nth i l d) (seq 0 (length l)) = l.
Proof.
  induction l as [| x l IH]; simpl; [reflexivity |].
  f_equal. rewrite <- seq_shift, map_map. assumption.
Qed.

Lemma mapM_values (A B : Type) (f : A -> result B) (g : A -> B) (l : list A) :
  (forall x, In x l -> f x = Val (g x)) -> mapM f l = Val (map g l).
Proof.
  induction l as [| x l IH]; intros H; simpl; [reflexivity |].
  rewrite (H x) by (left; reflexivity). simpl.
  rewrite IH by (intros y Hy; apply H; right; assumption).
  reflexivity.
Qed.

Lemma length_concat_shape (A : Type) (r c : nat) (t : list (list A)) :
  shape2 r c t -> length (concat t) = r * c.
Proof.
  intros [Hr Hc]. subst r.
  induction Hc as [| row t Hrow _ IH]; simpl; [reflexivity |].
  rewrite length_app, IH, Hrow. reflexivity.
Qed.

(** The [i]-th block of [c] elements of a concatenation of blocks of
    [c] elements is the [i]-th block. *)
Lemma block_of_concat (A : Type) (c : nat) (bs : list (list A)) (i : nat) :
  Forall (fun b => length b = c) bs -> i < length bs ->
  firstn c (skipn (i * c) (concat bs)) = nth i bs [].
Proof.
  intros HF. revert i.
  induction HF as [| b bs Hb _ IH]; intros i Hi; simpl in Hi; [lia |].
  destruct i as [| i]; simpl.
  - rewrite firstn_app, <- Hb, firstn_all, Nat.sub_diag. simpl.
    apply app_nil_r.
  - rewrite skipn_app, <- Hb.
    rewrite (skipn_all2 b) by lia. simpl.
    replace (length b + i * length b - length b) with (i * length b) by lia.
    rewrite Hb. apply IH. lia.
Qed.

(** Viewing the storage of an (r, c) tensor as (r, c) gives it back. *)
Lemma view2_flatten2 (A : Type) (r c : nat) (t : list (list A)) :
  shape2 r c t -> view2 r c (flatten2 t) = Val t.
Proof.
  intros Hs. assert (Hlen := length_concat_shape Hs).
  destruct Hs as [Hr Hc]. unfold view2, flatten2.
  rewrite Hlen, Nat.eqb_refl. f_equal.
  rewrite <- (map_nth_range t []) at 2. rewrite Hr.
  apply map_ext_in. intros i Hi. apply in_seq in Hi.
  unfold row_of. apply block_of_concat; [assumption | lia].
Qed.

Lemma view3_flatten3 (A : Type) (a b c : nat) (t : list (list (list A))) :
  shape3 a b c t -> view3 a b c (flatten3 t) = Val t.
Proof.
  intros [Ha Hs]. unfold view3, flatten3.
  assert (Hblocks : Forall (fun blk => length blk = b * c) (map (@concat A) t)).
  { apply Forall_map. eapply Forall_impl; [| exact Hs].
    intros t_s H. apply length_concat_shape. assumption. }
  assert (Hlen : length (concat (map (@concat A) t)) = a * b * c).
  { rewrite <- Nat.mul_assoc. apply length_concat_shape.
    split; [rewrite length_map |]; assumption. }
  rewrite Hlen, Nat.eqb_refl.
  rewrite (mapM_values _ (fun i => nth i t [])).
  - f_equal. rewrite <- Ha. apply map_nth_range.
  - intros i Hi. apply in_seq in Hi.
    rewrite block_of_concat by (rewrite ?length_map; assumption || lia).
    change (@nil A) with (@concat A []).
    
    rewrite map_nth. apply view2_flatten2.
    apply Forall_nth_default; [assumption | lia].
Qed.

Lemma repeat_interleave_once (A : Type) (t : list A) :
  repeat_interleave 1 t = t.
Proof.
  unfold repeat_interleave. induction t as [| x t IH]; [reflexivity |].
  change (x :: flat_map (fun y => repeat y 1) t = x :: t).
  f_equal. assumption.
Qed.

Lemma Forall_map2 (A B C : Type) (P : A -> Prop) (Q : B -> Prop)
    (T : C -> Prop) (f : A -> B -> C) (xs : list A) (ys : list B) :
  (forall x y, P x -> Q y -> T (f x y)) ->
  Forall P xs -> Forall Q ys -> Forall T (map2 f xs ys).
Proof.
  intros Hf HP. revert ys.
  induction HP as [| x xs Hx _ IH]; intros ys HQ; [constructor |].
  destruct HQ as [| y ys Hy HQ]; simpl; constructor; auto.
Qed.


Lemma shape2_map2 (A B C : Type) (f : A -> B -> C) (r c : nat)
    (x : list (list A)) (y : list (list B)) :
  shape2 r c x -> shape2 r c y -> shape2 r c (map2 (map2 f) x y).
Proof.
  intros [Hx Fx] [Hy Fy]. split; [rewrite length_map2; lia |].
  clear Hx Hy. revert y Fy.
  induction Fx as [| a x Ha _ IH]; intros y Fy; [constructor |].
  destruct Fy as [| b y Hb Fy]; simpl; constructor.
  - rewrite length_map2. lia.
  - apply IH. assumption.
Qed.


Lemma nth_map_default (A B : Type) (f : A -> B) (l : list A) (i : nat)
    (a : A) (b : B) :
  i < length l -> nth i (map f l) b = f (nth i l a).
Proof.
  intros Hi. rewrite (nth_indep _ b (f a)) by (rewrite length_map; assumption).
  apply map_nth.
Qed.


Lemma firstn_range (n start len : nat) :
  firstn n (seq start len) = seq start (Nat.min n len).
Proof.
  revert start len. induction n as [| n IH]; intros start [| len]; simpl;
    try reflexivity.
  rewrite IH. reflexivity.
Qed.

End TorchFacts.

(** ** Attention *)

Module AttentionSpec.
Import Py PyFacts Torch Shapes TorchFacts Attention.

(** *** Sums along the first axis *)

Lemma fold_left_rows (rows : list (list R)) (acc : list R) (M m : nat) :
  length acc = M -> Forall (fun row => length row = M) rows -> m < M ->
  length (fold_left (map2 Rplus) rows acc) = M /\
  nth m (fold_left (map2 Rplus) rows acc) 0%R
  = (nth m acc 0 + Rsum (column 0%R m rows))%R.
Proof.
  intros Hacc Hrows Hm. revert acc Hacc.
  induction Hrows as [| row rows Hrow _ IH]; intros acc Hacc; simpl.
  - split; [assumption | ring].
  - assert (Hlen : length (map2 Rplus acc row) = M)
      by (rewrite length_map2; lia).
    destruct (IH _ Hlen) as [IH1 IH2]. split; [assumption |].
    rewrite IH2, (nth_map2 Rplus acc row 0%R 0%R 0%R) by lia. ring.
Qed.

Lemma sum0_rows (rows : list (list R)) (M m : nat) :
  rows <> [] -> Forall (fun row => length row = M) rows -> m < M ->
  length (sum0 (map2 Rplus) [] rows) = M /\
  nth m (sum0 (map2 Rplus) [] rows) 0%R = Rsum (column 0%R m rows).
Proof.
  intros Hne Hrows Hm. destruct rows as [| row rows]; [contradiction |].
  apply Forall_cons_iff in Hrows. destruct Hrows as [Hrow Hrest].
  destruct (@fold_left_rows rows row M m Hrow Hrest Hm) as [H1 H2].
  simpl. split; assumption.
Qed.

Lemma sum0_rows_length (rows : list (list R)) (M : nat) :
  rows <> [] -> Forall (fun row => length row = M) rows ->
  length (sum0 (map2 Rplus) [] rows) = M.
Proof.
  intros Hne Hrows. destruct rows as [| row rows]; [contradiction |].
  apply Forall_cons_iff in Hrows. destruct Hrows as [Hrow Hrest]. simpl.
  clear Hne. revert row Hrow.
  induction Hrest as [| row' rows Hrow' _ IH]; intros row Hrow; simpl;
    [assumption |].
  apply IH. rewrite length_map2. lia.
Qed.

Lemma sum0_slices (zero : list (list R)) (slices : list (list (list R)))
    (r c : nat) :
  shape2 r c zero -> Forall (shape2 r c) slices ->
  shape2 r c (sum0 (map2 (map2 Rplus)) zero slices).
Proof.
  intros Hz HF. destruct slices as [| s slices]; [assumption |].
  apply Forall_cons_iff in HF. destruct HF as [Hs Hrest]. simpl.
  clear Hz. revert s Hs.
  induction Hrest as [| s' slices Hs' _ IH]; intros s Hs; simpl;
    [assumption |].
  apply IH. apply shape2_map2; assumption.
Qed.

Lemma zeros_like_shape (r c : nat) (t : list (list R)) :
  shape2 r c t -> shape2 r c (zeros_like t).
Proof.
  intros [Hr Hc]. unfold zeros_like. split; [rewrite length_map; assumption |].
  apply Forall_map. eapply Forall_impl; [| exact Hc].
  intros row Hrow. cbv beta in *. rewrite length_map. assumption.
Qed.

(** *** Sums of reals *)

Lemma Rsum_app (l1 l2 : list R) : Rsum (l1 ++ l2) = (Rsum l1 + Rsum l2)%R.
Proof.
  unfold Rsum. induction l1 as [| x l1 IH]; simpl; [ring | rewrite IH; ring].
Qed.

Lemma Rsum_scaled (l : list R) (z : R) :
  Rsum (map (fun x => x / z)%R l) = (Rsum l / z)%R.
Proof.
  unfold Rsum, Rdiv. induction l as [| x l IH]; simpl; [ring |].
  rewrite IH. ring.
Qed.

Lemma Rsum_zeros (l : list R) : Forall (fun x => x = 0%R) l -> Rsum l = 0%R.
Proof.
  unfold Rsum. induction 1 as [| x l Hx _ IH]; simpl; [reflexivity |].
  rewrite Hx, IH. ring.
Qed.

Lemma Rsum_positive (l : list R) :
  l <> [] -> Forall (fun x => 0 < x)%R l -> (0 < Rsum l)%R.
Proof.
  unfold Rsum. intros Hne HF.
  induction HF as [| x l Hx HF IH]; [contradiction |]. simpl.
  destruct l as [| y l]; [simpl; lra |].
  assert (0 < fold_right Rplus 0 (y :: l))%R by (apply IH; discriminate).
  lra.
Qed.

(** A softmax whose entries from position [F] on are minus infinity:
    those entries get weight 0 and the first [F] weights sum to 1. *)
Lemma masked_softmax_column (c : list ext) (F : nat) :
  1 <= F <= length c ->
  (forall s, s < F -> exists r, nth s c NegInf = Fin r) ->
  (forall s, F <= s -> nth s c NegInf = NegInf) ->
  let z := Rsum (map exp_ext c) in
  Rsum (firstn F (map (fun x => exp_ext x / z)%R c)) = 1%R.
Proof.
  intros HF Hfin Hinf z.
  assert (Hsplit : z = Rsum (map exp_ext (firstn F c))).
  { unfold z. rewrite <- (firstn_skipn F c) at 1.
    rewrite map_app, Rsum_app.
    rewrite (Rsum_zeros (l := map exp_ext (skipn F c))); [ring |].
    apply Forall_map, Forall_forall. intros x Hx.
    apply (In_nth _ _ NegInf) in Hx. destruct Hx as [s [_ Hs]].
    rewrite nth_skipn, Hinf in Hs by lia. subst x. reflexivity. }
  assert (Hpos : (0 < z)%R).
  { rewrite Hsplit. apply Rsum_positive.
    - intros E. apply (f_equal (@length R)) in E.
      rewrite length_map, length_firstn in E. simpl in E. lia.
    - apply Forall_map, Forall_forall. intros x Hx.
      apply (In_nth _ _ NegInf) in Hx. destruct Hx as [s [Hlt Hs]].
      rewrite length_firstn in Hlt.
      rewrite nth_firstn in Hs.
      destruct (Nat.ltb_spec s F) as [HsF | HsF]; [| lia].
      destruct (Hfin s HsF) as [r Hr]. rewrite Hr in Hs. subst x.
      apply exp_pos. }
  rewrite firstn_map. rewrite <- (map_map exp_ext (fun y => y / z)%R).
  rewrite Rsum_scaled, <- Hsplit. field. lra.
Qed.

Lemma column_as_range (A : Type) (d : A) (m : nat) (t : list (list A)) :
  column d m t = map (fun s => nth m (nth s t []) d) (seq 0 (length t)).
Proof.
  unfold column. rewrite <- (map_nth_range t []) at 1.
  rewrite map_map. reflexivity.
Qed.

Section WithCosine.

Variable cosine_similarity : list R -> list R -> R.

Local Abbreviation weights := (get_attention_weights cosine_similarity).

Local Abbreviation masked_energy :=
  (AttentionTerms.masked_energy cosine_similarity).

Section OneBatchElement.

Variables (htilde_t : tensor2) (h : tensor3) (F_lens : list nat).
Variables (M m : nat).
Hypothesis htilde_shape : length htilde_t = M.
Hypothesis h_shape : Forall (fun h_s => length h_s = M) h.
Hypothesis F_lens_shape : length F_lens = M.
Hypothesis m_in_batch : m < M.

Let S := length h.
Let masked : list (list ext) :=
  masked_fill (get_energy_scores cosine_similarity htilde_t h)
              (pad_mask S F_lens).

Lemma energies_shape :
  shape2 S M (get_energy_scores cosine_similarity htilde_t h).
Proof using htilde_shape h_shape.
  clear masked m m_in_batch F_lens_shape.
  unfold get_energy_scores. split; [apply length_map |].
  apply Forall_map. eapply Forall_impl; [| exact h_shape].
  intros h_s Hs. cbv beta in *. rewrite length_map2. lia.
Qed.

Lemma pad_mask_shape : shape2 S M (pad_mask S F_lens).
Proof using F_lens_shape.
  clear masked m m_in_batch htilde_shape h_shape.
  unfold pad_mask. split; [rewrite length_map, length_seq; reflexivity |].
  apply Forall_map, Forall_forall. intros s _. rewrite length_map.
  assumption.
Qed.

Lemma masked_shape : shape2 S M masked.
Proof using htilde_shape h_shape F_lens_shape.
  clear m m_in_batch.
  apply shape2_map2; [apply energies_shape | apply pad_mask_shape].
Qed.

Lemma masked_entry (s : nat) :
  s < S ->
  nth m (nth s masked []) NegInf = masked_energy htilde_t h F_lens s m.
Proof.
  intros Hs. destruct energies_shape as [He Fe].
  destruct pad_mask_shape as [Hp Fp].
  unfold masked, masked_fill.
  rewrite (nth_map2 _ _ _ [] [] []) by lia.
  assert (Hrow_e : length (nth s (get_energy_scores cosine_similarity htilde_t h) []) = M)
    by (apply (Forall_nth_default [] Fe); lia).
  assert (Hrow_p : length (nth s (pad_mask S F_lens) []) = M)
    by (apply (Forall_nth_default [] Fp); lia).
  rewrite (nth_map2 _ _ _ 0%R false NegInf) by lia.
  unfold masked_energy, get_energy_scores, pad_mask.
  rewrite (nth_map_default _ _ [] []) by (fold S; lia).
  rewrite (nth_map_default _ _ 0 []) by (rewrite length_seq; lia).
  rewrite seq_nth by lia. simpl.
  rewrite (nth_map_default _ _ 0 false) by lia.
  rewrite (nth_map2 _ _ _ [] [] 0%R);
    [reflexivity | lia |].
  rewrite (Forall_nth_default [] h_shape); fold S; lia.
Qed.

Lemma masked_column :
  column NegInf m masked
  = map (fun s => masked_energy htilde_t h F_lens s m) (seq 0 S).
Proof.
  rewrite column_as_range. destruct masked_shape as [Hlen _]. rewrite Hlen.
  apply map_ext_in. intros s Hs. apply in_seq in Hs.
  apply masked_entry. lia.
Qed.

Lemma weights_shape : shape2 S M (weights htilde_t h F_lens).
Proof using htilde_shape h_shape F_lens_shape.
  clear m m_in_batch.
  destruct masked_shape as [Hlen Hrows].
  unfold get_attention_weights, softmax0. fold S. fold masked.
  split; [rewrite !length_map; assumption |].
  rewrite map_map. apply Forall_map.
  destruct (Nat.eq_dec S 0) as [E | N].
  - rewrite E in Hlen. apply length_zero_iff_nil in Hlen.
    rewrite Hlen. constructor.
  - assert (Hz : length (sum0 (map2 Rplus) [] (map (map exp_ext) masked)) = M).
    { apply sum0_rows_length.
      - intros E. apply (f_equal (@length _)) in E.
        rewrite length_map in E. simpl in E. lia.
      - apply Forall_map. eapply Forall_impl; [| exact Hrows].
        intros row Hrow. cbv beta in *. rewrite length_map. assumption. }
    eapply Forall_impl; [| exact Hrows].
    intros row Hrow. cbv beta in *. rewrite length_map2, length_map. lia.
Qed.

(** Column [m] of the weights is the softmax of column [m] of the
    masked energies. *)
Lemma weights_column :
  1 <= S ->
  column 0%R m (weights htilde_t h F_lens)
  = map (fun x => exp_ext x / Rsum (map exp_ext (column NegInf m masked)))%R
        (column NegInf m masked).
Proof.
  intros HS. destruct masked_shape as [Hlen Hrows].
  unfold get_attention_weights, softmax0. fold S. fold masked.
  set (ex := map (map exp_ext) masked).
  assert (Hex : Forall (fun row => length row = M) ex).
  { apply Forall_map. eapply Forall_impl; [| exact Hrows].
    intros row Hrow. cbv beta in *. rewrite length_map. assumption. }
  assert (Hne : ex <> []).
  { intros E. apply (f_equal (@length _)) in E.
    unfold ex in E. rewrite length_map in E. simpl in E. lia. }
  destruct (sum0_rows Hne Hex m_in_batch) as [Hz Hzm].
  assert (Hcol : column 0%R m ex = map exp_ext (column NegInf m masked)).
  { unfold column, ex. rewrite !map_map. apply map_ext. intros row.
    change 0%R with (exp_ext NegInf). apply map_nth. }
  rewrite <- Hcol, <- Hzm.
  set (zs := sum0 (map2 Rplus) [] ex) in *.
  unfold column, ex. rewrite !map_map.
  apply map_ext_in. intros row Hin.
  rewrite Forall_forall in Hrows. specialize (Hrows row Hin).
  rewrite (nth_map2 _ _ _ 0%R 0%R 0%R) by (rewrite ?length_map; lia).
  f_equal. change 0%R with (exp_ext NegInf). apply map_nth.
Qed.

End OneBatchElement.

(** C3.  For a batch element [m] whose source length lies between 1
    and [S], the weights returned by [get_attention_weights] form, along
    the source axis, the softmax of the energies in which each position
    [s >= F_lens[m]] was set to minus infinity: those positions have
    weight exactly 0, and the weights of the positions [s < F_lens[m]]
    sum to 1. *)
Theorem padding_positions_get_zero_weight
    (htilde_t : tensor2) (h : tensor3) (F_lens : list nat) (M m : nat) :
  length htilde_t = M ->
  Forall (fun h_s => length h_s = M) h ->
  length F_lens = M ->
  m < M ->
  1 <= nth m F_lens 0 <= length h ->
  let S := length h in
  let alpha_t := weights htilde_t h F_lens in
  let e := fun s => masked_energy htilde_t h F_lens s m in
  let weight := fun s => nth m (nth s alpha_t []) 0%R in
  shape2 S M alpha_t /\
  (forall s, s < S ->
     weight s
     = (exp_ext (e s) / Rsum (map (fun s' => exp_ext (e s')) (seq 0 S)))%R) /\
  (forall s, nth m F_lens 0 <= s -> s < S ->
     e s = NegInf /\ weight s = 0%R) /\
  Rsum (map weight (seq 0 (nth m F_lens 0))) = 1%R.
Proof.
  intros Hh Hs HF Hm Hlen S alpha_t e weight.
  assert (Hshape : shape2 S M alpha_t)
    by (apply weights_shape; assumption).
  assert (Hcol := @weights_column htilde_t h F_lens M m Hh Hs HF Hm).
  rewrite (@masked_column htilde_t h F_lens M m Hh Hs HF Hm) in Hcol.
  fold S alpha_t e in Hcol.
  set (c := map e (seq 0 S)) in *.
  set (z := Rsum (map exp_ext c)) in *.
  assert (Hc : forall s, s < S -> nth s c NegInf = e s).
  { intros s Hlt. unfold c.
    rewrite (nth_map_default _ _ 0 NegInf) by (rewrite length_seq; lia).
    rewrite seq_nth by lia. reflexivity. }
  assert (Hw : forall s, s < S -> weight s = (exp_ext (e s) / z)%R).
  { intros s Hlt. unfold weight.
    transitivity (nth s (column 0%R m alpha_t) 0%R).
    - unfold column.
      rewrite (nth_map_default _ _ [] 0%R); [reflexivity |].
      destruct Hshape as [E _]. lia.
    - rewrite Hcol by lia.
      rewrite (nth_map_default _ _ NegInf 0%R)
        by (unfold c; rewrite length_map, length_seq; lia).
      rewrite Hc by assumption. reflexivity. }
  assert (Hpad : forall s, nth m F_lens 0 <= s -> e s = NegInf).
  { intros s Hle. unfold e, masked_energy.
    destruct (Nat.leb_spec (nth m F_lens 0) s); [reflexivity | lia]. }
  split; [assumption |]. split; [| split].
  - intros s Hlt. rewrite (Hw s Hlt). unfold z, c. rewrite map_map.
    reflexivity.
  - intros s Hle Hlt. split; [apply Hpad; assumption |].
    rewrite (Hw s Hlt), (Hpad s Hle). simpl. unfold Rdiv. ring.
  - replace (map weight (seq 0 (nth m F_lens 0)))
      with (firstn (nth m F_lens 0) (map (fun x => exp_ext x / z)%R c)).
    + apply masked_softmax_column.
      * unfold c. rewrite length_map, length_seq. fold S. lia.
      * intros s Hlt. rewrite Hc by (fold S in Hlen; lia).
        unfold e, masked_energy.
        destruct (Nat.leb_spec (nth m F_lens 0) s); [lia |].
        eexists. reflexivity.
      * intros s Hle. destruct (Nat.lt_ge_cases s S) as [Hlt | Hge].
        -- rewrite Hc by assumption. apply Hpad. assumption.
        -- apply nth_overflow. unfold c. rewrite length_map, length_seq.
           assumption.
    + unfold c. rewrite map_map, firstn_map, firstn_range.
      replace (Nat.min (nth m F_lens 0) S) with (nth m F_lens 0)
        by (fold S in Hlen; lia).
      apply map_ext_in. intros s Hin. apply in_seq in Hin.
      symmetry. apply Hw. fold S in Hlen. lia.
Qed.

(** *** Multi-head attention with one head *)

(** The context vector has the shape (M, 2H), the source axis being
    summed out. *)
Lemma attend_shape (c : cell) (htilde_t : hidden_state c) (h : tensor3)
    (F_lens : list nat) (S M H : nat) :
  shape2 M H (recurrent_part c htilde_t) ->
  shape3 S M H h ->
  length F_lens = M ->
  shape2 M H (attend cosine_similarity c htilde_t h F_lens).
Proof.
  intros Hq [HS Hh] HF. unfold attend.
  set (q := recurrent_part c htilde_t) in *.
  assert (Hh_len : Forall (fun h_s => length h_s = M) h).
  { eapply Forall_impl; [| exact Hh]. intros h_s [E _]. exact E. }
  assert (Hq_len : length q = M) by apply Hq.
  destruct (@weights_shape q h F_lens M Hq_len Hh_len HF) as [Ha Hrows].
  apply sum0_slices; [apply zeros_like_shape; assumption |].
  unfold weigh.
  apply (Forall_map2 (P := fun row => length row = M) (Q := shape2 M H));
    [| assumption | assumption].
  intros a_s h_s Ha_s [Hh_s1 Hh_s2].
  split; [rewrite length_map2; lia |].
  apply (Forall_map2 (P := fun _ => True) (Q := fun v => length v = H)).
  - intros a v _ Hv. rewrite length_map. assumption.
  - apply Forall_forall. intros; exact I.
  - assumption.
Qed.

Lemma project_query_identity (self : decoder) (x : tensor2) (M : nat) :
  heads self = 1 ->
  (forall v, Wtilde self v = v) ->
  shape2 M (hidden_state_size self) x ->
  project_query self x = Val x.
Proof.
  intros Hheads Hid Hx. unfold project_query, head_size.
  rewrite Hheads. change (1 =? 0) with false. cbv iota. rewrite bind_Val.
  rewrite Nat.div_1_r, Nat.mul_1_r.
  rewrite (map_ext _ (fun v => v) Hid), map_id.
  destruct Hx as [Hlen Hrows]. rewrite Hlen.
  apply view2_flatten2. split; assumption.
Qed.

Lemma multihead_query_identity (self : decoder)
    (htilde_t : hidden_state (cell_type self)) (M : nat) :
  heads self = 1 ->
  (forall v, Wtilde self v = v) ->
  shape2 M (hidden_state_size self) (recurrent_part (cell_type self) htilde_t) ->
  multihead_query self htilde_t = Val htilde_t.
Proof.
  intros Hheads Hid. unfold multihead_query.
  assert (Hp : forall x, shape2 M (hidden_state_size self) x ->
                         project_query self x = Val x).
  { intros x Hx. apply (@project_query_identity self x M Hheads Hid Hx). }
  revert htilde_t. generalize (cell_type self).
  intros c htilde_t Hx. destruct c; simpl in Hx.
  - rewrite (Hp _ Hx), bind_Val. destruct htilde_t; reflexivity.
  - apply Hp, Hx.
  - apply Hp, Hx.
Qed.

(** C8.  With one head and the three projections the identity,
    [DecoderWithMultiHeadAttention.attend] returns the context vector of
    [DecoderWithAttention.attend], for a hidden state of either form
    (an LSTM pair included) of shape (M, 2H), encoder states of shape
    (S, M, 2H) and M source lengths, whatever their values. *)
Theorem one_head_identity_is_single_head (self : decoder)
    (htilde_t : hidden_state (cell_type self)) (h : tensor3)
    (F_lens : list nat) (S M : nat) :
  heads self = 1 ->
  (forall v, W self v = v) ->
  (forall v, Wtilde self v = v) ->
  (forall v, Q self v = v) ->
  shape2 M (hidden_state_size self) (recurrent_part (cell_type self) htilde_t) ->
  shape3 S M (hidden_state_size self) h ->
  length F_lens = M ->
  multihead_attend cosine_similarity self htilde_t h F_lens
  = Val (attend cosine_similarity (cell_type self) htilde_t h F_lens).
Proof.
  intros Hheads HW HWt HQ Hq Hh HF.
  assert (Hout := attend_shape (cell_type self) htilde_t F_lens Hq Hh HF).
  unfold multihead_attend.
  rewrite (multihead_query_identity self htilde_t Hheads HWt Hq), bind_Val.
  unfold head_size. rewrite Hheads. change (1 =? 0) with false. cbv iota.
  rewrite bind_Val, Nat.div_1_r, Nat.mul_1_r.
  assert (HWh : map (map (W self)) h = h).
  { rewrite <- (map_id h) at 2. apply map_ext. intros h_s.
    rewrite (map_ext _ (fun v => v) HW). apply map_id. }
  rewrite HWh. destruct Hq as [Hq_len Hq_rows]. destruct Hh as [Hh_len Hh_rows].
  rewrite Hq_len, Hh_len.
  rewrite view3_flatten3 by (split; assumption). rewrite bind_Val.
  rewrite repeat_interleave_once.
  rewrite view2_flatten2.
  - rewrite bind_Val, (map_ext _ (fun v => v) HQ), map_id. reflexivity.
  - exact Hout.
Qed.

End WithCosine.

End AttentionSpec.

(** ** Beam search *)

Module BeamFacts.
Import Py PyFacts Torch Shapes TorchFacts Beam.

Lemma nth_error_map2 (A B C : Type) (f : A -> B -> C) (xs : list A)
    (ys : list B) (i : nat) :
  nth_error (map2 f xs ys) i
  = match nth_error xs i, nth_error ys i with
    | Some x, Some y => Some (f x y)
    | _, _ => None
    end.
Proof.
  revert ys i. induction xs as [| x xs IH]; intros [| y ys] [| i]; simpl;
    try reflexivity.
  - destruct (nth_error xs i); reflexivity.
  - apply IH.
Qed.

Lemma nth_error_in_range (A : Type) (l : list A) (i : nat) :
  i < length l -> exists x, nth_error l i = Some x.
Proof.
  intros Hi. destruct (nth_error l i) as [x |] eqn:E; [eauto |].
  apply nth_error_None in E. lia.
Qed.

(** Element [v] of block [k] of a concatenation of blocks of [V]
    elements sits at the flat index [k * V + v]. *)
Lemma block_entry (A : Type) (V : nat) (bs : list (list A)) (k v : nat)
    (b : list A) :
  Forall (fun blk => length blk = V) bs ->
  nth_error bs k = Some b -> v < V ->
  nth_error (concat bs) (k * V + v) = nth_error b v.
Proof.
  intros HF. revert k.
  induction HF as [| blk bs Hblk _ IH]; intros k Hk Hv;
    [destruct k; discriminate |].
  destruct k as [| k]; simpl in *.
  - injection Hk as ->. apply nth_error_app1. lia.
  - rewrite nth_error_app2 by lia.
    replace (V + k * V + v - length blk) with (k * V + v) by lia.
    apply IH; assumption.
Qed.

Lemma mapM_Forall2 (A B : Type) (f : A -> result B) (P : A -> B -> Prop)
    (xs : list A) :
  Forall (fun x => exists y, f x = Val y /\ P x y) xs ->
  exists ys, mapM f xs = Val ys /\ Forall2 P xs ys.
Proof.
  induction 1 as [| x xs [y [Hy HP]] _ [ys [Hys HF]]]; simpl.
  - exists []. split; [reflexivity | constructor].
  - exists (y :: ys). rewrite Hy, bind_Val, Hys, bind_Val.
    split; [reflexivity | constructor; assumption].
Qed.

Lemma map2M_values (A B C : Type) (f : A -> B -> result C) (g : A -> B -> C)
    (xs : list A) (ys : list B) :
  (forall x y, In x xs -> In y ys -> f x y = Val (g x y)) ->
  map2M f xs ys = Val (map2 g xs ys).
Proof.
  revert ys. induction xs as [| x xs IH]; intros [| y ys] H; simpl;
    try reflexivity.
  rewrite H by (left; reflexivity). rewrite bind_Val.
  rewrite IH by (intros; apply H; right; assumption).
  reflexivity.
Qed.

Lemma Forall2_nth_default (A B : Type) (P : A -> B -> Prop) (xs : list A)
    (ys : list B) (i : nat) (a : A) (b : B) :
  Forall2 P xs ys -> i < length xs -> P (nth i xs a) (nth i ys b).
Proof.
  intros HF. revert i.
  induction HF as [| x y xs ys Hxy _ IH]; intros i Hi; simpl in Hi; [lia |].
  destruct i as [| i]; simpl; [assumption | apply IH; lia].
Qed.

Lemma gather_row_reindex (A : Type) (d : A) (input : list A)
    (index : list nat) :
  Forall (fun j => j < length input) index ->
  gather_row input index = Val (reindex d input index).
Proof.
  intros HF. unfold gather_row, reindex. apply mapM_values.
  intros j Hj. rewrite Forall_forall in HF.
  rewrite (nth_error_nth_default _ d (HF j Hj)). reflexivity.
Qed.

Lemma gather_slice (A : Type) (d : A) (M K : nat) (t : list (list A))
    (paths : list (list nat)) :
  shape2 M K t -> fits M K paths ->
  map2M gather_row t paths = Val (map2 (reindex d) t paths).
Proof.
  intros [_ Ht] [_ Hp]. apply map2M_values.
  intros row p Hrow Hin. apply gather_row_reindex.
  rewrite Forall_forall in Ht, Hp. rewrite (Ht row Hrow).
  apply Hp. assumption.
Qed.

Lemma gather_slice_shape (A : Type) (d : A) (M K : nat) (t : list (list A))
    (paths : list (list nat)) :
  shape2 M K t -> fits M K paths -> shape2 M K (map2 (reindex d) t paths).
Proof.
  intros [Ht _] [[Hp Hrows] _]. split; [rewrite length_map2; lia |].
  apply (Forall_map2 (P := fun _ => True) (Q := fun p => length p = K)).
  - intros row p _ Hlen. unfold reindex. rewrite length_map. assumption.
  - apply Forall_forall. intros; exact I.
  - assumption.
Qed.

Lemma gather_slice_entry (A : Type) (d : A) (M K : nat) (t : list (list A))
    (paths : list (list nat)) (m k : nat) :
  shape2 M K t -> fits M K paths -> m < M -> k < K ->
  nth k (nth m (map2 (reindex d) t paths) []) d
  = nth (nth k (nth m paths []) 0) (nth m t []) d.
Proof.
  intros [Ht _] [[Hp Hrows] _] Hm Hk.
  rewrite (nth_map2 _ _ _ [] [] []) by lia.
  unfold reindex.
  rewrite (nth_map_default _ _ 0 d); [reflexivity |].
  rewrite (Forall_nth_default [] Hrows); lia.
Qed.

End BeamFacts.

Module BeamSpec.
Import Py PyFacts Torch Shapes TorchFacts Beam BeamTerms BeamFacts.

Section WithScores.

Variable score : Type.
Variable add : score -> score -> score.
Variable leb : score -> score -> bool.
Variable topk : nat -> list score -> result (list score * list nat).

Local Abbreviation selected := (BeamTerms.selected leb).
Local Abbreviation topk_contract := (BeamTerms.topk_contract leb topk).
Local Abbreviation candidate := (BeamTerms.candidate add).

Lemma extensions_flat_rows (logpb_tm1 : list (list score))
    (logpy_t : list (list (list score))) :
  extensions_flat add logpb_tm1 logpy_t
  = map (@concat score)
        (map2 (map2 (fun lp dist => map (add lp) dist)) logpb_tm1 logpy_t).
Proof.
  unfold extensions_flat, squeeze1.
  destruct (forallb _ _); reflexivity.
Qed.

Section Shaped.

Variables (M K V : nat).
Variable logpb_tm1 : list (list score).
Variable logpy_t : list (list (list score)).
Hypothesis logpb_shape' : shape2 M K logpb_tm1.
Hypothesis logpy_shape' : shape3 M K V logpy_t.

Let flat := extensions_flat add logpb_tm1 logpy_t.

Lemma flat_row (m : nat) :
  m < M ->
  nth m flat []
  = concat (map2 (fun lp dist => map (add lp) dist)
                 (nth m logpb_tm1 []) (nth m logpy_t [])).
Proof using logpb_shape' logpy_shape'.
  intros Hm. destruct logpb_shape' as [Hb _]. destruct logpy_shape' as [Hy _].
  unfold flat. rewrite extensions_flat_rows.
  rewrite (nth_map_default _ _ [] []) by (rewrite length_map2; lia).
  rewrite (nth_map2 _ _ _ [] [] []) by lia. reflexivity.
Qed.

Lemma blocks_shape (m : nat) :
  m < M ->
  shape2 K V (map2 (fun lp dist => map (add lp) dist)
                   (nth m logpb_tm1 []) (nth m logpy_t [])).
Proof using logpb_shape' logpy_shape'.
  intros Hm. destruct logpb_shape' as [Hb Hbrows].
  destruct logpy_shape' as [Hy Hyrows].
  assert (Hlp : length (nth m logpb_tm1 []) = K)
    by (apply (Forall_nth_default [] Hbrows); lia).
  assert (Hd : shape2 K V (nth m logpy_t []))
    by (apply (Forall_nth_default [] Hyrows); lia).
  destruct Hd as [Hd1 Hd2]. split; [rewrite length_map2; lia |].
  apply (Forall_map2 (P := fun _ => True) (Q := fun d => length d = V)).
  - intros lp d _ Hlen. rewrite length_map. assumption.
  - apply Forall_forall. intros; exact I.
  - assumption.
Qed.

Lemma flat_row_length (m : nat) : m < M -> length (nth m flat []) = K * V.
Proof using logpb_shape' logpy_shape'.
  intros Hm. rewrite flat_row by assumption.
  apply length_concat_shape, blocks_shape. assumption.
Qed.

Lemma flat_shape : shape2 M (K * V) flat.
Proof using logpb_shape' logpy_shape'.
  assert (Hlen : length flat = M).
  { destruct logpb_shape' as [Hb _]. destruct logpy_shape' as [Hy _].
    unfold flat. rewrite extensions_flat_rows, length_map, length_map2. lia. }
  split; [assumption |].
  apply Forall_forall. intros row Hin.
  apply (In_nth _ _ []) in Hin. destruct Hin as [m [Hm Hrow]].
  rewrite <- Hrow. apply flat_row_length. lia.
Qed.

(** Entry [k * V + v] of the flattened candidates of [m] is the score
    of hypothesis [k] extended by token [v]. *)
Lemma flat_entry (m k v : nat) :
  m < M -> k < K -> v < V ->
  exists c, candidate logpb_tm1 logpy_t m k v = Some c /\
            nth_error (nth m flat []) (k * V + v) = Some c.
Proof using logpb_shape' logpy_shape'.
  intros Hm Hk Hv. destruct (blocks_shape Hm) as [Hlen Hblocks].
  destruct logpb_shape' as [Hb Hbrows]. destruct logpy_shape' as [Hy Hyrows].
  assert (Hlp : length (nth m logpb_tm1 []) = K)
    by (apply (Forall_nth_default [] Hbrows); lia).
  assert (Hd : shape2 K V (nth m logpy_t []))
    by (apply (Forall_nth_default [] Hyrows); lia).
  destruct Hd as [Hd1 Hd2].
  destruct (@nth_error_in_range _ (nth m logpb_tm1 []) k) as [p Hp]; [lia |].
  destruct (@nth_error_in_range _ (nth m logpy_t []) k) as [d Hdk]; [lia |].
  assert (Hdlen : length d = V).
  { rewrite Forall_forall in Hd2. apply Hd2.
    apply (nth_error_In _ _ Hdk). }
  destruct (@nth_error_in_range _ d v) as [x Hx]; [lia |].
  exists (add p x). split.
  - unfold candidate, at2, at3. rewrite Hp.
    rewrite (nth_error_nth _ _ [] Hdk), Hx. reflexivity.
  - rewrite flat_row by assumption.
    rewrite (@block_entry _ V _ k v (map (add p) d) Hblocks); [| | assumption].
    + rewrite nth_error_map, Hx. reflexivity.
    + rewrite nth_error_map2, Hp, Hdk. reflexivity.
Qed.

End Shaped.

(** A flat index below [K * V] splits into a hypothesis and a token. *)
Lemma flat_index_split (K V i : nat) :
  i < K * V ->
  i / V < K /\ i mod V < V /\ i = (i / V) * V + i mod V.
Proof.
  intros Hi. assert (HV : V <> 0) by (intros E; subst V; lia).
  split; [| split].
  - apply Nat.Div0.div_lt_upper_bound. lia.
  - apply Nat.mod_upper_bound. assumption.
  - rewrite (Nat.div_mod_eq i V) at 1. lia.
Qed.

(** [torch.topk] along dimension 1 returns for every row. *)
Lemma select_rows (self : model) (flat : list (list score)) (K : nat) :
  topk_contract ->
  beam_width self = K ->
  Forall (fun row => K <= length row) flat ->
  exists sel,
    select topk self flat = Val (map fst sel, map snd sel) /\
    Forall2 (fun row vi => selected K row (fst vi) (snd vi)) flat sel.
Proof.
  intros Htopk HK Hrows. unfold select. rewrite HK.
  destruct (@mapM_Forall2 _ _ (topk K)
              (fun row vi => selected K row (fst vi) (snd vi)) flat)
    as [sel [Hsel HF]].
  - eapply Forall_impl; [| exact Hrows].
    intros row Hrow. destruct (Htopk K row Hrow) as [vals [idxs [E Hs]]].
    exists (vals, idxs). split; assumption.
  - exists sel. rewrite Hsel, bind_Val. split; [reflexivity | assumption].
Qed.

Lemma selected_in_range (k : nat) (xs vals : list score) (idxs : list nat) :
  selected k xs vals idxs ->
  length vals = k /\ Forall (fun i => i < length xs) idxs.
Proof.
  intros [Hlen [_ [HF _]]]. split.
  - rewrite (Forall2_length HF). assumption.
  - clear Hlen. induction HF as [| v i vals idxs Hvi _ IH]; constructor;
      [| assumption].
    apply nth_error_Some. rewrite Hvi. discriminate.
Qed.

(** The recovered path indices select among the K hypotheses. *)
Lemma paths_fit (self : model) (M K V : nat) (flat : list (list score))
    (sel : list (list score * list nat)) :
  target_vocab_size self = V ->
  shape2 M (K * V) flat ->
  Forall2 (fun row vi => selected K row (fst vi) (snd vi)) flat sel ->
  fits M K (paths_of self (map snd sel)) /\
  shape2 M K (tokens_of self (map snd sel)) /\
  shape2 M K (map fst sel).
Proof.
  intros HV [Hlen Hrows] HF.
  assert (Hsel : length sel = M) by (rewrite <- (Forall2_length HF); assumption).
  assert (Hall : Forall (fun vi => length (fst vi) = K /\ length (snd vi) = K /\
                                   Forall (fun i => i < K * V) (snd vi)) sel).
  { clear Hlen Hsel. induction HF as [| row vi flat sel Hs _ IH]; [constructor |].
    apply Forall_cons_iff in Hrows. destruct Hrows as [Hrow Hrows].
    constructor; [| apply IH; assumption].
    destruct (selected_in_range Hs) as [Hv Hi]. rewrite Hrow in Hi.
    destruct Hs as [Hk _]. auto. }
  unfold fits, paths_of, tokens_of, shape2. rewrite !length_map, HV.
  repeat split; try assumption.
  - rewrite map_map. apply Forall_map. eapply Forall_impl; [| exact Hall].
    intros vi [_ [Hk _]]. cbv beta. rewrite length_map. assumption.
  - rewrite map_map. apply Forall_map. eapply Forall_impl; [| exact Hall].
    intros vi [_ [_ Hi]]. cbv beta. apply Forall_map.
    eapply Forall_impl; [| exact Hi].
    intros i Hlt. apply (flat_index_split K V). assumption.
  - rewrite map_map. apply Forall_map. eapply Forall_impl; [| exact Hall].
    intros vi [_ [Hk _]]. cbv beta. rewrite length_map. assumption.
  - apply Forall_map. eapply Forall_impl; [| exact Hall].
    intros vi [Hv _]. assumption.
Qed.

Lemma gather_history_values (M K : nat) (b : list (list (list nat)))
    (paths : list (list nat)) :
  Forall (shape2 M K) b -> fits M K paths ->
  gather_history b paths
  = Val (map (fun b_i => map2 (reindex 0) b_i paths) b).
Proof.
  intros Hb Hp. unfold gather_history. apply mapM_values.
  intros b_i Hin. rewrite Forall_forall in Hb.
  apply (@gather_slice _ 0 M K); [apply Hb |]; assumption.
Qed.

Lemma rows_of_shape3 (A : Type) (M K H : nat) (t : list (list (list A))) :
  shape3 M K H t -> shape2 M K t.
Proof.
  intros [Hlen Hrows]. split; [assumption |].
  eapply Forall_impl; [| exact Hrows]. intros row [E _]. exact E.
Qed.

Lemma gather_hidden_values (M K H : nat) (t : Attention.tensor3)
    (paths : list (list nat)) :
  shape3 M K H t -> fits M K paths ->
  gather_hidden t paths = Val (map2 (reindex []) t paths).
Proof.
  intros Ht Hp. unfold gather_hidden.
  apply (@gather_slice _ [] M K); [apply (rows_of_shape3 Ht) | assumption].
Qed.

Lemma gather_state_values (c : cell) (M K H : nat) (htilde_t : hidden_state c)
    (paths : list (list nat)) :
  Forall (shape3 M K H) (components c htilde_t) -> fits M K paths ->
  exists b_t_0,
    gather_state c paths htilde_t = Val b_t_0 /\
    components c b_t_0
    = map (fun t => map2 (reindex []) t paths) (components c htilde_t).
Proof.
  intros Hs Hp. destruct c; simpl in *.
  - apply Forall_cons_iff in Hs. destruct Hs as [H0 Hs].
    apply Forall_cons_iff in Hs. destruct Hs as [H1 _].
    rewrite (gather_hidden_values H0 Hp), bind_Val.
    rewrite (gather_hidden_values H1 Hp), bind_Val.
    eexists. split; reflexivity.
  - apply Forall_cons_iff in Hs. destruct Hs as [H0 _].
    rewrite (gather_hidden_values H0 Hp). eexists. split; reflexivity.
  - apply Forall_cons_iff in Hs. destruct Hs as [H0 _].
    rewrite (gather_hidden_values H0 Hp). eexists. split; reflexivity.
Qed.

(** On well-shaped inputs [update_beam] returns: the selection of each
    row, the histories and hidden states re-indexed by the recovered
    paths, and the recovered tokens appended to the histories. *)
Lemma update_beam_returns (self : model) (M K V t H : nat)
    (htilde_t : hidden_state (cell_type self))
    (b_tm1_1 : list (list (list nat)))
    (logpb_tm1 : list (list score)) (logpy_t : list (list (list score))) :
  topk_contract ->
  well_shaped self M K V t H htilde_t b_tm1_1 logpb_tm1 logpy_t ->
  exists sel b_t_0,
    let flat := extensions_flat add logpb_tm1 logpy_t in
    let logpb_t := map fst sel in
    let indices := map snd sel in
    let paths := paths_of self indices in
    select topk self flat = Val (logpb_t, indices) /\
    Forall2 (fun row vi => selected K row (fst vi) (snd vi)) flat sel /\
    fits M K paths /\
    shape2 M K (tokens_of self indices) /\
    shape2 M K logpb_t /\
    components (cell_type self) b_t_0
    = map (fun t => map2 (reindex []) t paths)
          (components (cell_type self) htilde_t) /\
    update_beam add topk self htilde_t b_tm1_1 logpb_tm1 logpy_t
    = Val (b_t_0,
           map (fun b_i => map2 (reindex 0) b_i paths) b_tm1_1
           ++ [tokens_of self indices],
           logpb_t).
Proof.
  intros Htopk [HK HV HV1 Hb Hy Hhist Hhid].
  assert (Hflat := flat_shape Hb Hy).
  destruct (@select_rows self (extensions_flat add logpb_tm1 logpy_t) K
              Htopk HK) as [sel [Hsel HF]].
  { destruct Hflat as [_ Hrows]. eapply Forall_impl; [| exact Hrows].
    intros row Hrow. cbv beta in Hrow. rewrite Hrow. nia. }
  destruct (paths_fit self HV Hflat HF) as [Hfits [Htok Hlp]].
  destruct (gather_state_values _ _ Hhid Hfits) as [b_t_0 [Hgs Hcomp]].
  exists sel, b_t_0. cbv zeta.
  repeat split; try assumption; try apply Hfits; try apply Htok; try apply Hlp.
  unfold update_beam. rewrite Hsel, bind_Val. cbn [fst snd].
  destruct Hhist as [_ Hslices].
  rewrite (gather_history_values Hslices Hfits), bind_Val.
  rewrite Hgs, bind_Val. reflexivity.
Qed.

Lemma Forall2_map_image (A B : Type) (Q : A -> Prop) (P : A -> B -> Prop)
    (F : A -> B) (l : list A) :
  (forall x, Q x -> P x (F x)) -> Forall Q l -> Forall2 P l (map F l).
Proof.
  intros HP. induction 1 as [| x l Hx _ IH]; simpl; constructor; auto.
Qed.

Lemma fits_entry (M K : nat) (paths : list (list nat)) (m k : nat) :
  fits M K paths -> m < M -> k < K -> nth k (nth m paths []) 0 < K.
Proof.
  intros [[Hlen Hrows] Hlt] Hm Hk.
  assert (Hrow : length (nth m paths []) = K)
    by (apply (Forall_nth_default [] Hrows); lia).
  assert (Hall : Forall (fun p => p < K) (nth m paths []))
    by (apply (Forall_nth_default [] Hlt); lia).
  apply (Forall_nth_default 0 Hall). lia.
Qed.

(** Re-indexing an (M, K, H) tensor by fitting paths keeps its shape. *)
Lemma gathered_hidden_shape (M K H : nat) (src : Attention.tensor3)
    (paths : list (list nat)) :
  shape3 M K H src -> fits M K paths ->
  shape3 M K H (map2 (reindex []) src paths).
Proof.
  intros [Hlen Hrows] [[Hp Hprows] Hlt].
  split; [rewrite length_map2; lia |].
  apply (Forall_map2 (P := shape2 K H)
           (Q := fun p => length p = K /\ Forall (fun j => j < K) p)).
  - intros src_m p [Hs1 Hs2] [Hp1 Hp2]. unfold reindex.
    split; [rewrite length_map; assumption |].
    apply Forall_map. eapply Forall_impl; [| exact Hp2].
    intros j Hj. cbv beta in *. apply (Forall_nth_default [] Hs2). lia.
  - assumption.
  - apply Forall_and; assumption.
Qed.

(** C1.  For a batch element [m], [update_beam] flattens the K * V
    sums [logpb_tm1[m][k] + logpy_t[m][k][v]] (the entries of [logpy_t]
    as they come, no normalisation) with the sum for [(k, v)] at index
    [k * V + v]; it returns as [logpb_t[m]] K of them at distinct
    indices, none below a sum left out; and from the index [i] selected
    for a slot [k] it recovers the path [i // V] and the token [i % V],
    the selected score being
    [logpb_tm1[m][i // V] + logpy_t[m][i // V][i % V]]: the token
    appended to the history at [(m, k)] is [i % V], the history before
    it and the hidden state (each component) at [(m, k)] are the
    incoming ones at [(m, i // V)]. *)
Theorem update_beam_selects_best_extensions (self : model) (M K V t H : nat)
    (htilde_t : hidden_state (cell_type self))
    (b_tm1_1 : list (list (list nat)))
    (logpb_tm1 : list (list score)) (logpy_t : list (list (list score)))
    (m : nat) :
  topk_contract ->
  well_shaped self M K V t H htilde_t b_tm1_1 logpb_tm1 logpy_t ->
  m < M ->
  exists b_t_0 b_t_1 logpb_t indices,
    update_beam add topk self htilde_t b_tm1_1 logpb_tm1 logpy_t
    = Val (b_t_0, b_t_1, logpb_t) /\
    select topk self (extensions_flat add logpb_tm1 logpy_t)
    = Val (logpb_t, indices) /\
    let flat_m := nth m (extensions_flat add logpb_tm1 logpy_t) [] in
    let scores := nth m logpb_t [] in
    let idx := nth m indices [] in
    length flat_m = K * V /\
    (forall k v, k < K -> v < V ->
       exists c, candidate logpb_tm1 logpy_t m k v = Some c /\
                 nth_error flat_m (k * V + v) = Some c) /\
    length scores = K /\ length idx = K /\ NoDup idx /\
    Forall2 (fun s i => i / V < K /\ i mod V < V /\
                        candidate logpb_tm1 logpy_t m (i / V) (i mod V) = Some s)
            scores idx /\
    nth m (paths_of self indices) [] = map (fun i => i / V) idx /\
    nth m (tokens_of self indices) [] = map (fun i => i mod V) idx /\
    (forall k v c s, k < K -> v < V ->
       candidate logpb_tm1 logpy_t m k v = Some c ->
       ~ In (k * V + v) idx -> In s scores -> leb c s = true) /\
    length b_t_1 = t + 1 /\
    (forall k, k < K ->
       nth k (nth m (nth t b_t_1 []) []) 0 = nth k idx 0 mod V /\
       forall j, j < t ->
         nth k (nth m (nth j b_t_1 []) []) 0
         = nth (nth k idx 0 / V) (nth m (nth j b_tm1_1 []) []) 0) /\
    Forall2 (fun src out =>
               forall k, k < K ->
                 nth k (nth m out []) []
                 = nth (nth k idx 0 / V) (nth m src []) [])
            (components (cell_type self) htilde_t)
            (components (cell_type self) b_t_0).
Proof.
  intros Htopk Hshape Hm.
  destruct (update_beam_returns Htopk Hshape)
    as [sel [b_t_0 [Hsel [HF [Hfits [_ [_ [Hcomp Hupd]]]]]]]].
  destruct Hshape as [HK HV HV1 Hb Hy [Ht Hslices] Hhid].
  assert (Hentry := fun k v => @flat_entry M K V _ _ Hb Hy m k v Hm).
  assert (Hlen := flat_row_length Hb Hy Hm).
  assert (Hflat : length (extensions_flat add logpb_tm1 logpy_t) = M)
    by (apply (flat_shape Hb Hy)).
  assert (Hrow := @Forall2_nth_default _ _ _ _ _ m [] ([], []) HF).
  rewrite Hflat in Hrow. specialize (Hrow Hm). cbv beta in Hrow.
  set (paths := paths_of self (map snd sel)) in *.
  set (gathered := map (fun b_i => map2 (reindex 0) b_i paths) b_tm1_1) in *.
  assert (Hglen : length gathered = t)
    by (unfold gathered; rewrite length_map; assumption).
  exists b_t_0. eexists. exists (map fst sel), (map snd sel).
  split; [exact Hupd |]. split; [exact Hsel |]. cbv zeta.
  set (flat_m := nth m (extensions_flat add logpb_tm1 logpy_t) []) in *.
  set (vi := nth m sel ([], [])) in *.
  assert (Efst : nth m (map fst sel) [] = fst vi)
    by exact (map_nth fst sel ([], []) m).
  assert (Esnd : nth m (map snd sel) [] = snd vi)
    by exact (map_nth snd sel ([], []) m).
  rewrite Efst, Esnd.
  destruct (selected_in_range Hrow) as [Hscores Hrange].
  destruct Hrow as [Hidx [Hnodup [Hvals Hbest]]].
  assert (Epaths : nth m paths [] = map (fun i => i / V) (snd vi)).
  { unfold paths, paths_of. rewrite HV, <- Esnd.
    exact (map_nth (map (fun i => i / V)) (map snd sel) [] m). }
  assert (Etokens : nth m (tokens_of self (map snd sel)) []
                    = map (fun i => i mod V) (snd vi)).
  { unfold tokens_of. rewrite HV, <- Esnd.
    exact (map_nth (map (fun i => i mod V)) (map snd sel) [] m). }
  assert (Epath : forall k, k < K ->
                    nth k (nth m paths []) 0 = nth k (snd vi) 0 / V).
  { intros k Hk. rewrite Epaths.
    apply (nth_map_default (fun i => i / V) (snd vi) 0 0). lia. }
  split; [assumption |]. split; [exact Hentry |].
  split; [assumption |]. split; [assumption |]. split; [assumption |].
  split; [| split; [exact Epaths |
            split; [exact Etokens | split; [| split; [| split]]]]].
  - eapply Forall2_impl; [| exact Hvals].
    intros s i Hsi. cbv beta in Hsi.
    assert (Hi : i < K * V).
    { rewrite <- Hlen. apply nth_error_Some. fold flat_m. rewrite Hsi.
      discriminate. }
    destruct (flat_index_split K V Hi) as [Hk [Hv Hsplit]].
    destruct (Hentry _ _ Hk Hv) as [c [Hc Hflat_c]].
    rewrite <- Hsplit in Hflat_c. fold flat_m in Hflat_c.
    rewrite Hsi in Hflat_c. injection Hflat_c as <-.
    repeat split; assumption.
  - intros k v c s Hk Hv Hc Hout Hin.
    destruct (Hentry _ _ Hk Hv) as [c' [Hc' Hflat_c]].
    rewrite Hc in Hc'. injection Hc' as <-.
    apply (Hbest (k * V + v)); assumption.
  - rewrite length_app, Hglen. reflexivity.
  - intros k Hk. split.
    + rewrite app_nth2 by lia. rewrite Hglen, Nat.sub_diag.
      change (nth 0 [tokens_of self (map snd sel)] [])
        with (tokens_of self (map snd sel)).
      rewrite Etokens.
      apply (nth_map_default (fun i => i mod V) (snd vi) 0 0). lia.
    + intros j Hj. rewrite app_nth1 by lia. unfold gathered.
      rewrite (nth_map_default _ _ [] []) by lia.
      rewrite (@gather_slice_entry _ 0 M K); try assumption.
      * rewrite (Epath k Hk). reflexivity.
      * apply (Forall_nth_default [] Hslices). lia.
  - rewrite Hcomp. apply (Forall2_map_image (Q := shape3 M K H));
      [| assumption].
    intros src Hsrc k Hk.
    rewrite (@gather_slice_entry _ [] M K); try assumption.
    + rewrite (Epath k Hk). reflexivity.
    + apply (rows_of_shape3 Hsrc).
Qed.

(** C2.  [update_beam] returns K hypotheses for each of the M batch
    elements: K scores, histories of length [t + 1] and K hidden
    vectors.  The first [t] tokens of the history at slot [(m, k)] are
    those of the history at [(m, paths[m][k])], the path recovered for
    the slot, and the last one is the recovered token; the hidden vector
    at [(m, k)] is the incoming one at [(m, paths[m][k])], for each
    component of the hidden state (both of an LSTM pair). *)
Theorem update_beam_gathers_by_path (self : model) (M K V t H : nat)
    (htilde_t : hidden_state (cell_type self))
    (b_tm1_1 : list (list (list nat)))
    (logpb_tm1 : list (list score)) (logpy_t : list (list (list score))) :
  topk_contract ->
  well_shaped self M K V t H htilde_t b_tm1_1 logpb_tm1 logpy_t ->
  exists b_t_0 b_t_1 logpb_t indices,
    update_beam add topk self htilde_t b_tm1_1 logpb_tm1 logpy_t
    = Val (b_t_0, b_t_1, logpb_t) /\
    select topk self (extensions_flat add logpb_tm1 logpy_t)
    = Val (logpb_t, indices) /\
    let paths := paths_of self indices in
    let tokens := tokens_of self indices in
    let path := fun m k => nth k (nth m paths []) 0 in
    let token_at := fun (b : list (list (list nat))) i m k =>
                      nth k (nth m (nth i b []) []) 0 in
    beam_width self = K /\
    shape2 M K logpb_t /\
    shape2 M K paths /\
    (forall m k, m < M -> k < K -> path m k < K) /\
    shape3 (t + 1) M K b_t_1 /\
    (forall i m k, i < t -> m < M -> k < K ->
       token_at b_t_1 i m k = token_at b_tm1_1 i m (path m k)) /\
    (forall m k, m < M -> k < K ->
       token_at b_t_1 t m k = nth k (nth m tokens []) 0) /\
    Forall2 (fun src out =>
               shape3 M K H out /\
               forall m k, m < M -> k < K ->
                 nth k (nth m out []) [] = nth (path m k) (nth m src []) [])
            (components (cell_type self) htilde_t)
            (components (cell_type self) b_t_0).
Proof.
  intros Htopk Hshape.
  destruct (update_beam_returns Htopk Hshape)
    as [sel [b_t_0 [Hsel [_ [Hfits [Htok [Hlp [Hcomp Hupd]]]]]]]].
  destruct Hshape as [HK HV HV1 Hb Hy [Ht Hslices] Hhid].
  set (paths := paths_of self (map snd sel)) in *.
  set (gathered := map (fun b_i => map2 (reindex 0) b_i paths) b_tm1_1) in *.
  assert (Hglen : length gathered = t)
    by (unfold gathered; rewrite length_map; assumption).
  exists b_t_0. eexists. exists (map fst sel), (map snd sel).
  split; [exact Hupd |]. split; [exact Hsel |]. cbv zeta. fold paths.
  split; [assumption |]. split; [assumption |].
  split; [apply Hfits |].
  split; [intros m k; apply fits_entry; assumption |].
  split; [| split; [| split]].
  - split; [rewrite length_app, Hglen; reflexivity |].
    apply Forall_app. split; [| constructor; [assumption | constructor]].
    unfold gathered. apply Forall_map.
    eapply Forall_impl; [| exact Hslices].
    intros b_i Hb_i. apply gather_slice_shape; assumption.
  - intros i m k Hi Hm Hk.
    rewrite app_nth1 by lia. unfold gathered.
    rewrite (nth_map_default _ _ [] []) by lia.
    apply (@gather_slice_entry _ 0 M K); try assumption.
    apply (Forall_nth_default [] Hslices). lia.
  - intros m k Hm Hk.
    rewrite app_nth2 by lia. rewrite Hglen, Nat.sub_diag. reflexivity.
  - rewrite Hcomp. apply (Forall2_map_image (Q := shape3 M K H)); [| assumption].
    intros src Hsrc. split; [apply gathered_hidden_shape; assumption |].
    intros m k Hm Hk.
    apply (@gather_slice_entry _ [] M K); try assumption.
    apply (rows_of_shape3 Hsrc).
Qed.

End WithScores.

End BeamSpec.

(** ** A selection primitive that meets the contract of torch.topk *)

Module SelectionFacts.
Import Py PyFacts Torch Shapes TorchFacts Beam BeamTerms BeamFacts BeamSpec.

Section Selection.

Variable score : Type.
Variable leb : score -> score -> bool.
Hypothesis leb_total : forall x y, leb x y = true \/ leb y x = true.
Hypothesis leb_trans :
  forall x y z, leb x y = true -> leb y z = true -> leb x z = true.

Local Abbreviation before := (BeamTerms.before leb).

Lemma insert_desc_perm (p : score * nat) (l : list (score * nat)) :
  Permutation (p :: l) (insert_desc leb p l).
Proof.
  induction l as [| q l IH]; simpl; [apply Permutation_refl |].
  destruct (leb (fst q) (fst p)); [apply Permutation_refl |].
  apply (perm_trans (perm_swap q p l)). apply perm_skip. assumption.
Qed.

Lemma sort_desc_perm (l : list (score * nat)) :
  Permutation l (sort_desc leb l).
Proof.
  unfold sort_desc. induction l as [| p l IH]; simpl; [constructor |].
  apply (perm_trans (perm_skip p IH)). apply insert_desc_perm.
Qed.

Lemma insert_desc_sorted (p : score * nat) (l : list (score * nat)) :
  StronglySorted before l -> StronglySorted before (insert_desc leb p l).
Proof using leb_total leb_trans.
  induction 1 as [| q l Hl IH Hq]; simpl.
  - constructor; constructor.
  - destruct (leb (fst q) (fst p)) eqn:E.
    + constructor; [constructor; assumption |].
      constructor; [exact E |].
      eapply Forall_impl; [| exact Hq].
      intros r Hr. unfold before in *. apply (leb_trans Hr E).
    + constructor; [assumption |].
      apply (Permutation_Forall (insert_desc_perm p l)).
      constructor; [| assumption].
      unfold before. destruct (leb_total (fst p) (fst q)) as [H | H];
        [assumption | congruence].
Qed.

Lemma sort_desc_sorted (l : list (score * nat)) :
  StronglySorted before (sort_desc leb l).
Proof using leb_total leb_trans.
  unfold sort_desc. induction l as [| p l IH]; simpl; [constructor |].
  apply insert_desc_sorted. assumption.
Qed.

Lemma sorted_app_before (l1 l2 : list (score * nat)) (p q : score * nat) :
  StronglySorted before (l1 ++ l2) -> In p l1 -> In q l2 -> before p q.
Proof.
  induction l1 as [| a l1 IH]; simpl; intros Hs Hp Hq; [contradiction |].
  inversion Hs as [| ? ? Hrest Hall]; subst.
  destruct Hp as [-> | Hp]; [| apply IH; assumption].
  rewrite Forall_forall in Hall. apply Hall, in_or_app. right. assumption.
Qed.

Lemma In_combine_range (xs : list score) (a i : nat) (v : score) :
  In (v, i) (combine xs (seq a (length xs)))
  <-> a <= i /\ nth_error xs (i - a) = Some v.
Proof.
  revert a. induction xs as [| x xs IH]; intros a; simpl.
  - split; [contradiction |]. intros [_ H]. destruct (i - a); discriminate.
  - rewrite IH. split.
    + intros [E | [Hle Hn]].
      * injection E as -> ->. rewrite Nat.sub_diag. auto.
      * split; [lia |]. replace (i - a) with (S (i - S a)) by lia. exact Hn.
    + intros [Hle Hn]. destruct (Nat.eq_dec i a) as [-> | Hne].
      * rewrite Nat.sub_diag in Hn. simpl in Hn. injection Hn as ->. auto.
      * right. split; [lia |].
        replace (i - a) with (S (i - S a)) in Hn by lia. exact Hn.
Qed.

Lemma map_snd_combine_range (xs : list score) (a : nat) :
  map snd (combine xs (seq a (length xs))) = seq a (length xs).
Proof.
  revert a. induction xs as [| x xs IH]; intros a; simpl; [reflexivity |].
  rewrite IH. reflexivity.
Qed.

Lemma Forall2_fst_snd (P : score -> nat -> Prop) (l : list (score * nat)) :
  Forall (fun p => P (fst p) (snd p)) l -> Forall2 P (map fst l) (map snd l).
Proof. induction 1; simpl; constructor; assumption. Qed.

(** Sorting the entries with their positions by decreasing value and
    keeping the first [k] meets the contract. *)
Lemma topk_sorted_contract : topk_contract leb (topk_sorted leb).
Proof using leb_total leb_trans.
  intros k xs Hk. unfold topk_sorted.
  destruct (Nat.leb_spec k (length xs)) as [_ | Hlt]; [| lia].
  set (pairs := combine xs (seq 0 (length xs))).
  set (s := sort_desc leb pairs).
  assert (Hperm : Permutation pairs s) by apply sort_desc_perm.
  assert (Hsorted : StronglySorted before s) by apply sort_desc_sorted.
  assert (Hlen : length s = length xs).
  { rewrite <- (Permutation_length Hperm). unfold pairs.
    rewrite length_combine, length_seq. lia. }
  assert (Hin : forall v i, In (v, i) s <-> nth_error xs i = Some v).
  { intros v i. split.
    - intros H. apply (Permutation_in _ (Permutation_sym Hperm)) in H.
      apply In_combine_range in H. rewrite Nat.sub_0_r in H. apply H.
    - intros H. apply (Permutation_in _ Hperm).
      apply In_combine_range. rewrite Nat.sub_0_r. split; [lia | exact H]. }
  assert (Hnodup : NoDup (map snd s)).
  { apply (Permutation_NoDup (Permutation_map snd Hperm)).
    unfold pairs. rewrite map_snd_combine_range. apply seq_NoDup. }
  rewrite <- (firstn_skipn k s) in Hsorted, Hnodup.
  set (pre := firstn k s) in *.
  exists (map fst pre), (map snd pre). split; [reflexivity |].
  repeat split.
  - rewrite length_map. unfold pre. rewrite length_firstn. lia.
  - rewrite map_app in Hnodup. apply (NoDup_app_remove_r _ _ Hnodup).
  - apply Forall2_fst_snd, Forall_forall. intros [v i] Hp. simpl.
    apply Hin. rewrite <- (firstn_skipn k s). apply in_or_app. left. exact Hp.
  - intros j x v Hx Hout Hv.
    apply in_map_iff in Hv. destruct Hv as [[v' i] [E Hp]]. simpl in E. subst v'.
    assert (Hq : In (x, j) (skipn k s)).
    { apply Hin in Hx. rewrite <- (firstn_skipn k s) in Hx.
      apply in_app_or in Hx. destruct Hx as [Hx | Hx]; [| exact Hx].
      exfalso. apply Hout. apply in_map_iff. exists (x, j). auto. }
    apply (sorted_app_before _ _ (v, i) (x, j) Hsorted Hp Hq).
Qed.

End Selection.

End SelectionFacts.

(** * The theorems at concrete inputs *)

Module Instances.
Import Py PyFacts Shapes Examples.
Import Bleu BleuTerms BleuFacts BleuSpec.
Import Torch TorchFacts Attention AttentionTerms AttentionSpec.

Lemma BLEU_score_penalised_root_at_ids :
  1 <= 2 /\
  exists (bp : R) (ps : list R) (root : R),
    brevity_penalty reference_ids candidate_ids = Val bp /\
    length ps = 2 + 1 /\
    (forall i, i <= 2 ->
       n_gram_precision Nat.eq_dec reference_ids candidate_ids i
       = Val (nth i ps 0%R)) /\
    (0 <= root)%R /\
    (root ^ 2 = Rprod ps)%R /\
    BLEU_score Nat.eq_dec reference_ids candidate_ids 2 = Val (bp * root)%R /\
    (In 0%R ps ->
     BLEU_score Nat.eq_dec reference_ids candidate_ids 2 = Val 0%R).
Proof.
  split; [lia |].
  apply (BLEU_score_penalised_root Nat.eq_dec reference_ids candidate_ids).
  lia.
Defined.

Lemma empty_candidate_never_raises_at_ids :
  1 <= 2 /\
  brevity_penalty reference_ids [] = Val 0%R /\
  BLEU_score Nat.eq_dec reference_ids [] 2 = Val 0%R /\
  (forall i, returns (n_gram_precision Nat.eq_dec reference_ids [] i)) /\
  (forall i, 1 <= i -> grouper (@nil nat) i = []).
Proof.
  split; [lia |].
  apply (empty_candidate_never_raises Nat.eq_dec reference_ids). lia.
Defined.

Lemma precision_counts_unclipped_matches_at_ids :
  1 <= 2 /\ 2 <= length candidate_ids /\
  (exists matched : list nat,
      NoDup matched /\
      (forall i, In i matched <->
                 i + 2 <= length candidate_ids /\
                 occurs reference_ids 2 (window candidate_ids i 2)) /\
      length (grouper candidate_ids 2) = length candidate_ids - 2 + 1 /\
      n_gram_precision Nat.eq_dec reference_ids candidate_ids 2
      = Val (INR (length matched) / INR (length (grouper candidate_ids 2)))%R) /\
  (forall (x : nat) (k : nat),
      1 <= k -> n_gram_precision Nat.eq_dec [x] (repeat x k) 1 = Val 1%R).
Proof.
  split; [lia |]. split; [simpl; lia |].
  apply (precision_counts_unclipped_matches Nat.eq_dec reference_ids
           candidate_ids); simpl; lia.
Defined.

(** Attention over two source positions for a batch of two sentences of
    lengths 1 and 2, with a constant similarity. *)
Lemma padding_positions_get_zero_weight_at_example :
  length query = 2 /\
  Forall (fun h_s : list (list R) => length h_s = 2) encoded /\
  length source_lengths = 2 /\
  0 < 2 /\
  1 <= nth 0 source_lengths 0 <= length encoded /\
  let alpha_t := get_attention_weights flat_similarity query encoded
                   source_lengths in
  let weight := fun s => nth 0 (nth s alpha_t []) 0%R in
  shape2 2 2 alpha_t /\
  (forall s, 1 <= s -> s < 2 -> weight s = 0%R) /\
  Rsum (map weight (seq 0 1)) = 1%R.
Proof.
  assert (H1 : length query = 2) by reflexivity.
  assert (H2 : Forall (fun h_s : list (list R) => length h_s = 2) encoded)
    by (repeat constructor).
  assert (H3 : length source_lengths = 2) by reflexivity.
  assert (H4 : 0 < 2) by lia.
  assert (H5 : 1 <= nth 0 source_lengths 0 <= length encoded)
    by (simpl; lia).
  repeat (split; [assumption |]).
  destruct (@padding_positions_get_zero_weight flat_similarity query encoded
              source_lengths 2 0 H1 H2 H3 H4 H5) as [Hs [_ [Hpad Hsum]]].
  cbv zeta. split; [exact Hs |]. split; [| exact Hsum].
  intros s Hge Hlt. apply (Hpad s); assumption.
Defined.

(** One head, identity projections, an LSTM state. *)
Lemma one_head_identity_is_single_head_at_example :
  heads one_head = 1 /\
  shape2 2 1 (recurrent_part lstm lstm_state) /\
  shape3 2 2 1 encoded /\
  length source_lengths = 2 /\
  multihead_attend flat_similarity one_head lstm_state encoded source_lengths
  = Val (attend flat_similarity lstm lstm_state encoded source_lengths).
Proof.
  assert (H1 : shape2 2 1 (recurrent_part lstm lstm_state))
    by (split; [reflexivity | repeat constructor]).
  assert (H2 : shape3 2 2 1 encoded).
  { split; [reflexivity |].
    repeat constructor. }
  assert (H3 : length source_lengths = 2) by reflexivity.
  split; [reflexivity |]. repeat (split; [assumption |]).
  apply (@one_head_identity_is_single_head flat_similarity one_head lstm_state
           encoded source_lengths 2 2); auto.
Defined.

(** Beam search with integer scores, a beam of width 2 over a
    vocabulary of 2 tokens, and selection by sorting. *)
Import Beam BeamTerms BeamFacts BeamSpec SelectionFacts.

Lemma Zleb_total (x y : Z) : Z.leb x y = true \/ Z.leb y x = true.
Proof. rewrite !Z.leb_le. lia. Qed.

Lemma Zleb_trans (x y z : Z) :
  Z.leb x y = true -> Z.leb y z = true -> Z.leb x z = true.
Proof. rewrite !Z.leb_le. lia. Qed.

Lemma topk_sorted_Z : topk_contract Z.leb (topk_sorted Z.leb).
Proof. apply topk_sorted_contract; [exact Zleb_total | exact Zleb_trans]. Qed.

Lemma example_well_shaped :
  well_shaped gru_beam 1 2 2 1 1 hidden_in history_in logpb_in logpy_in.
Proof.
  constructor; unfold shape3, shape2; simpl;
    repeat (first [reflexivity | lia | constructor]).
Qed.

Lemma update_beam_selects_best_extensions_at_example :
  topk_contract Z.leb (topk_sorted Z.leb) /\
  well_shaped gru_beam 1 2 2 1 1 hidden_in history_in logpb_in logpy_in /\
  0 < 1 /\
  exists b_t_0 b_t_1 logpb_t indices,
    update_beam Z.add (topk_sorted Z.leb) gru_beam hidden_in history_in
                logpb_in logpy_in
    = Val (b_t_0, b_t_1, logpb_t) /\
    let scores := nth 0 logpb_t [] in
    let idx := nth 0 indices [] in
    length scores = 2 /\ length idx = 2 /\ NoDup idx /\
    Forall2 (fun s i => candidate Z.add logpb_in logpy_in 0 (i / 2) (i mod 2)
                        = Some s) scores idx /\
    (forall k v c s, k < 2 -> v < 2 ->
       candidate Z.add logpb_in logpy_in 0 k v = Some c ->
       ~ In (k * 2 + v) idx -> In s scores -> Z.leb c s = true) /\
    (forall k, k < 2 ->
       nth k (nth 0 (nth 1 b_t_1 []) []) 0 = nth k idx 0 mod 2 /\
       nth k (nth 0 (nth 0 b_t_1 []) []) 0
       = nth (nth k idx 0 / 2) (nth 0 (nth 0 history_in []) []) 0).
Proof.
  split; [exact topk_sorted_Z |]. split; [exact example_well_shaped |].
  split; [lia |].
  destruct (@update_beam_selects_best_extensions Z Z.add Z.leb
              (topk_sorted Z.leb) gru_beam 1 2 2 1 1 hidden_in history_in
              logpb_in logpy_in 0 topk_sorted_Z example_well_shaped
              (Nat.lt_0_succ 0))
    as [b_t_0 [b_t_1 [logpb_t [indices [Hupd [_ Hrest]]]]]].
  cbv zeta in Hrest.
  destruct Hrest as [_ [_ [Hs [Hi [Hnd [Hsel [_ [_ [Hbest [_ [Htok _]]]]]]]]]]].
  exists b_t_0, b_t_1, logpb_t, indices. cbv zeta.
  split; [exact Hupd |]. split; [exact Hs |]. split; [exact Hi |].
  split; [exact Hnd |]. split; [| split; [exact Hbest |]].
  - eapply Forall2_impl; [| exact Hsel].
    intros s i [_ [_ H]]. exact H.
  - intros k Hk. destruct (Htok k Hk) as [Hlast Hbefore].
    split; [exact Hlast | apply Hbefore; lia].
Defined.

Lemma update_beam_gathers_by_path_at_example :
  topk_contract Z.leb (topk_sorted Z.leb) /\
  well_shaped gru_beam 1 2 2 1 1 hidden_in history_in logpb_in logpy_in /\
  exists b_t_0 b_t_1 logpb_t indices,
    update_beam Z.add (topk_sorted Z.leb) gru_beam hidden_in history_in
                logpb_in logpy_in
    = Val (b_t_0, b_t_1, logpb_t) /\
    select (topk_sorted Z.leb) gru_beam
           (extensions_flat Z.add logpb_in logpy_in)
    = Val (logpb_t, indices) /\
    shape2 1 2 logpb_t /\
    shape3 (1 + 1) 1 2 b_t_1.
Proof.
  split; [exact topk_sorted_Z |]. split; [exact example_well_shaped |].
  destruct (@update_beam_gathers_by_path Z Z.add Z.leb
              (topk_sorted Z.leb) gru_beam 1 2 2 1 1 hidden_in history_in
              logpb_in logpy_in topk_sorted_Z example_well_shaped)
    as [b_t_0 [b_t_1 [logpb_t [indices [Hupd [Hsel Hrest]]]]]].
  cbv zeta in Hrest.
  destruct Hrest as [_ [Hlp [_ [_ [Hhist _]]]]].
  exists b_t_0, b_t_1, logpb_t, indices.
  repeat split; try assumption; try apply Hlp; try apply Hhist.
Defined.

(** The run of the example: the two best of the four extensions are
    hypothesis 0 with token 1 (score -1) and hypothesis 1 with token 1
    (score -3). *)
Example update_beam_example :
  update_beam Z.add (topk_sorted Z.leb) gru_beam hidden_in history_in
              logpb_in logpy_in
  = Val ([[[1%R]; [2%R]]], [[[0; 1]]; [[1; 1]]], [[-1; -3]]%Z).
Proof. reflexivity. Qed.

(** The assertions of [test_bleu_score.py] on words: unigram precision
    15/18, bigram precision 8/17, brevity penalty 1. *)
Example test_bleu_unigram :
  n_gram_precision string_dec test_reference test_candidate 1
  = Val (INR 15 / INR 18)%R.
Proof.
  rewrite precision_nonempty by (simpl; lia).
  replace (count_matches _ _ _ _) with 15 by (vm_compute; reflexivity).
  reflexivity.
Qed.

Example test_bleu_bigram :
  n_gram_precision string_dec test_reference test_candidate 2
  = Val (INR 8 / INR 17)%R.
Proof.
  rewrite precision_nonempty by (simpl; lia).
  replace (count_matches _ _ _ _) with 8 by (vm_compute; reflexivity).
  reflexivity.
Qed.

Example test_bleu_brevity_penalty :
  brevity_penalty test_reference test_candidate = Val 1%R.
Proof.
  rewrite brevity_penalty_nonempty by (simpl; lia).
  destruct (Rlt_dec _ 1) as [_ | N]; [reflexivity |].
  exfalso. apply N. simpl. lra.
Qed.

(** The last assertion of the test: BLEU with [n = 2] is
    [1 * ((15 * 8) / (18 * 17)) ** (1 / 2)]. *)
Example test_bleu_score :
  BLEU_score string_dec test_reference test_candidate 2
  = Val (1 * Rpower ((15 * 8) / (18 * 17)) (1 / 2))%R.
Proof.
  unfold BLEU_score, precision_product. rewrite test_bleu_brevity_penalty.
  cbn [for_range Nat.add].
  rewrite precision_order_zero, test_bleu_unigram, test_bleu_bigram.
  rewrite truediv_pos by lia. rewrite !bind_Val.
  rewrite pow_pos_base by (simpl; lra). rewrite bind_Val.
  f_equal. f_equal. f_equal; simpl; field.
Qed.

End Instances.

(** * Further properties *)

(** ** BLEU: n-grams, excerpts, bounds *)

Module BleuMore.
Import Py PyFacts Shapes Bleu BleuTerms BleuFacts BleuSpec.

Section WithTokens.

Variable token : Type.
Variable token_eq_dec : forall x y : token, {x = y} + {x <> y}.

Local Abbreviation ngram := (list token).
Local Abbreviation precision := (n_gram_precision token_eq_dec).
Local Abbreviation BLEU := (BLEU_score token_eq_dec).
Local Abbreviation precision_value := (BleuTerms.precision_value token_eq_dec).
Local Abbreviation precisions := (BleuTerms.precisions token_eq_dec).

Lemma length_window (seq : ngram) (i n : nat) :
  i + n <= length seq -> length (window seq i n) = n.
Proof.
  intros H. unfold window. rewrite length_firstn, length_skipn. lia.
Qed.

Lemma In_window (seq : ngram) (i n : nat) (x : token) :
  In x (window seq i n) -> In x seq.
Proof.
  unfold window. intros H.
  rewrite <- (firstn_skipn i seq). apply in_or_app. right.
  rewrite <- (firstn_skipn n (skipn i seq)). apply in_or_app. left. exact H.
Qed.

(** X1.  [grouper] yields no n-gram when [n] exceeds the length of the
    sequence; otherwise it yields [len(seq) - n + 1] windows, the one at
    position [i] being the [n] tokens from position [i] on. *)
Theorem grouper_yields_the_windows (seq : ngram) (n : nat) :
  (length seq < n -> grouper seq n = []) /\
  (n <= length seq ->
   length (grouper seq n) = length seq - n + 1 /\
   forall i, i <= length seq - n ->
     nth i (grouper seq n) [] = window seq i n /\
     length (nth i (grouper seq n) []) = n /\
     forall j, j < n -> nth_error (nth i (grouper seq n) []) j
                        = nth_error seq (i + j)).
Proof.
  split; [apply grouper_short |]. intros Hn.
  split; [apply length_grouper; assumption |]. intros i Hi.
  assert (E : nth i (grouper seq n) [] = window seq i n).
  { rewrite grouper_windows by assumption.
    rewrite (TorchFacts.nth_map_default _ _ 0 [])
      by (rewrite length_seq; lia).
    rewrite seq_nth by lia. reflexivity. }
  rewrite E. split; [reflexivity |].
  split; [apply length_window; lia |].
  intros j Hj. unfold window.
  rewrite nth_error_firstn.
  destruct (Nat.ltb_spec j n) as [_ | Hge]; [| lia].
  apply nth_error_skipn.
Qed.

Lemma unigrams_concat (seq : ngram) :
  concat (map (fun i => window seq i 1) (List.seq 0 (length seq))) = seq.
Proof.
  induction seq as [| x seq IH]; [reflexivity |].
  simpl length. simpl List.seq. simpl map. simpl concat.
  unfold window at 1. simpl. f_equal.
  rewrite <- seq_shift, map_map. exact IH.
Qed.

(** X2.  The unigrams of a sequence, concatenated in order, give the
    sequence back; and the only n-gram of the order [len(seq)] is the
    sequence itself. *)
Theorem grouper_round_trip (seq : ngram) :
  concat (grouper seq 1) = seq /\ grouper seq (length seq) = [seq].
Proof.
  split.
  - destruct seq as [| x seq]; [reflexivity |].
    rewrite grouper_windows by (simpl; lia).
    replace (length (x :: seq) - 1 + 1) with (length (x :: seq))
      by (simpl; lia).
    apply unigrams_concat.
  - rewrite grouper_windows by lia.
    rewrite Nat.sub_diag. simpl. unfold window. simpl.
    rewrite firstn_all. reflexivity.
Qed.

Lemma window_of_excerpt (a c b : ngram) (i n : nat) :
  i + n <= length c ->
  window (a ++ c ++ b) (length a + i) n = window c i n.
Proof.
  intros H. unfold window.
  rewrite skipn_app, (skipn_all2 a) by lia. simpl.
  replace (length a + i - length a) with i by lia.
  rewrite skipn_app, firstn_app, length_skipn.
  replace (n - (length c - i)) with 0 by lia.
  simpl. apply app_nil_r.
Qed.

(** X3.  A candidate that stands in the reference as a contiguous
    excerpt has precision 1 at every order up to its length. *)
Theorem precision_of_excerpt (a c b : ngram) (n : nat) :
  n <= length c -> n_gram_precision token_eq_dec (a ++ c ++ b) c n = Val 1%R.
Proof.
  intros Hn. rewrite precision_nonempty by assumption.
  rewrite count_matches_filter. simpl.
  rewrite forallb_filter_id.
  - rewrite length_grouper by assumption.
    f_equal. field. apply not_0_INR. lia.
  - apply forallb_forall. intros g Hg.
    apply contains_spec, In_grouper.
    apply In_grouper in Hg. destruct Hg as [i [Hi Hw]].
    exists (length a + i). split.
    + rewrite !length_app. lia.
    + rewrite window_of_excerpt by assumption. exact Hw.
Qed.

Lemma brevity_penalty_bounds (reference candidate : ngram) :
  exists bp, brevity_penalty reference candidate = Val bp /\
             (0 <= bp <= 1)%R /\ (candidate = [] -> bp = 0%R).
Proof.
  destruct candidate as [| x candidate].
  - exists 0%R. split; [reflexivity |]. split; [lra | reflexivity].
  - rewrite brevity_penalty_nonempty by (simpl; lia).
    destruct (Rlt_dec _ 1) as [Hlt | Hge].
    + exists 1%R. split; [reflexivity |]. split; [lra | discriminate].
    + eexists. split; [reflexivity |].
      set (q := (INR (length reference) / INR (length (x :: candidate)))%R) in *.
      assert (Hpos := exp_pos (1 - q)).
      assert (Hle : (exp (1 - q) <= 1)%R).
      { destruct (Req_dec_T (1 - q) 0) as [E | N].
        - rewrite E, exp_0. lra.
        - assert (H := exp_increasing (1 - q) 0).
          rewrite exp_0 in H. left. apply H. lra. }
      split; [lra | discriminate].
Qed.

(** X4.  The brevity penalty is returned for all sequences and lies in
    [0, 1]; it is 0 for the empty candidate. *)
Theorem brevity_penalty_in_unit_interval (reference candidate : ngram) :
  exists bp, brevity_penalty reference candidate = Val bp /\
             (0 <= bp <= 1)%R /\ (candidate = [] -> bp = 0%R).
Proof. apply brevity_penalty_bounds. Qed.

Lemma root_of_unit_interval (x : R) (n : nat) :
  1 <= n -> (0 <= x)%R -> (x ^ n <= 1)%R -> (x <= 1)%R.
Proof.
  intros Hn H0 Hp. destruct (Rle_lt_dec x 1) as [Hle | Hgt]; [assumption |].
  assert (1 < x ^ n)%R by (apply Rlt_pow_R1; [assumption | lia]). lra.
Qed.

Lemma root_of_one (x : R) (n : nat) :
  1 <= n -> (0 <= x)%R -> (x ^ n = 1)%R -> x = 1%R.
Proof.
  intros Hn H0 Hp.
  destruct (Rtotal_order x 1) as [Hlt | [E | Hgt]]; [| assumption |].
  - assert (0 <= x ^ n < 1)%R by (apply pow_lt_1_compat; [lra | lia]). lra.
  - assert (1 < x ^ n)%R by (apply Rlt_pow_R1; [assumption | lia]). lra.
Qed.

Lemma BLEU_score_bounds (reference candidate : ngram) (n : nat) :
  1 <= n ->
  exists score, BLEU reference candidate n = Val score /\ (0 <= score <= 1)%R.
Proof.
  intros Hn.
  destruct (BLEU_score_root token_eq_dec reference candidate Hn)
    as [bp [root [Hbp [Hroot [Hpow Hscore]]]]].
  destruct (brevity_penalty_bounds reference candidate) as [bp' [Hbp' [Hb _]]].
  rewrite Hbp in Hbp'. apply Val_inj in Hbp'. subst bp'.
  assert (HP := precisions_bounds token_eq_dec reference candidate 0 (n + 1)).
  assert (Hroot1 : (root <= 1)%R).
  { apply (root_of_unit_interval Hn Hroot). rewrite Hpow. apply HP. }
  exists (bp * root)%R. split; [assumption | nra].
Qed.

(** X5.  For [n >= 1] the BLEU score is a number of [0, 1]. *)
Theorem BLEU_score_in_unit_interval (reference candidate : ngram) (n : nat) :
  1 <= n ->
  exists score,
    BLEU_score token_eq_dec reference candidate n = Val score /\
    (0 <= score <= 1)%R.
Proof. apply BLEU_score_bounds. Qed.

(** X6.  With [n = 0] the score is not defined: [BLEU_score] raises
    [ZeroDivisionError], whatever the sequences. *)
Theorem BLEU_score_order_zero_raises (reference candidate : ngram) :
  BLEU_score token_eq_dec reference candidate 0 = Raise ZeroDivisionError.
Proof.
  unfold BLEU_score.
  destruct (brevity_penalty_returns reference candidate) as [bp Hbp].
  rewrite Hbp, bind_Val, product_value, bind_Val. reflexivity.
Qed.

Lemma BLEU_zero_factor (reference candidate : ngram) (n i : nat) :
  1 <= n -> i <= n -> precision reference candidate i = Val 0%R ->
  BLEU reference candidate n = Val 0%R.
Proof.
  intros Hn Hi Hp.
  destruct (BLEU_score_root token_eq_dec reference candidate Hn)
    as [bp [root [Hbp [Hroot [Hpow Hscore]]]]].
  assert (Hin : In 0%R (precisions reference candidate 0 (n + 1))).
  { unfold BleuTerms.precisions. apply in_map_iff. exists i. split.
    - unfold BleuTerms.precision_value. rewrite Hp. reflexivity.
    - apply in_seq. lia. }
  apply Rprod_zero in Hin. rewrite Hin in Hpow.
  assert (E : root = 0%R).
  { destruct (Req_dec_T root 0) as [E | N]; [assumption |].
    exfalso. apply (pow_nonzero root n N). assumption. }
  rewrite Hscore, E. f_equal. ring.
Qed.

(** X7.  A candidate with fewer than [n] tokens has no n-gram of the
    order [n], and its BLEU score is 0. *)
Theorem BLEU_score_of_short_candidate (reference candidate : ngram) (n : nat) :
  1 <= n -> length candidate < n ->
  n_gram_precision token_eq_dec reference candidate n = Val 0%R /\
  BLEU_score token_eq_dec reference candidate n = Val 0%R.
Proof.
  intros Hn Hshort.
  assert (Hp : precision reference candidate n = Val 0%R)
    by (apply precision_no_ngram; assumption).
  split; [assumption |].
  apply (@BLEU_zero_factor reference candidate n n Hn (Nat.le_refl n) Hp).
Qed.

Lemma filter_none (A : Type) (f : A -> bool) (l : list A) :
  (forall x, In x l -> f x = false) -> filter f l = [].
Proof.
  induction l as [| x l IH]; intros H; simpl; [reflexivity |].
  rewrite (H x) by (left; reflexivity).
  apply IH. intros y Hy. apply H. right. assumption.
Qed.

(** X8.  When no token of the candidate occurs in the reference, every
    precision of an order [n >= 1] is 0, and so is the BLEU score. *)
Theorem no_shared_token_scores_zero (reference candidate : ngram) (n : nat) :
  (forall x, In x candidate -> ~ In x reference) ->
  1 <= n ->
  n_gram_precision token_eq_dec reference candidate n = Val 0%R /\
  BLEU_score token_eq_dec reference candidate n = Val 0%R.
Proof.
  intros Hdisjoint Hn.
  assert (Hp : forall k, 1 <= k -> precision reference candidate k = Val 0%R).
  { intros k Hk.
    destruct (Nat.le_gt_cases k (length candidate)) as [Hle | Hgt];
      [| apply precision_no_ngram; assumption].
    rewrite precision_nonempty by assumption.
    rewrite count_matches_filter. simpl.
    replace (filter _ _) with (@nil ngram).
    - simpl. f_equal. unfold Rdiv. ring.
    - symmetry. apply filter_none. intros g Hg.
      destruct (contains token_eq_dec (grouper reference k) g) eqn:E;
        [| reflexivity].
      exfalso. apply contains_spec, In_grouper in E.
      apply In_grouper in Hg.
      destruct E as [j [Hj Ej]]. destruct Hg as [i [Hi Ei]].
      assert (Hlen : length g = k) by (rewrite <- Ei; apply length_window; lia).
      destruct g as [| x g]; [simpl in Hlen; lia |].
      apply (Hdisjoint x).
      + apply (@In_window candidate i k). rewrite Ei. left. reflexivity.
      + apply (@In_window reference j k). rewrite Ej. left. reflexivity. }
  split; [apply Hp; assumption |].
  apply (@BLEU_zero_factor reference candidate n 1 Hn Hn). apply Hp. lia.
Qed.

(** X9.  A candidate that is a contiguous excerpt of the reference
    scores its brevity penalty at every order [n] between 1 and its
    length: all its precisions are 1.  In particular a candidate equal
    to the reference scores 1. *)
Theorem BLEU_score_of_excerpt (a c b : ngram) (n : nat) :
  1 <= n -> n <= length c ->
  (exists bp, brevity_penalty (a ++ c ++ b) c = Val bp /\
              BLEU_score token_eq_dec (a ++ c ++ b) c n = Val bp) /\
  BLEU_score token_eq_dec c c n = Val 1%R.
Proof.
  intros Hn Hlen.
  assert (Hscore : forall a' b',
             exists bp, brevity_penalty (a' ++ c ++ b') c = Val bp /\
                        BLEU (a' ++ c ++ b') c n = Val bp).
  { intros a' b'.
    destruct (BLEU_score_root token_eq_dec (a' ++ c ++ b') c Hn)
      as [bp [root [Hbp [Hroot [Hpow Hscore]]]]].
    assert (HP : Rprod (precisions (a' ++ c ++ b') c 0 (n + 1)) = 1%R).
    { unfold BleuTerms.precisions.
      rewrite (map_ext_in _ (fun _ => 1%R)).
      - unfold Rprod. induction (List.seq 0 (n + 1)) as [| i l IH]; simpl;
          [reflexivity | rewrite IH; ring].
      - intros i Hi. apply in_seq in Hi.
        unfold BleuTerms.precision_value.
        rewrite precision_of_excerpt by lia. reflexivity. }
    rewrite HP in Hpow. apply (root_of_one Hn Hroot) in Hpow.
    exists bp. split; [assumption |].
    rewrite Hscore, Hpow. f_equal. ring. }
  split; [apply Hscore |].
  destruct (Hscore [] []) as [bp [Hbp Hbleu]].
  simpl in Hbp, Hbleu. rewrite app_nil_r in Hbp, Hbleu.
  rewrite Hbleu. f_equal.
  rewrite brevity_penalty_nonempty in Hbp by lia.
  destruct (Rlt_dec _ 1) as [Hlt | _].
  - apply Val_inj in Hbp. symmetry. assumption.
  - apply Val_inj in Hbp. rewrite <- Hbp.
    replace (1 - _)%R with 0%R; [apply exp_0 |].
    field. apply not_0_INR. lia.
Qed.

End WithTokens.

End BleuMore.

(** ** Multi-head attention: configurations *)

Module AttentionMore.
Import Py PyFacts Torch Shapes TorchFacts Attention AttentionTerms AttentionSpec.

Lemma view2_shape (A : Type) (r c : nat) (flat : list A) :
  length flat = r * c ->
  exists t, view2 r c flat = Val t /\ shape2 r c t.
Proof.
  intros Hlen. unfold view2. rewrite Hlen, Nat.eqb_refl.
  eexists. split; [reflexivity |].
  split; [rewrite length_map, length_seq; reflexivity |].
  apply Forall_map, Forall_forall. intros i Hi. apply in_seq in Hi.
  unfold row_of. rewrite length_firstn, length_skipn. nia.
Qed.

Lemma view3_shape (A : Type) (a b c : nat) (flat : list A) :
  length flat = a * b * c ->
  exists t, view3 a b c flat = Val t /\ shape3 a b c t.
Proof.
  intros Hlen. unfold view3. rewrite Hlen, Nat.eqb_refl.
  destruct (@BeamFacts.mapM_Forall2 _ _
              (fun i => view2 b c (firstn (b * c) (skipn (i * (b * c)) flat)))
              (fun _ t => shape2 b c t) (seq 0 a)) as [t [Ht HF]].
  - apply Forall_forall. intros i Hi. apply in_seq in Hi.
    apply view2_shape. rewrite length_firstn, length_skipn. nia.
  - exists t. split; [assumption |].
    split; [rewrite <- (Forall2_length HF), length_seq; reflexivity |].
    clear Ht. induction HF; constructor; assumption.
Qed.

Lemma length_repeat_interleave (A : Type) (n : nat) (t : list A) :
  length (repeat_interleave n t) = length t * n.
Proof.
  unfold repeat_interleave. induction t as [| x t IH]; [reflexivity |].
  change (flat_map (fun y => repeat y n) (x :: t))
    with (repeat x n ++ flat_map (fun y => repeat y n) t).
  rewrite length_app, repeat_length, IH. simpl. lia.
Qed.

Lemma length_projected (f : list R -> list R) (r c : nat) (t : tensor2) :
  (forall v, length (f v) = length v) -> shape2 r c t ->
  length (flatten2 (map f t)) = r * c.
Proof.
  intros Hf [Hr Hc]. apply length_concat_shape.
  split; [rewrite length_map; assumption |].
  apply Forall_map. eapply Forall_impl; [| exact Hc].
  intros v Hv. cbv beta in *. rewrite Hf. assumption.
Qed.

Section WithCosine.

Variable cosine_similarity : list R -> list R -> R.

(** X10.  With no head, [DecoderWithMultiHeadAttention.attend] raises
    [ZeroDivisionError] on a hidden state of shape (M,
    hidden_state_size), which the layer [Wtilde] accepts: the size of a
    head, [hidden_state_size / heads], is computed next.  The encoder
    states and the source lengths do not matter. *)
Theorem multihead_attend_without_head_raises (self : decoder)
    (htilde_t : hidden_state (cell_type self)) (h : tensor3)
    (F_lens : list nat) (M : nat) :
  heads self = 0 ->
  shape2 M (hidden_state_size self) (recurrent_part (cell_type self) htilde_t) ->
  multihead_attend cosine_similarity self htilde_t h F_lens
  = Raise ZeroDivisionError.
Proof.
  intros Hheads _. unfold multihead_attend.
  assert (Hq : forall x, project_query self x = Raise ZeroDivisionError).
  { intros x. unfold project_query, head_size. rewrite Hheads. reflexivity. }
  replace (multihead_query self htilde_t)
    with (@Raise (hidden_state (cell_type self)) ZeroDivisionError);
    [reflexivity |].
  unfold multihead_query. revert htilde_t. generalize (cell_type self).
  intros c htilde_t. destruct c; rewrite Hq; reflexivity.
Qed.

Lemma project_query_mismatch (self : decoder) (x : tensor2) (M : nat) :
  1 <= heads self ->
  hidden_state_size self mod heads self <> 0 ->
  (forall v, length (Wtilde self v) = length v) ->
  1 <= M ->
  shape2 M (hidden_state_size self) x ->
  project_query self x = Raise RuntimeError.
Proof.
  intros Hheads Hmod HW HM Hx. unfold project_query, head_size.
  destruct (Nat.eqb_spec (heads self) 0) as [E | _]; [lia |].
  rewrite bind_Val. unfold view2.
  rewrite (length_projected _ HW Hx).
  destruct Hx as [Hlen _]. rewrite Hlen.
  assert (Hdiv := Nat.div_mod_eq (hidden_state_size self) (heads self)).
  destruct (Nat.eqb_spec (M * hidden_state_size self)
              (M * heads self * (hidden_state_size self / heads self)))
    as [E | _]; [| reflexivity].
  exfalso. nia.
Qed.

(** X11.  When the head count does not divide the hidden state size,
    the view of the projected query has the wrong number of elements:
    on a non-empty batch [DecoderWithMultiHeadAttention.attend] raises
    [RuntimeError]. *)
Theorem multihead_attend_indivisible_raises (self : decoder)
    (htilde_t : hidden_state (cell_type self)) (h : tensor3)
    (F_lens : list nat) (M : nat) :
  1 <= heads self ->
  hidden_state_size self mod heads self <> 0 ->
  (forall v, length (Wtilde self v) = length v) ->
  1 <= M ->
  shape2 M (hidden_state_size self) (recurrent_part (cell_type self) htilde_t) ->
  multihead_attend cosine_similarity self htilde_t h F_lens
  = Raise RuntimeError.
Proof.
  intros Hheads Hmod HW HM. unfold multihead_attend.
  assert (Hq : forall x, shape2 M (hidden_state_size self) x ->
                         project_query self x = Raise RuntimeError).
  { intros x Hx. apply (@project_query_mismatch self x M); assumption. }
  intros Hx.
  replace (multihead_query self htilde_t)
    with (@Raise (hidden_state (cell_type self)) RuntimeError);
    [reflexivity |].
  unfold multihead_query. revert htilde_t Hx. generalize (cell_type self).
  intros c htilde_t Hx. destruct c; simpl in Hx; rewrite (Hq _ Hx); reflexivity.
Qed.

Lemma multihead_query_shape (self : decoder)
    (htilde_t : hidden_state (cell_type self)) (M : nat) :
  1 <= heads self ->
  hidden_state_size self mod heads self = 0 ->
  (forall v, length (Wtilde self v) = length v) ->
  shape2 M (hidden_state_size self) (recurrent_part (cell_type self) htilde_t) ->
  exists q, multihead_query self htilde_t = Val q /\
            shape2 (M * heads self) (hidden_state_size self / heads self)
                   (recurrent_part (cell_type self) q).
Proof.
  intros Hheads Hmod HW. unfold multihead_query.
  assert (Hp : forall x, shape2 M (hidden_state_size self) x ->
             exists t, project_query self x = Val t /\
                       shape2 (M * heads self)
                              (hidden_state_size self / heads self) t).
  { intros x Hx. unfold project_query, head_size.
    destruct (Nat.eqb_spec (heads self) 0) as [E | _]; [lia |].
    rewrite bind_Val. destruct (Hx) as [Hlen _]. rewrite Hlen.
    apply view2_shape. rewrite (length_projected _ HW Hx).
    assert (Hdiv := Nat.div_mod_eq (hidden_state_size self) (heads self)).
    nia. }
  revert htilde_t. generalize (cell_type self).
  intros c htilde_t Hx. destruct c; simpl in Hx.
  - destruct (Hp _ Hx) as [t [Ht Hs]]. rewrite Ht, bind_Val.
    eexists. split; [reflexivity | exact Hs].
  - destruct (Hp _ Hx) as [t [Ht Hs]]. exists t. split; assumption.
  - destruct (Hp _ Hx) as [t [Ht Hs]]. exists t. split; assumption.
Qed.

(** X12.  When the head count divides the hidden state size and the
    three linear layers keep the length of a vector, multi-head
    attention returns, for a hidden state (M, 2H), encoder states
    (S, M, 2H) and M source lengths, a context of the shape
    (M, 2H). *)
Theorem multihead_attend_returns_context (self : decoder)
    (htilde_t : hidden_state (cell_type self)) (h : tensor3)
    (F_lens : list nat) (S M : nat) :
  1 <= heads self ->
  hidden_state_size self mod heads self = 0 ->
  (forall v, length (W self v) = length v) ->
  (forall v, length (Wtilde self v) = length v) ->
  (forall v, length (Q self v) = length v) ->
  shape2 M (hidden_state_size self) (recurrent_part (cell_type self) htilde_t) ->
  shape3 S M (hidden_state_size self) h ->
  length F_lens = M ->
  exists c_t,
    multihead_attend cosine_similarity self htilde_t h F_lens = Val c_t /\
    shape2 M (hidden_state_size self) c_t.
Proof.
  intros Hheads Hmod HW HWt HQ Hq Hh HF.
  set (H := hidden_state_size self) in *. set (n := heads self) in *.
  assert (Hdiv : n * (H / n) = H).
  { assert (E := Nat.div_mod_eq H n). lia. }
  unfold multihead_attend.
  destruct (multihead_query_shape self htilde_t Hheads Hmod HWt Hq)
    as [q [Hquery Hqs]].
  rewrite Hquery, bind_Val. unfold head_size. fold n.
  destruct (Nat.eqb_spec n 0) as [E | _]; [lia |].
  rewrite bind_Val. fold H. destruct Hq as [HqM _]. rewrite HqM.
  destruct (@view3_shape _ (length h) (M * n) (H / n)
              (flatten3 (map (map (W self)) h))) as [h_input [Hview Hhs]].
  { destruct Hh as [HS Hrows]. unfold flatten3.
    rewrite (@length_concat_shape _ (length h) (M * H)).
    - nia.
    - split; [rewrite !length_map; reflexivity |].
      apply Forall_map, Forall_map. eapply Forall_impl; [| exact Hrows].
      intros h_s Hs. apply (length_projected _ HW Hs). }
  rewrite Hview, bind_Val.
  assert (Hout : shape2 (M * n) (H / n)
            (attend cosine_similarity (cell_type self) q h_input
                    (repeat_interleave n F_lens))).
  { apply (@attend_shape cosine_similarity _ _ _ _ (length h)); try assumption.
    rewrite length_repeat_interleave, HF. reflexivity. }
  destruct (@view2_shape _ M H
              (flatten2 (attend cosine_similarity (cell_type self) q h_input
                                (repeat_interleave n F_lens))))
    as [c_t [Hc Hcs]].
  { unfold flatten2. rewrite (length_concat_shape Hout). nia. }
  rewrite Hc, bind_Val. eexists. split; [reflexivity |].
  destruct Hcs as [Hc1 Hc2]. split; [rewrite length_map; assumption |].
  apply Forall_map. eapply Forall_impl; [| exact Hc2].
  intros v Hv. cbv beta in *. rewrite HQ. assumption.
Qed.

(** *** The context vector *)





Section OneBatchElement.

Variables (htilde_t : tensor2) (h : tensor3) (F_lens : list nat).
Variables (M H m : nat).
Hypothesis htilde_shape : length htilde_t = M.
Hypothesis h_shape : shape3 (length h) M H h.
Hypothesis F_lens_shape : length F_lens = M.
Hypothesis m_in_batch : m < M.
Hypothesis source_length : 1 <= nth m F_lens 0 <= length h.

Let S := length h.
Let alpha_t := get_attention_weights cosine_similarity htilde_t h F_lens.
Let e := fun s => masked_energy cosine_similarity htilde_t h F_lens s m.
Let z := Rsum (map (fun s => exp_ext (e s)) (seq 0 S)).









End OneBatchElement.



End WithCosine.

End AttentionMore.

(** ** The first hidden state of the decoder *)

Module OutcomeFacts.
Import Outcome.

Lemma bind_Ret (A B : Type) (a : A) (k : A -> outcome B) :
  bind (Ret a) k = k a.
Proof. reflexivity. Qed.

Lemma position_forward (n : nat) (i : Z) :
  (0 <= i < Z.of_nat n)%Z -> position n i = Ret (Z.to_nat i).
Proof.
  intros Hi. unfold position.
  destruct (Z.leb_spec 0 i); [| lia].
  destruct (Z.ltb_spec i (Z.of_nat n)); [reflexivity | lia].
Qed.

Lemma position_backward (n : nat) (i : Z) :
  (- Z.of_nat n <= i < 0)%Z -> position n i = Ret (Z.to_nat (Z.of_nat n + i)).
Proof.
  intros Hi. unfold position.
  destruct (Z.leb_spec 0 i); [lia |]. simpl.
  destruct (Z.leb_spec (- Z.of_nat n) i); [| lia].
  destruct (Z.ltb_spec i 0); [reflexivity | lia].
Qed.

Lemma position_outside (n : nat) (i : Z) :
  (i < - Z.of_nat n \/ Z.of_nat n <= i)%Z -> position n i = Throw IndexError.
Proof.
  intros Hi. unfold position.
  destruct (Z.leb_spec 0 i); destruct (Z.ltb_spec i (Z.of_nat n));
    destruct (Z.leb_spec (- Z.of_nat n) i); destruct (Z.ltb_spec i 0);
    simpl; try reflexivity; lia.
Qed.

Lemma position_cases (n : nat) (i : Z) :
  position n i = Throw IndexError \/ exists p, position n i = Ret p /\ p < n.
Proof.
  destruct (Z_lt_le_dec i 0) as [Hneg | Hpos].
  - destruct (Z_lt_le_dec i (- Z.of_nat n)) as [Hout | Hin].
    + left. apply position_outside. lia.
    + right. rewrite position_backward by lia. eexists. split; [reflexivity | lia].
  - destruct (Z_lt_le_dec i (Z.of_nat n)) as [Hin | Hout].
    + right. rewrite position_forward by lia. eexists. split; [reflexivity | lia].
    + left. apply position_outside. lia.
Qed.

Lemma getitem_position (A : Type) (l : list A) (i : Z) (p : nat) (d : A) :
  position (length l) i = Ret p -> p < length l ->
  getitem l i = Ret (nth p l d).
Proof.
  intros Hp Hlt. unfold getitem. rewrite Hp, bind_Ret.
  rewrite (TorchFacts.nth_error_nth_default l d Hlt). reflexivity.
Qed.

Lemma getitem_nat (A : Type) (l : list A) (k : nat) (d : A) :
  k < length l -> getitem l (Z.of_nat k) = Ret (nth k l d).
Proof.
  intros Hk. apply getitem_position; [| assumption].
  rewrite position_forward by lia. rewrite Nat2Z.id. reflexivity.
Qed.

Lemma getitem_cases (A : Type) (l : list A) (i : Z) :
  getitem l i = Throw IndexError \/ exists x, getitem l i = Ret x.
Proof.
  unfold getitem. destruct (position_cases (length l) i) as [E | [p [E Hp]]];
    rewrite E; simpl; [left; reflexivity |].
  destruct (nth_error l p) as [x |] eqn:Ex; [right; eauto | left; reflexivity].
Qed.

Lemma getitem_outside (A : Type) (l : list A) (i : Z) :
  (i < - Z.of_nat (length l) \/ Z.of_nat (length l) <= i)%Z ->
  getitem l i = Throw IndexError.
Proof.
  intros Hi. unfold getitem. rewrite position_outside by assumption.
  reflexivity.
Qed.

Lemma mapM_returns_values (A B : Type) (f : A -> outcome B) (g : A -> B) (l : list A) :
  (forall x, In x l -> f x = Ret (g x)) -> mapM f l = Ret (map g l).
Proof.
  induction l as [| x l IH]; intros H; simpl; [reflexivity |].
  rewrite (H x) by (left; reflexivity). rewrite bind_Ret.
  rewrite IH by (intros y Hy; apply H; right; assumption).
  reflexivity.
Qed.

(** A traversal whose steps can fail with [e] only fails with [e] as
    soon as one step does. *)
Lemma mapM_throws (A B : Type) (f : A -> outcome B) (e : error) (l : list A) :
  Forall (fun x => f x = Throw e \/ exists y, f x = Ret y) l ->
  Exists (fun x => f x = Throw e) l ->
  mapM f l = Throw e.
Proof.
  induction 1 as [| x l Hx HF IH]; intros Hex; [inversion Hex |]. simpl.
  destruct Hx as [E | [y E]]; rewrite E; [reflexivity |]. rewrite bind_Ret.
  inversion Hex as [? ? Hhd | ? ? Htl]; subst; [congruence |].
  rewrite (IH Htl). reflexivity.
Qed.

End OutcomeFacts.

Module DecoderMore.
Import Outcome OutcomeFacts Torch Shapes TorchFacts Decoder DecoderTerms.

Lemma length_slice_prefix (v : list R) (k : nat) :
  k <= length v -> length (slice v 0 k) = k.
Proof. intros H. unfold slice. rewrite length_firstn, length_skipn. lia. Qed.

Lemma length_slice (v : list R) (a b : nat) :
  a <= b -> b <= length v -> length (slice v a b) = b - a.
Proof. intros H1 H2. unfold slice. rewrite length_firstn, length_skipn. lia. Qed.

Lemma nth_slice (v : list R) (a b j : nat) :
  j < b - a -> nth j (slice v a b) 0%R = nth (a + j) v 0%R.
Proof.
  intros Hj. unfold slice. rewrite nth_firstn.
  destruct (Nat.ltb_spec j (b - a)); [| lia]. apply nth_skipn.
Qed.

Section FirstHiddenState.

Variables (S M H : nat) (h : tensor3) (F_lens : list Z).
Hypothesis h_shape : shape3 S M H h.
Hypothesis F_lens_shape : length F_lens = M.
Hypothesis F_lens_range : Forall (fun f => 0 <= f <= Z.of_nat S)%Z F_lens.
Hypothesis source_nonempty : 1 <= S.

Let half := H / 2.

(** The states read for the forward half, one per batch element. *)
Let forward_rows : tensor2 :=
  map (fun fm : Z * nat =>
         slice (nth (snd fm) (nth (read_step S (fst fm)) h []) []) 0 half)
      (combine F_lens (seq 0 (length F_lens))).

Lemma read_step_in_range (f : Z) :
  (0 <= f <= Z.of_nat S)%Z ->
  read_step S f < S /\ position S (f - 1) = Ret (read_step S f).
Proof.
  intros Hf. unfold read_step. destruct (Z.eqb_spec f 0) as [E | N].
  - subst f. split; [lia |]. rewrite position_backward by lia.
    f_equal. lia.
  - split; [lia |]. apply position_forward. lia.
Qed.

Lemma last_forward_states_value :
  last_forward_states half h F_lens = Ret forward_rows.
Proof.
  unfold last_forward_states, forward_rows. apply OutcomeFacts.mapM_returns_values.
  intros [f m] Hin. simpl.
  assert (Hf : (0 <= f <= Z.of_nat S)%Z).
  { rewrite Forall_forall in F_lens_range. apply F_lens_range.
    apply (in_combine_l _ _ _ _ Hin). }
  assert (Hm : m < M).
  { apply in_combine_r in Hin. apply in_seq in Hin. lia. }
  destruct h_shape as [HS Hrows].
  destruct (read_step_in_range Hf) as [Hlt Hpos].
  rewrite (@getitem_position _ h (f - 1) (read_step S f) [])
    by (rewrite HS; assumption).
  rewrite bind_Ret.
  assert (Hs : shape2 M H (nth (read_step S f) h []))
    by (apply (Forall_nth_default [] Hrows); lia).
  destruct Hs as [Hs1 Hs2].
  rewrite (getitem_nat _ []) by lia. reflexivity.
Qed.

Lemma first_hidden_state_value :
  get_first_hidden_state H h F_lens
  = Ret (map2 (@app R) forward_rows
              (map (fun v => slice v half H) (nth 0 h []))).
Proof.
  unfold get_first_hidden_state. fold half.
  rewrite last_forward_states_value, bind_Ret.
  destruct h_shape as [HS Hrows].
  rewrite (@getitem_position _ h 0 0 []);
    [| apply position_forward; lia | lia].
  rewrite bind_Ret. unfold cat1.
  assert (Hs : shape2 M H (nth 0 h []))
    by (apply (Forall_nth_default [] Hrows); lia).
  destruct Hs as [Hs1 _].
  unfold forward_rows.
  rewrite !length_map, length_combine, length_seq, Nat.min_id.
  rewrite F_lens_shape, Hs1, Nat.eqb_refl. reflexivity.
Qed.

Lemma first_hidden_state_entry (m j : nat) :
  m < M -> j < H ->
  nth j (nth m (map2 (@app R) forward_rows
                     (map (fun v => slice v half H) (nth 0 h []))) []) 0%R
  = if j <? half
    then nth j (nth m (nth (read_step S (nth m F_lens 0%Z)) h []) []) 0%R
    else nth j (nth m (nth 0 h []) []) 0%R.
Proof.
  intros Hm Hj. destruct h_shape as [HS Hrows].
  assert (H0 : shape2 M H (nth 0 h []))
    by (apply (Forall_nth_default [] Hrows); lia).
  destruct H0 as [H01 H02].
  assert (Hhalf : half <= H) by (unfold half; apply Nat.Div0.div_le_upper_bound; lia).
  assert (Hf : (0 <= nth m F_lens 0 <= Z.of_nat S)%Z)
    by (apply (Forall_nth_default 0%Z F_lens_range); lia).
  destruct (read_step_in_range Hf) as [Hlt _].
  assert (Hs : shape2 M H (nth (read_step S (nth m F_lens 0%Z)) h []))
    by (apply (Forall_nth_default [] Hrows); lia).
  destruct Hs as [Hs1 Hs2].
  set (v := nth m (nth (read_step S (nth m F_lens 0%Z)) h []) []).
  set (v0 := nth m (nth 0 h []) []).
  assert (Hv : length v = H) by (apply (Forall_nth_default [] Hs2); lia).
  assert (Hv0 : length v0 = H) by (apply (Forall_nth_default [] H02); lia).
  rewrite (nth_map2 _ _ _ [] [] [])
    by (unfold forward_rows;
        rewrite ?length_map, ?length_combine, ?length_seq; lia).
  assert (Ef : nth m forward_rows [] = slice v 0 half).
  { unfold forward_rows.
    rewrite (nth_map_default _ _ (0%Z, 0) [])
      by (rewrite length_combine, length_seq; lia).
    rewrite combine_nth by (rewrite length_seq; reflexivity).
    rewrite seq_nth by lia. reflexivity. }
  assert (Eb : nth m (map (fun v => slice v half H) (nth 0 h [])) []
               = slice v0 half H).
  { rewrite (nth_map_default _ _ [] []) by lia. reflexivity. }
  rewrite Ef, Eb.
  destruct (Nat.ltb_spec j half) as [Hlo | Hhi].
  - rewrite app_nth1 by (rewrite length_slice_prefix; lia).
    rewrite nth_slice by lia. reflexivity.
  - rewrite app_nth2 by (rewrite length_slice_prefix; lia).
    rewrite length_slice_prefix by lia.
    rewrite nth_slice by lia. f_equal. lia.
Qed.

Lemma first_hidden_state_shape :
  shape2 M H (map2 (@app R) forward_rows
                   (map (fun v => slice v half H) (nth 0 h []))).
Proof.
  destruct h_shape as [HS Hrows].
  assert (H0 : shape2 M H (nth 0 h []))
    by (apply (Forall_nth_default [] Hrows); lia).
  destruct H0 as [H01 H02].
  assert (Hhalf : half <= H) by (unfold half; apply Nat.Div0.div_le_upper_bound; lia).
  split.
  - rewrite length_map2. unfold forward_rows.
    rewrite !length_map, length_combine, length_seq. lia.
  - apply (Forall_map2 (P := fun a => length a = half)
             (Q := fun b => length b = H - half)).
    + intros a b Ha Hb. rewrite length_app. lia.
    + unfold forward_rows. apply Forall_map, Forall_forall.
      intros [f m] Hin. simpl.
      assert (Hf : (0 <= f <= Z.of_nat S)%Z).
      { rewrite Forall_forall in F_lens_range. apply F_lens_range.
        apply (in_combine_l _ _ _ _ Hin). }
      assert (Hm : m < M).
      { apply in_combine_r in Hin. apply in_seq in Hin. lia. }
      destruct (read_step_in_range Hf) as [Hlt _].
      assert (Hs : shape2 M H (nth (read_step S f) h []))
        by (apply (Forall_nth_default [] Hrows); lia).
      destruct Hs as [Hs1 Hs2].
      apply length_slice_prefix.
      rewrite (Forall_nth_default [] Hs2); lia.
    + apply Forall_map. eapply Forall_impl; [| exact H02].
      intros v Hv. cbv beta in *. apply length_slice; lia.
Qed.

End FirstHiddenState.

Lemma tensor2_ext (M H : nat) (a b : tensor2) :
  shape2 M H a -> shape2 M H b ->
  (forall m j, m < M -> j < H ->
     nth j (nth m a []) 0%R = nth j (nth m b []) 0%R) ->
  a = b.
Proof.
  intros [Ha1 Ha2] [Hb1 Hb2] Hentries.
  apply (nth_ext _ _ [] []); [lia |]. intros m Hm. rewrite Ha1 in Hm.
  assert (Hra : length (nth m a []) = H)
    by (apply (Forall_nth_default [] Ha2); lia).
  assert (Hrb : length (nth m b []) = H)
    by (apply (Forall_nth_default [] Hb2); lia).
  apply (nth_ext _ _ 0%R 0%R); [lia |]. intros j Hj. rewrite Hra in Hj.
  apply Hentries; assumption.
Qed.

Lemma source_lengths_weaken (S : nat) (F_lens : list Z) :
  Forall (fun f => 1 <= f <= Z.of_nat S)%Z F_lens ->
  Forall (fun f => 0 <= f <= Z.of_nat S)%Z F_lens.
Proof.
  intros HF. eapply Forall_impl; [| exact HF]. intros f Hf. cbv beta in *. lia.
Qed.

(** X15.  For encoder states (S, M, 2H) and source lengths between 1
    and S, [DecoderWithoutAttention.get_first_hidden_state] returns an
    (M, 2H) tensor: the first half of row [m] is the first half of the
    encoder state of [m] at its last unpadded step, [F_lens[m] - 1], and
    the rest is the rest of its state at step 0. *)
Theorem first_hidden_state_joins_directions (S M H : nat) (h : tensor3)
    (F_lens : list Z) :
  shape3 S M H h ->
  length F_lens = M ->
  Forall (fun f => 1 <= f <= Z.of_nat S)%Z F_lens ->
  1 <= S ->
  exists htilde,
    get_first_hidden_state H h F_lens = Ret htilde /\
    shape2 M H htilde /\
    forall m j, m < M -> j < H ->
      nth j (nth m htilde []) 0%R
      = if j <? H / 2
        then nth j (nth m (nth (Z.to_nat (nth m F_lens 0%Z - 1)) h []) []) 0%R
        else nth j (nth m (nth 0 h []) []) 0%R.
Proof.
  intros Hh HF Hrange HS.
  assert (Hrange0 := @source_lengths_weaken S F_lens Hrange).
  eexists. split; [apply (@first_hidden_state_value S M H h F_lens Hh HF Hrange0 HS) |].
  split; [apply (@first_hidden_state_shape S M H h F_lens Hh HF Hrange0 HS) |].
  intros m j Hm Hj.
  rewrite (@first_hidden_state_entry S M H h F_lens Hh HF Hrange0 HS m j Hm Hj).
  assert (Hf : (1 <= nth m F_lens 0 <= Z.of_nat S)%Z)
    by (apply (Forall_nth_default 0%Z Hrange); lia).
  unfold read_step. destruct (Z.eqb_spec (nth m F_lens 0%Z) 0); [lia |].
  reflexivity.
Qed.

(** X16.  The first hidden state does not depend on padding: two
    encodings of one shape that agree on the unpadded positions give
    the same first hidden state. *)
Theorem first_hidden_state_ignores_padding (S M H : nat) (h h' : tensor3)
    (F_lens : list Z) :
  shape3 S M H h ->
  shape3 S M H h' ->
  length F_lens = M ->
  Forall (fun f => 1 <= f <= Z.of_nat S)%Z F_lens ->
  1 <= S ->
  (forall m s, m < M -> (Z.of_nat s < nth m F_lens 0)%Z ->
     nth m (nth s h []) [] = nth m (nth s h' []) []) ->
  get_first_hidden_state H h F_lens = get_first_hidden_state H h' F_lens.
Proof.
  intros Hh Hh' HF Hrange HS Hagree.
  assert (Hrange0 := @source_lengths_weaken S F_lens Hrange).
  rewrite (@first_hidden_state_value S M H h F_lens Hh HF Hrange0 HS).
  rewrite (@first_hidden_state_value S M H h' F_lens Hh' HF Hrange0 HS).
  f_equal.
  apply (@tensor2_ext M H).
  - apply (@first_hidden_state_shape S M H h F_lens Hh HF Hrange0 HS).
  - apply (@first_hidden_state_shape S M H h' F_lens Hh' HF Hrange0 HS).
  - intros m j Hm Hj.
    rewrite (@first_hidden_state_entry S M H h F_lens Hh HF Hrange0 HS m j Hm Hj).
    rewrite (@first_hidden_state_entry S M H h' F_lens Hh' HF Hrange0 HS m j Hm Hj).
    assert (Hf : (1 <= nth m F_lens 0 <= Z.of_nat S)%Z)
      by (apply (Forall_nth_default 0%Z Hrange); lia).
    unfold read_step. destruct (Z.eqb_spec (nth m F_lens 0%Z) 0); [lia |].
    destruct (j <? H / 2).
    + rewrite (Hagree m (Z.to_nat (nth m F_lens 0%Z - 1))) by lia.
      reflexivity.
    + rewrite (Hagree m 0) by lia. reflexivity.
Qed.

(** X17.  A source length of 0 is no error: its index -1 designates
    the last time step, and the first half of the row of that batch
    element is read from the encoder state at step S - 1. *)
Theorem first_hidden_state_wraps_at_zero (S M H : nat) (h : tensor3)
    (F_lens : list Z) (m : nat) :
  shape3 S M H h ->
  length F_lens = M ->
  Forall (fun f => 0 <= f <= Z.of_nat S)%Z F_lens ->
  1 <= S ->
  m < M ->
  nth m F_lens 0%Z = 0%Z ->
  exists htilde,
    get_first_hidden_state H h F_lens = Ret htilde /\
    forall j, j < H / 2 ->
      nth j (nth m htilde []) 0%R = nth j (nth m (nth (S - 1) h []) []) 0%R.
Proof.
  intros Hh HF Hrange HS Hm Hzero.
  eexists. split; [apply (@first_hidden_state_value S M H h F_lens Hh HF Hrange HS) |].
  intros j Hj.
  assert (HjH : j < H).
  { assert (H / 2 <= H) by (apply Nat.Div0.div_le_upper_bound; lia). lia. }
  rewrite (@first_hidden_state_entry S M H h F_lens Hh HF Hrange HS m j Hm HjH).
  destruct (Nat.ltb_spec j (H / 2)); [| lia].
  rewrite Hzero. reflexivity.
Qed.

Lemma Exists_combine_range (P : Z -> Prop) (l : list Z) (a : nat) :
  Exists P l -> Exists (fun fm : Z * nat => P (fst fm)) (combine l (seq a (length l))).
Proof.
  intros Hex. revert a. induction Hex as [f l Hf | f l _ IH]; intros a; simpl.
  - apply Exists_cons_hd. exact Hf.
  - apply Exists_cons_tl. apply IH.
Qed.

Lemma mapM_cases (A B : Type) (f : A -> outcome B) (e : error) (l : list A) :
  Forall (fun x => f x = Throw e \/ exists y, f x = Ret y) l ->
  Outcome.mapM f l = Throw e \/ exists ys, Outcome.mapM f l = Ret ys.
Proof.
  induction 1 as [| x l Hx _ IH]; simpl; [right; eauto |].
  destruct Hx as [E | [y E]]; rewrite E; [left; reflexivity |].
  rewrite bind_Ret. destruct IH as [E' | [ys E']]; rewrite E'; simpl;
    [left; reflexivity | right; eauto].
Qed.

Lemma forward_step_cases (half : nat) (h : tensor3) (fm : Z * nat) :
  (h_s <~ getitem h (fst fm - 1) ;;
   v <~ getitem h_s (Z.of_nat (snd fm)) ;;
   Ret (slice v 0 half)) = Throw IndexError \/
  exists row,
    (h_s <~ getitem h (fst fm - 1) ;;
     v <~ getitem h_s (Z.of_nat (snd fm)) ;;
     Ret (slice v 0 half)) = Ret row.
Proof.
  destruct (getitem_cases h (fst fm - 1)) as [E | [h_s E]]; rewrite E;
    [left; reflexivity |]. rewrite bind_Ret.
  destruct (getitem_cases h_s (Z.of_nat (snd fm))) as [E' | [v E']]; rewrite E';
    simpl; [left; reflexivity | right; eauto].
Qed.

(** X18.  A source length beyond the number S of encoder steps (or
    at most -S) is an index out of range, and so is the step 0 of an
    encoding without any step: [get_first_hidden_state] raises
    [IndexError]. *)
Theorem first_hidden_state_out_of_range (H : nat) (h : tensor3)
    (F_lens : list Z) :
  Exists (fun f => Z.of_nat (length h) < f \/ f <= - Z.of_nat (length h))%Z
         F_lens \/ length h = 0 ->
  get_first_hidden_state H h F_lens = Throw IndexError.
Proof.
  intros Hbad. unfold get_first_hidden_state, last_forward_states.
  set (step := fun fm : Z * nat =>
                 h_s <~ getitem h (fst fm - 1) ;;
                 v <~ getitem h_s (Z.of_nat (snd fm)) ;;
                 Ret (slice v 0 (H / 2))).
  assert (Hcases : Forall (fun fm => step fm = Throw IndexError \/
                                     exists row, step fm = Ret row)
                          (combine F_lens (seq 0 (length F_lens)))).
  { apply Forall_forall. intros fm _. apply forward_step_cases. }
  destruct Hbad as [Hex | Hempty].
  - rewrite (@mapM_throws _ _ step IndexError _ Hcases); [reflexivity |].
    apply (@Exists_combine_range _ F_lens 0) in Hex.
    eapply Exists_impl; [| exact Hex].
    intros [f m] Hf. simpl in Hf. unfold step. simpl.
    rewrite getitem_outside by lia. reflexivity.
  - destruct (@mapM_cases _ _ step IndexError _ Hcases) as [E | [rows E]];
      rewrite E; [reflexivity |].
    rewrite bind_Ret, getitem_outside by lia. reflexivity.
Qed.

End DecoderMore.

(** ** Teacher forcing *)

Module TeacherMore.
Import Outcome OutcomeFacts Decoder DecoderTerms.

Lemma skipn_head (A : Type) (l : list A) (i : nat) (d : A) :
  i < length l -> skipn i l = nth i l d :: skipn (S i) l.
Proof.
  revert i. induction l as [| x l IH]; intros i Hi; simpl in Hi; [lia |].
  destruct i as [| i]; [reflexivity |]. simpl. apply IH. lia.
Qed.

Section TeacherForcing.

Variable c : Attention.cell.
Variable source_lengths : Type.
Variable decoder_first_hidden_state :
  tensor3 -> source_lengths -> outcome tensor2.
Variable decoder :
  list nat -> Attention.hidden_state c -> tensor3 -> source_lengths ->
  outcome (tensor2 * Attention.hidden_state c).

Local Abbreviation logits_of :=
  (@get_logits_for_teacher_forcing c source_lengths
     decoder_first_hidden_state decoder).
Local Abbreviation fed := (@fed_rows c source_lengths decoder).
Local Abbreviation with_cell_state := (@Decoder.with_cell_state c).

(** Feeding a prefix of the rows gives a prefix of the logits. *)
Lemma fed_rows_prefix (h : tensor3) (F_lens : source_lengths)
    (rows : list (list nat)) (htilde : Attention.hidden_state c) (k : nat)
    (r : list tensor2 * Attention.hidden_state c) :
  fed h F_lens rows htilde = Ret r ->
  exists s, fed h F_lens (firstn k rows) htilde = Ret (firstn k (fst r), s).
Proof.
  revert rows htilde r. induction k as [| k IH]; intros rows htilde r Hr.
  - exists htilde. reflexivity.
  - destruct rows as [| E_i rows].
    + injection Hr as <-. exists htilde. reflexivity.
    + simpl in Hr |- *.
      destruct (decoder E_i htilde h F_lens) as [step | e]; [| discriminate].
      rewrite bind_Ret in Hr |- *.
      destruct (fed h F_lens rows (snd step)) as [rest | e] eqn:Hrest;
        [| discriminate].
      rewrite bind_Ret in Hr. injection Hr as <-.
      destruct (IH rows (snd step) rest Hrest) as [s Hs].
      rewrite Hs, bind_Ret. exists s. reflexivity.
Qed.

Lemma length_fed_rows (h : tensor3) (F_lens : source_lengths)
    (rows : list (list nat)) (htilde : Attention.hidden_state c)
    (r : list tensor2 * Attention.hidden_state c) :
  fed h F_lens rows htilde = Ret r -> length (fst r) = length rows.
Proof.
  revert htilde r. induction rows as [| E_i rows IH]; intros htilde r Hr.
  - injection Hr as <-. reflexivity.
  - simpl in Hr.
    destruct (decoder E_i htilde h F_lens) as [step | e]; [| discriminate].
    rewrite bind_Ret in Hr.
    destruct (fed h F_lens rows (snd step)) as [rest | e] eqn:Hrest;
      [| discriminate].
    rewrite bind_Ret in Hr. injection Hr as <-. simpl.
    rewrite (IH _ _ Hrest). reflexivity.
Qed.

(** The decoder returns on the rows fed to it when it does on every
    hidden state of an invariant [P] that its steps keep. *)
Lemma fed_rows_returns (P : Attention.hidden_state c -> Prop) (h : tensor3)
    (F_lens : source_lengths) (rows : list (list nat))
    (htilde : Attention.hidden_state c) :
  P htilde ->
  (forall E_i htilde', In E_i rows -> P htilde' ->
     exists step, decoder E_i htilde' h F_lens = Ret step /\ P (snd step)) ->
  exists r, fed h F_lens rows htilde = Ret r.
Proof.
  revert htilde. induction rows as [| E_i rows IH]; intros htilde HP Hstep.
  - eexists. reflexivity.
  - destruct (Hstep E_i htilde (or_introl eq_refl) HP) as [step [Es HP']].
    destruct (IH (snd step) HP') as [rest Hrest].
    { intros E_j htilde' Hin. apply Hstep. right. assumption. }
    simpl. rewrite Es, bind_Ret, Hrest, bind_Ret. eexists. reflexivity.
Qed.

(** The loop over [range(lo, lo + len)] feeds the rows [lo] to
    [lo + len - 1] of [E]. *)
Lemma loop_feeds_rows (h : tensor3) (F_lens : source_lengths)
    (E : list (list nat)) (len lo : nat) (acc : list tensor2)
    (htilde : Attention.hidden_state c) :
  lo + len <= length E ->
  for_range lo len
    (fun (state : list tensor2 * Attention.hidden_state c) i =>
       E_i <~ getitem E (Z.of_nat i) ;;
       step <~ decoder E_i (snd state) h F_lens ;;
       Ret (fst state ++ [fst step], snd step))
    (acc, htilde)
  = (r <~ fed h F_lens (firstn len (skipn lo E)) htilde ;;
     Ret (acc ++ fst r, snd r)).
Proof.
  revert lo acc htilde.
  induction len as [| len IH]; intros lo acc htilde Hlen.
  - cbn [for_range firstn fed_rows]. rewrite bind_Ret. cbn [fst snd].
    rewrite app_nil_r. reflexivity.
  - cbn [for_range]. rewrite (getitem_nat _ []) by lia.
    rewrite bind_Ret. cbv beta. cbn [fst snd].
    rewrite (skipn_head E [] (i := lo)) by lia. cbn [firstn fed_rows].
    destruct (decoder (nth lo E []) htilde h F_lens) as [step | e];
      [| reflexivity].
    rewrite !bind_Ret. cbv beta. rewrite IH by lia.
    destruct (fed h F_lens (firstn len (skipn (S lo) E)) (snd step))
      as [rest | e]; [| reflexivity].
    rewrite !bind_Ret. cbv beta. cbn [fst snd].
    rewrite <- app_assoc. reflexivity.
Qed.

Lemma logits_value (h : tensor3) (F_lens : source_lengths)
    (E : list (list nat)) :
  logits_of h F_lens E
  = (htilde_0 <~ decoder_first_hidden_state h F_lens ;;
     r <~ fed h F_lens (firstn (length E - 1) E) (with_cell_state htilde_0) ;;
     stack (fst r)).
Proof.
  unfold get_logits_for_teacher_forcing.
  destruct (decoder_first_hidden_state h F_lens) as [htilde_0 | e];
    [| reflexivity].
  rewrite !bind_Ret. cbv zeta. rewrite loop_feeds_rows by lia.
  change (skipn 0 E) with E.
  destruct (fed h F_lens (firstn (length E - 1) E) (with_cell_state htilde_0))
    as [r | e]; reflexivity.
Qed.

(** X19.  [get_logits_for_teacher_forcing] raises what the first hidden
    state of the decoder raises.  When that state is returned: a target
    of at most one row leaves nothing to stack, and [RuntimeError] is
    raised; for a target of T >= 2 rows on which the steps of the
    decoder return (they keep an invariant [P] of the hidden state on
    which they return), one tensor of logits is returned per target row
    but the last, T - 1 in all. *)
Theorem teacher_forcing_logits_count (h : tensor3) (F_lens : source_lengths)
    (E : list (list nat)) (P : Attention.hidden_state c -> Prop) :
  (forall e,
     decoder_first_hidden_state h F_lens = Throw e ->
     get_logits_for_teacher_forcing c decoder_first_hidden_state decoder
       h F_lens E
     = Throw e) /\
  (forall htilde_0,
     decoder_first_hidden_state h F_lens = Ret htilde_0 ->
     (length E <= 1 ->
      get_logits_for_teacher_forcing c decoder_first_hidden_state decoder
        h F_lens E
      = Throw (Builtin Py.RuntimeError)) /\
     (2 <= length E ->
      P (with_cell_state htilde_0) ->
      (forall E_i htilde, In E_i E -> P htilde ->
         exists step, decoder E_i htilde h F_lens = Ret step /\
                      P (snd step)) ->
      exists logits,
        get_logits_for_teacher_forcing c decoder_first_hidden_state decoder
          h F_lens E
        = Ret logits /\
        length logits = length E - 1)).
Proof.
  rewrite logits_value. split.
  - intros e He. rewrite He. reflexivity.
  - intros htilde_0 H0. rewrite H0, bind_Ret. split.
    + intros HT. replace (length E - 1) with 0 by lia. reflexivity.
    + intros HT HP Hstep.
      destruct (@fed_rows_returns P h F_lens (firstn (length E - 1) E)
                  (with_cell_state htilde_0) HP) as [r Hr].
      { intros E_i htilde Hin. apply Hstep.
        rewrite <- (firstn_skipn (length E - 1) E). apply in_or_app.
        left. assumption. }
      assert (Hlen : length (fst r) = length E - 1).
      { rewrite (length_fed_rows _ _ _ _ Hr), length_firstn. lia. }
      rewrite Hr, bind_Ret. exists (fst r). split; [| assumption].
      destruct (fst r); [simpl in Hlen; lia | reflexivity].
Qed.

(** X20.  Teacher forcing is causal: the last target row is never fed
    to the decoder, and the first [k] logits depend on the first [k]
    target rows only. *)
Theorem teacher_forcing_is_causal (h : tensor3) (F_lens : source_lengths) :
  (forall E e e',
     get_logits_for_teacher_forcing c decoder_first_hidden_state decoder
       h F_lens (E ++ [e])
     = get_logits_for_teacher_forcing c decoder_first_hidden_state decoder
         h F_lens (E ++ [e'])) /\
  (forall E E' k logits logits',
     firstn k E = firstn k E' ->
     k < length E -> k < length E' ->
     get_logits_for_teacher_forcing c decoder_first_hidden_state decoder
       h F_lens E = Ret logits ->
     get_logits_for_teacher_forcing c decoder_first_hidden_state decoder
       h F_lens E' = Ret logits' ->
     firstn k logits = firstn k logits').
Proof.
  split.
  - intros E e e'. rewrite !logits_value, !length_app. simpl.
    replace (length E + 1 - 1) with (length E) by lia.
    rewrite !firstn_app, !firstn_all, Nat.sub_diag. reflexivity.
  - intros E E' k logits logits' Hprefix Hk Hk' Hl Hl'.
    rewrite logits_value in Hl, Hl'.
    destruct (decoder_first_hidden_state h F_lens) as [htilde_0 | e];
      [| discriminate].
    rewrite bind_Ret in Hl, Hl'.
    destruct (fed h F_lens (firstn (length E - 1) E)
                  (with_cell_state htilde_0)) as [r | e] eqn:Hr;
      [| discriminate].
    destruct (fed h F_lens (firstn (length E' - 1) E')
                  (with_cell_state htilde_0)) as [r' | e] eqn:Hr';
      [| discriminate].
    rewrite bind_Ret in Hl, Hl'.
    assert (Hstack : forall l l', stack l = Ret l' -> l' = l).
    { intros l l' H. destruct l; [discriminate | injection H; auto]. }
    apply Hstack in Hl, Hl'. subst logits logits'.
    destruct (fed_rows_prefix _ _ _ _ k Hr) as [s Hs].
    destruct (fed_rows_prefix _ _ _ _ k Hr') as [s' Hs'].
    rewrite firstn_firstn in Hs, Hs'.
    replace (Nat.min k (length E - 1)) with k in Hs by lia.
    replace (Nat.min k (length E' - 1)) with k in Hs' by lia.
    rewrite Hprefix, Hs' in Hs. injection Hs as Hs _. symmetry. exact Hs.
Qed.

End TeacherForcing.

End TeacherMore.

(** ** Beam search with a beam of width 1 *)

Module BeamMore.
Import Py PyFacts Torch Shapes TorchFacts Beam BeamTerms BeamFacts BeamSpec.

Lemma reindex_single_slot (A : Type) (d : A) (M : nat) (t : list (list A))
    (paths : list (list nat)) :
  shape2 M 1 t -> fits M 1 paths -> map2 (reindex d) t paths = t.
Proof.
  intros [Ht Hrows] [[Hp Hprows] Hlt]. subst M. revert paths Hp Hprows Hlt.
  induction Hrows as [| row t Hrow _ IH]; intros paths Hp Hprows Hlt;
    destruct paths as [| p paths]; simpl in Hp; try lia; [reflexivity |].
  apply Forall_cons_iff in Hprows. destruct Hprows as [Hplen Hprows].
  apply Forall_cons_iff in Hlt. destruct Hlt as [Hpl Hlt].
  simpl. f_equal; [| apply IH; auto].
  destruct p as [| j [| ? ?]]; simpl in Hplen; try lia.
  apply Forall_cons_iff in Hpl. destruct Hpl as [Hj _].
  destruct row as [| x [| ? ?]]; simpl in Hrow; try lia.
  replace j with 0 by lia. reflexivity.
Qed.

Lemma components_injective (c : cell) (x y : hidden_state c) :
  components c x = components c y -> x = y.
Proof.
  destruct c; simpl; intros E.
  - destruct x, y. simpl in E. injection E as -> ->. reflexivity.
  - injection E; auto.
  - injection E; auto.
Qed.

Section WithScores.

Variable score : Type.
Variable add : score -> score -> score.
Variable leb : score -> score -> bool.
Variable topk : nat -> list score -> result (list score * list nat).

(** X21.  With a beam of width 1, [update_beam] is a greedy step: it
    keeps the hidden state, and appends to the history of each batch
    element a token whose score [logpb_tm1[m][0] + logpy_t[m][0][v]] is
    not below that of any other token. *)
Theorem update_beam_width_one_is_greedy (self : model) (M V t H : nat)
    (htilde_t : hidden_state (cell_type self))
    (b_tm1_1 : list (list (list nat)))
    (logpb_tm1 : list (list score)) (logpy_t : list (list (list score))) :
  topk_contract leb topk ->
  well_shaped self M 1 V t H htilde_t b_tm1_1 logpb_tm1 logpy_t ->
  exists tokens logpb_t,
    update_beam add topk self htilde_t b_tm1_1 logpb_tm1 logpy_t
    = Val (htilde_t, b_tm1_1 ++ [tokens], logpb_t) /\
    forall m, m < M ->
      exists v s,
        nth m tokens [] = [v] /\ nth m logpb_t [] = [s] /\ v < V /\
        candidate add logpb_tm1 logpy_t m 0 v = Some s /\
        forall v' c, v' < V -> v' <> v ->
          candidate add logpb_tm1 logpy_t m 0 v' = Some c ->
          leb c s = true.
Proof.
  intros Htopk Hshape.
  destruct (@update_beam_returns score add leb topk self M 1 V t H htilde_t
              b_tm1_1 logpb_tm1 logpy_t Htopk Hshape)
    as [sel [b_t_0 [Hsel [HF [Hfits [Htok [Hlp [Hcomp Hupd]]]]]]]].
  destruct Hshape as [HK HV HV1 Hb Hy [Ht Hslices] Hhid].
  set (paths := paths_of self (map snd sel)) in *.
  assert (Hhist : map (fun b_i => map2 (reindex 0) b_i paths) b_tm1_1 = b_tm1_1).
  { rewrite <- (map_id b_tm1_1) at 2. apply map_ext_in. intros b_i Hin.
    rewrite Forall_forall in Hslices.
    apply (@reindex_single_slot _ 0 M); [apply Hslices |]; assumption. }
  assert (Hstate : b_t_0 = htilde_t).
  { apply components_injective. rewrite Hcomp.
    rewrite <- (map_id (components (cell_type self) htilde_t)) at 2.
    apply map_ext_in. intros src Hin. rewrite Forall_forall in Hhid.
    apply (@reindex_single_slot _ [] M); [| assumption].
    apply (rows_of_shape3 (Hhid src Hin)). }
  exists (tokens_of self (map snd sel)), (map fst sel).
  split; [rewrite Hupd, Hhist, Hstate; reflexivity |].
  intros m Hm.
  assert (Hentry := fun v => @flat_entry _ add M 1 V _ _ Hb Hy m 0 v Hm
                              (Nat.lt_0_succ 0)).
  assert (Hlen := @flat_row_length _ add M 1 V _ _ Hb Hy m Hm).
  assert (Hflat : length (extensions_flat add logpb_tm1 logpy_t) = M)
    by (apply (@flat_shape _ add M 1 V _ _ Hb Hy)).
  assert (Hrow := @Forall2_nth_default _ _ _ _ _ m [] ([], []) HF).
  rewrite Hflat in Hrow. specialize (Hrow Hm). cbv beta in Hrow.
  set (flat_m := nth m (extensions_flat add logpb_tm1 logpy_t) []) in *.
  set (vi := nth m sel ([], [])) in *.
  assert (Efst : nth m (map fst sel) [] = fst vi)
    by exact (map_nth fst sel ([], []) m).
  assert (Esnd : nth m (map snd sel) [] = snd vi)
    by exact (map_nth snd sel ([], []) m).
  destruct (@selected_in_range _ leb _ _ _ _ Hrow) as [Hscores Hrange].
  destruct Hrow as [Hidx [_ [Hvals Hbest]]].
  destruct (snd vi) as [| i [| ? ?]] eqn:Ei; simpl in Hidx; try lia.
  destruct (fst vi) as [| s [| ? ?]] eqn:Es; simpl in Hscores; try lia.
  apply Forall_cons_iff in Hrange. destruct Hrange as [Hi _].
  rewrite Hlen in Hi.
  apply Forall2_cons_iff in Hvals. destruct Hvals as [Hsi _].
  assert (Hmod : i mod V = i) by (apply Nat.mod_small; lia).
  exists i, s. split; [| split; [| split; [| split]]].
  - unfold tokens_of. rewrite HV.
    transitivity (map (fun j => j mod V) (nth m (map snd sel) [])).
    + exact (map_nth (map (fun j => j mod V)) (map snd sel) [] m).
    + rewrite Esnd. simpl. rewrite Hmod. reflexivity.
  - exact Efst.
  - lia.
  - destruct (Hentry i) as [c [Hc Hflat_c]]; [lia |].
    simpl in Hflat_c. fold flat_m in Hflat_c.
    rewrite Hsi in Hflat_c. injection Hflat_c as <-. assumption.
  - intros v' c Hv' Hne Hc.
    destruct (Hentry v' Hv') as [c' [Hc' Hflat_c]].
    rewrite Hc in Hc'. injection Hc' as <-.
    simpl in Hflat_c. fold flat_m in Hflat_c.
    apply (Hbest v' c s Hflat_c).
    + simpl. intros [E | []]. apply Hne. symmetry. assumption.
    + left. reflexivity.
Qed.

End WithScores.

End BeamMore.

(** ** BLEU over batches and data sets *)

Module EvaluationMore.
Import Outcome OutcomeFacts Shapes Evaluation.

Local Abbreviation BLEU4 ref cand := (Bleu.BLEU_score Z.eq_dec ref cand 4).

Lemma for_range_sum (g : nat -> R) (body : R -> nat -> outcome R)
    (len lo : nat) (acc : R) :
  (forall a i, lo <= i < lo + len -> body a i = Ret (a + g i)%R) ->
  for_range lo len body acc = Ret (acc + Rsum (map g (seq lo len)))%R.
Proof.
  revert lo acc. induction len as [| len IH]; intros lo acc Hbody; simpl.
  - f_equal. unfold Rsum. simpl. lra.
  - rewrite Hbody by lia. rewrite bind_Ret.
    rewrite IH by (intros a i Hi; apply Hbody; lia).
    f_equal. unfold Rsum. simpl. lra.
Qed.

Lemma for_range_throws (A : Type) (body : A -> nat -> outcome A) (e : error)
    (j len lo : nat) (acc : A) :
  lo <= j < lo + len ->
  (forall a i, lo <= i < j -> exists a', body a i = Ret a') ->
  (forall a, body a j = Throw e) ->
  for_range lo len body acc = Throw e.
Proof.
  revert lo acc. induction len as [| len IH]; intros lo acc Hj Hbefore Hat;
    [lia |]. simpl.
  destruct (Nat.eq_dec lo j) as [E | Hne].
  - subst lo. rewrite Hat. reflexivity.
  - destruct (Hbefore acc lo) as [a' E]; [lia |]. rewrite E, bind_Ret.
    apply IH; [lia | intros a i Hi; apply Hbefore; lia | assumption].
Qed.

Lemma for_range_ext (A : Type) (body body' : A -> nat -> outcome A)
    (len lo : nat) (acc : A) :
  (forall a i, lo <= i < lo + len -> body a i = body' a i) ->
  for_range lo len body acc = for_range lo len body' acc.
Proof.
  revert lo acc. induction len as [| len IH]; intros lo acc Hbody;
    [reflexivity |]. simpl.
  rewrite Hbody by lia. destruct (body' acc lo) as [a' | e]; [| reflexivity].
  simpl. apply IH. intros a i Hi. apply Hbody. lia.
Qed.

Lemma getitem_nth_error (A : Type) (l : list A) (i : nat) :
  getitem l (Z.of_nat i)
  = match nth_error l i with Some x => Ret x | None => Throw IndexError end.
Proof.
  destruct (lt_dec i (length l)) as [Hlt | Hge].
  - unfold getitem. rewrite position_forward by lia. rewrite bind_Ret, Nat2Z.id.
    reflexivity.
  - rewrite getitem_outside by lia.
    assert (E : nth_error l i = None) by (apply nth_error_None; lia).
    rewrite E. reflexivity.
Qed.

Lemma Rsum_unit_interval (l : list R) :
  Forall (fun x => 0 <= x <= 1)%R l -> (0 <= Rsum l <= INR (length l))%R.
Proof.
  induction 1 as [| x l Hx _ IH].
  - unfold Rsum. simpl. lra.
  - change (Rsum (x :: l)) with (x + Rsum l)%R.
    change (length (x :: l)) with (S (length l)). rewrite S_INR. lra.
Qed.

Lemma mean_unit_interval (l : list R) :
  l <> [] -> Forall (fun x => 0 <= x <= 1)%R l ->
  (0 <= Rsum l / INR (length l) <= 1)%R.
Proof.
  intros Hne HF. assert (H := Rsum_unit_interval HF).
  assert (Hpos : (0 < INR (length l))%R).
  { apply lt_0_INR. destruct l; [congruence | simpl; lia]. }
  split.
  - apply Rmult_le_pos; [lra |]. left. apply Rinv_0_lt_compat. assumption.
  - apply Rmult_le_reg_r with (INR (length l)); [assumption |].
    unfold Rdiv. rewrite Rmult_assoc, Rinv_l by lra. lra.
Qed.

(** *** The columns of a batch *)

Lemma length_transposed (E : long_matrix) : length (transposed E) = size1 E.
Proof. unfold transposed. rewrite length_map, length_seq. reflexivity. Qed.

Lemma nth_error_transposed (E : long_matrix) (i : nat) :
  nth_error (transposed E) i
  = if i <? size1 E then Some (column 0%Z i (entries E)) else None.
Proof.
  unfold transposed. rewrite nth_error_map.
  destruct (Nat.ltb_spec i (size1 E)) as [Hlt | Hge].
  - rewrite nth_error_nth' with (d := 0) by (rewrite length_seq; assumption).
    rewrite seq_nth by assumption. reflexivity.
  - assert (E0 : nth_error (seq 0 (size1 E)) i = None)
      by (apply nth_error_None; rewrite length_seq; assumption).
    rewrite E0. reflexivity.
Qed.

Lemma strip_tags_app (sos eos : Z) (a b : list Z) :
  strip_tags sos eos (a ++ b) = strip_tags sos eos a ++ strip_tags sos eos b.
Proof. apply filter_app. Qed.

Lemma strip_tags_only_tags (sos eos : Z) (l : list Z) :
  Forall (fun x => x = sos \/ x = eos) l -> strip_tags sos eos l = [].
Proof.
  induction 1 as [| x l Hx _ IH]; [reflexivity |]. simpl.
  destruct Hx as [-> | ->]; rewrite Z.eqb_refl; simpl;
    [| rewrite andb_false_r]; exact IH.
Qed.

Lemma BLEU4_bounds (ref cand : list Z) :
  exists score, BLEU4 ref cand = Py.Val score /\ (0 <= score <= 1)%R.
Proof. apply BleuMore.BLEU_score_bounds. lia. Qed.

(** *** One step of the loop over the columns *)

Section Batch.

Variables target_sos target_eos : Z.

Local Abbreviation strip := (strip_tags target_sos target_eos).

Local Abbreviation step E_ref E_cand :=
  (fun (total_score : R) (i : nat) =>
    ref_i <~ getitem E_ref (Z.of_nat i) ;;
    cand_i <~ getitem E_cand (Z.of_nat i) ;;
    score <~ lift (BLEU4 (strip ref_i) (strip cand_i)) ;;
    Ret (total_score + score)%R).

Lemma step_scores (E_ref E_cand : long_matrix) (a : R) (i : nat) (s : R) :
  i < size1 E_ref -> i < size1 E_cand ->
  BLEU4 (strip (column 0%Z i (entries E_ref)))
        (strip (column 0%Z i (entries E_cand))) = Py.Val s ->
  step (transposed E_ref) (transposed E_cand) a i = Ret (a + s)%R.
Proof.
  intros Hr Hc Es. cbv beta.
  apply Nat.ltb_lt in Hr, Hc.
  rewrite getitem_nth_error, nth_error_transposed, Hr, bind_Ret.
  rewrite getitem_nth_error, nth_error_transposed, Hc, bind_Ret.
  rewrite Es. reflexivity.
Qed.

Lemma step_missing_candidate (E_ref E_cand : long_matrix) (a : R) (i : nat) :
  i < size1 E_ref -> size1 E_cand <= i ->
  step (transposed E_ref) (transposed E_cand) a i = Throw IndexError.
Proof.
  intros Hr Hc. cbv beta.
  apply Nat.ltb_lt in Hr. apply Nat.ltb_ge in Hc.
  rewrite getitem_nth_error, nth_error_transposed, Hr, bind_Ret.
  rewrite getitem_nth_error, nth_error_transposed, Hc. reflexivity.
Qed.

Lemma step_by_stripped (R1 R2 C1 C2 : list (list Z)) (a : R) (i : nat) :
  map strip R1 = map strip R2 -> map strip C1 = map strip C2 ->
  step R1 C1 a i = step R2 C2 a i.
Proof.
  intros HR HC. cbv beta. rewrite !(getitem_nth_error _ i).
  assert (ER := f_equal (fun l => nth_error l i) HR).
  assert (EC := f_equal (fun l => nth_error l i) HC).
  cbv beta in ER, EC. rewrite !nth_error_map in ER, EC.
  destruct (nth_error R1 i) as [r1 |], (nth_error R2 i) as [r2 |];
    simpl in ER; try discriminate; [| reflexivity].
  injection ER as ER. rewrite !bind_Ret. cbv beta.
  destruct (nth_error C1 i) as [c1 |], (nth_error C2 i) as [c2 |];
    simpl in EC; try discriminate; [| reflexivity].
  injection EC as EC. rewrite !bind_Ret, ER, EC. reflexivity.
Qed.

Lemma batch_by_stripped (R1 R2 C1 C2 : long_matrix) :
  map strip (transposed R1) = map strip (transposed R2) ->
  map strip (transposed C1) = map strip (transposed C2) ->
  compute_batch_total_bleu R1 C1 target_sos target_eos
  = compute_batch_total_bleu R2 C2 target_sos target_eos.
Proof.
  intros HR HC. unfold compute_batch_total_bleu. cbv zeta.
  assert (Hlen : length (transposed R1) = length (transposed R2)).
  { rewrite <- (length_map strip (transposed R1)), HR. apply length_map. }
  rewrite Hlen. f_equal.
  apply for_range_ext. intros a i _. apply (step_by_stripped _ _ _ _ a i HR HC).
Qed.

(** A row of tags under a matrix does not change its stripped columns. *)
Lemma stripped_columns_of_padded (E : long_matrix) (pad : list (list Z)) :
  Forall (fun row => length row = size1 E /\
                     Forall (fun x => x = target_sos \/ x = target_eos) row)
         pad ->
  map strip (transposed {| size0 := size0 E + length pad;
                           size1 := size1 E;
                           entries := entries E ++ pad |})
  = map strip (transposed E).
Proof.
  intros Hpad. unfold transposed. simpl. rewrite !map_map.
  apply map_ext_in. intros m Hm. apply in_seq in Hm.
  rewrite map_app, strip_tags_app.
  rewrite (@strip_tags_only_tags target_sos target_eos
             (map (fun row => nth m row 0%Z) pad)).
  - apply app_nil_r.
  - apply Forall_map. revert Hpad. apply Forall_impl. intros row [Hlen Htags].
    rewrite Forall_forall in Htags. apply Htags. apply nth_In. lia.
Qed.

Lemma batch_bleu_mean (E_ref E_cand : long_matrix) :
  1 <= size1 E_ref -> size1 E_ref <= size1 E_cand ->
  exists scores,
    length scores = size1 E_ref /\
    (forall i, i < size1 E_ref ->
       BLEU4 (strip (column 0%Z i (entries E_ref)))
             (strip (column 0%Z i (entries E_cand)))
       = Py.Val (nth i scores 0%R)) /\
    compute_batch_total_bleu E_ref E_cand target_sos target_eos
    = Ret (Rsum scores / INR (size1 E_ref))%R /\
    (0 <= Rsum scores / INR (size1 E_ref) <= 1)%R.
Proof.
  intros HM Hcols.
  pose (g := fun i : nat =>
          match BLEU4 (strip (column 0%Z i (entries E_ref)))
                      (strip (column 0%Z i (entries E_cand))) with
          | Py.Val s => s
          | Py.Raise _ => 0%R
          end).
  assert (Hscore : forall i,
             BLEU4 (strip (column 0%Z i (entries E_ref)))
                   (strip (column 0%Z i (entries E_cand))) = Py.Val (g i) /\
             (0 <= g i <= 1)%R).
  { intros i. unfold g.
    destruct (BLEU4_bounds (strip (column 0%Z i (entries E_ref)))
                           (strip (column 0%Z i (entries E_cand))))
      as [s [Es Hs]].
    rewrite Es. auto. }
  clearbody g.
  exists (map g (seq 0 (size1 E_ref))).
  assert (Hlen : length (map g (seq 0 (size1 E_ref))) = size1 E_ref)
    by (rewrite length_map; apply length_seq).
  split; [assumption |]. split; [| split].
  - intros i Hi.
    rewrite (TorchFacts.nth_map_default g (seq 0 (size1 E_ref)) 0 0%R)
      by (rewrite length_seq; assumption).
    rewrite seq_nth by assumption. apply Hscore.
  - unfold compute_batch_total_bleu. cbv zeta. rewrite length_transposed.
    rewrite (@for_range_sum g)
      by (intros a i Hi; apply step_scores; [lia | lia | apply Hscore]).
    rewrite bind_Ret. unfold fdiv.
    destruct (Nat.eqb_spec (size1 E_ref) 0) as [E0 | _]; [lia |].
    f_equal. f_equal. lra.
  - assert (H : (0 <= Rsum (map g (seq 0 (size1 E_ref)))
                      / INR (length (map g (seq 0 (size1 E_ref)))) <= 1)%R).
    { apply mean_unit_interval.
      - intros E. rewrite E in Hlen. simpl in Hlen. lia.
      - apply Forall_map. apply Forall_forall. intros i _. apply Hscore. }
    rewrite Hlen in H. exact H.
Qed.

(** X22.  Although its name and documentation speak of a total,
    [compute_batch_total_bleu] returns the mean of the BLEU scores (of
    order 4) of the columns, with the tags filtered out: a number of
    [0, 1].  The candidate batch may have more columns than the
    reference batch. *)
Theorem batch_bleu_is_mean_of_column_scores (E_ref E_cand : long_matrix) :
  1 <= size1 E_ref -> size1 E_ref <= size1 E_cand ->
  exists scores,
    length scores = size1 E_ref /\
    (forall i, i < size1 E_ref ->
       Bleu.BLEU_score Z.eq_dec
         (strip_tags target_sos target_eos (column 0%Z i (entries E_ref)))
         (strip_tags target_sos target_eos (column 0%Z i (entries E_cand)))
         4
       = Py.Val (nth i scores 0%R)) /\
    compute_batch_total_bleu E_ref E_cand target_sos target_eos
    = Ret (Rsum scores / INR (size1 E_ref))%R /\
    (0 <= Rsum scores / INR (size1 E_ref) <= 1)%R.
Proof. apply batch_bleu_mean. Qed.

(** X23.  A reference batch without columns makes
    [compute_batch_total_bleu] divide by zero. *)
Theorem batch_bleu_of_no_sequence_raises (E_ref E_cand : long_matrix) :
  size1 E_ref = 0 ->
  compute_batch_total_bleu E_ref E_cand target_sos target_eos
  = Throw (Builtin Py.ZeroDivisionError).
Proof.
  intros HM. unfold compute_batch_total_bleu. cbv zeta.
  rewrite length_transposed, HM. reflexivity.
Qed.

(** X24.  A candidate batch with fewer columns than the reference batch
    makes [compute_batch_total_bleu] raise [IndexError]. *)
Theorem batch_bleu_of_missing_candidates_raises (E_ref E_cand : long_matrix) :
  size1 E_cand < size1 E_ref ->
  compute_batch_total_bleu E_ref E_cand target_sos target_eos
  = Throw IndexError.
Proof.
  intros Hcols. unfold compute_batch_total_bleu. cbv zeta.
  rewrite length_transposed.
  rewrite (@for_range_throws _ _ IndexError (size1 E_cand)).
  - reflexivity.
  - lia.
  - intros a i Hi.
    destruct (BLEU4_bounds (strip (column 0%Z i (entries E_ref)))
                           (strip (column 0%Z i (entries E_cand))))
      as [s [Es _]].
    exists (a + s)%R. apply step_scores; [lia | lia | exact Es].
  - intros a. apply step_missing_candidate; lia.
Qed.

(** X25.  Rows of start and end tags under the reference batch or under
    the candidate batch (the padding of the sequences) do not change
    the outcome of [compute_batch_total_bleu]. *)
Theorem batch_bleu_ignores_padding (E_ref E_cand : long_matrix)
    (pad_ref pad_cand : list (list Z)) :
  Forall (fun row => length row = size1 E_ref /\
                     Forall (fun x => x = target_sos \/ x = target_eos) row)
         pad_ref ->
  Forall (fun row => length row = size1 E_cand /\
                     Forall (fun x => x = target_sos \/ x = target_eos) row)
         pad_cand ->
  compute_batch_total_bleu
    {| size0 := size0 E_ref + length pad_ref; size1 := size1 E_ref;
       entries := entries E_ref ++ pad_ref |}
    {| size0 := size0 E_cand + length pad_cand; size1 := size1 E_cand;
       entries := entries E_cand ++ pad_cand |}
    target_sos target_eos
  = compute_batch_total_bleu E_ref E_cand target_sos target_eos.
Proof.
  intros Hr Hc.
  apply batch_by_stripped; apply stripped_columns_of_padded; assumption.
Qed.

(** *** The loop over the batches *)

Section Dataset.

Variables source source_lengths : Type.
Variable model : source -> source_lengths -> long_cube.

Local Abbreviation batch := (source * source_lengths * long_matrix)%type.

(** A batch for which the beam search returns at least one path, for
    at least as many sequences as the batch has, and the batch has
    one. *)
Local Abbreviation searched := (fun b : batch =>
  1 <= cube_size2 (model (fst (fst b)) (snd (fst b))) /\
  1 <= size1 (snd b) <= cube_size1 (model (fst (fst b)) (snd (fst b)))).

Lemma accumulate_bleu_bounds (batches : list batch) (total : R) (count : nat) :
  Forall searched batches ->
  exists total',
    accumulate_bleu model batches target_sos target_eos (total, count)
    = Ret (total', count + length batches) /\
    (total <= total' <= total + INR (length batches))%R.
Proof.
  intros HF. revert total count.
  induction HF as [| [[F F_lens] E_ref] batches [HK [HM Hcols]] _ IH];
    intros total count.
  - exists total. simpl. rewrite Nat.add_0_r. split; [reflexivity | lra].
  - simpl in HK, HM, Hcols. simpl accumulate_bleu. unfold first_paths.
    destruct (Nat.eqb_spec (cube_size2 (model F F_lens)) 0) as [E0 | _];
      [lia |].
    rewrite bind_Ret.
    destruct (@batch_bleu_mean E_ref
                {| size0 := cube_size0 (model F F_lens);
                   size1 := cube_size1 (model F F_lens);
                   entries := map (map (fun paths => nth 0 paths 0%Z))
                                  (cube_entries (model F F_lens)) |})
      as [scores [_ [_ [Hscore Hbounds]]]]; [assumption | assumption |].
    set (score := (Rsum scores / INR (size1 E_ref))%R) in *.
    rewrite Hscore, bind_Ret. simpl fst. simpl snd.
    destruct (IH (total + score)%R (count + 1)) as [total' [Hacc Hb]].
    exists total'. split.
    + rewrite Hacc. f_equal. f_equal. simpl. lia.
    + change (length (_ :: batches)) with (S (length batches)).
      rewrite S_INR. lra.
Qed.

(** X26.  Over batches that are searched with a beam of at least one
    path, [compute_average_bleu_over_dataset] returns a number of
    [0, 1], the mean of the batches' scores; over an empty data loader
    it divides by zero. *)
Theorem average_bleu_in_unit_interval (dataloader : list batch) :
  Forall searched dataloader ->
  (dataloader = [] ->
   compute_average_bleu_over_dataset model dataloader target_sos target_eos
   = Throw (Builtin Py.ZeroDivisionError)) /\
  (dataloader <> [] ->
   exists avg_score,
     compute_average_bleu_over_dataset model dataloader target_sos target_eos
     = Ret avg_score /\ (0 <= avg_score <= 1)%R).
Proof.
  intros HF. split; [intros ->; reflexivity |].
  intros Hne. unfold compute_average_bleu_over_dataset.
  destruct (accumulate_bleu_bounds 0%R 0 HF) as [total [Hacc Hb]].
  rewrite Hacc, bind_Ret. simpl fst. simpl snd. unfold fdiv.
  assert (Hlen : 1 <= length dataloader)
    by (destruct dataloader; [congruence | simpl; lia]).
  destruct (Nat.eqb_spec (length dataloader) 0) as [E0 | _]; [lia |].
  eexists. split; [reflexivity |].
  assert (Hpos : (0 < INR (length dataloader))%R) by (apply lt_0_INR; lia).
  split.
  - apply Rmult_le_pos; [lra |]. left. apply Rinv_0_lt_compat. assumption.
  - apply Rmult_le_reg_r with (INR (length dataloader)); [assumption |].
    unfold Rdiv. rewrite Rmult_assoc, Rinv_l by lra. lra.
Qed.

End Dataset.

End Batch.

End EvaluationMore.

(** ** The further properties at examples *)

Module MoreInstances.
Import Py Torch Shapes Bleu BleuTerms Attention Examples MoreExamples.

Lemma precision_of_excerpt_at_ids :
  2 <= length excerpt /\
  n_gram_precision Nat.eq_dec (excerpt_before ++ excerpt ++ excerpt_after)
                   excerpt 2 = Val 1%R.
Proof.
  split; [simpl; lia |].
  apply (@BleuMore.precision_of_excerpt nat Nat.eq_dec excerpt_before excerpt
           excerpt_after 2).
  simpl. lia.
Defined.

Lemma BLEU_score_in_unit_interval_at_ids :
  1 <= 2 /\
  exists score,
    BLEU_score Nat.eq_dec reference_ids candidate_ids 2 = Val score /\
    (0 <= score <= 1)%R.
Proof.
  split; [lia |].
  apply (@BleuMore.BLEU_score_in_unit_interval nat Nat.eq_dec reference_ids
           candidate_ids 2).
  lia.
Defined.

Lemma BLEU_score_of_short_candidate_at_ids :
  1 <= 3 /\ length short_ids < 3 /\
  n_gram_precision Nat.eq_dec reference_ids short_ids 3 = Val 0%R /\
  BLEU_score Nat.eq_dec reference_ids short_ids 3 = Val 0%R.
Proof.
  split; [lia |]. split; [simpl; lia |].
  apply (@BleuMore.BLEU_score_of_short_candidate nat Nat.eq_dec reference_ids
           short_ids 3); simpl; lia.
Defined.

Lemma no_shared_token_scores_zero_at_ids :
  (forall x, In x other_ids -> ~ In x reference_ids) /\ 1 <= 2 /\
  n_gram_precision Nat.eq_dec reference_ids other_ids 2 = Val 0%R /\
  BLEU_score Nat.eq_dec reference_ids other_ids 2 = Val 0%R.
Proof.
  assert (H : forall x, In x other_ids -> ~ In x reference_ids)
    by (intros x Hx Hr; simpl in Hx, Hr; lia).
  split; [exact H |]. split; [lia |].
  apply (@BleuMore.no_shared_token_scores_zero nat Nat.eq_dec reference_ids
           other_ids 2 H).
  lia.
Defined.

Lemma BLEU_score_of_excerpt_at_ids :
  1 <= 2 /\ 2 <= length excerpt /\
  (exists bp,
      brevity_penalty (excerpt_before ++ excerpt ++ excerpt_after) excerpt
      = Val bp /\
      BLEU_score Nat.eq_dec (excerpt_before ++ excerpt ++ excerpt_after)
                 excerpt 2 = Val bp) /\
  BLEU_score Nat.eq_dec excerpt excerpt 2 = Val 1%R.
Proof.
  split; [lia |]. split; [simpl; lia |].
  apply (@BleuMore.BLEU_score_of_excerpt nat Nat.eq_dec excerpt_before excerpt
           excerpt_after 2); simpl; lia.
Defined.

(** Attention with no head, with two heads over hidden states of size 1
    and with two heads over hidden states of size 2. *)
Lemma multihead_attend_without_head_raises_at_example :
  heads (identity_heads 0 1) = 0 /\
  shape2 2 (hidden_state_size (identity_heads 0 1))
         (recurrent_part (cell_type (identity_heads 0 1)) query) /\
  multihead_attend flat_similarity (identity_heads 0 1) query encoded
                   source_lengths
  = Raise ZeroDivisionError.
Proof.
  assert (H : shape2 2 (hidden_state_size (identity_heads 0 1))
                     (recurrent_part (cell_type (identity_heads 0 1)) query))
    by (split; [reflexivity | repeat constructor]).
  split; [reflexivity |]. split; [exact H |].
  apply (@AttentionMore.multihead_attend_without_head_raises flat_similarity
           (identity_heads 0 1) query encoded source_lengths 2).
  - reflexivity.
  - exact H.
Defined.

Lemma multihead_attend_indivisible_raises_at_example :
  1 <= heads (identity_heads 2 1) /\
  hidden_state_size (identity_heads 2 1) mod heads (identity_heads 2 1) <> 0 /\
  multihead_attend flat_similarity (identity_heads 2 1) query encoded
                   source_lengths
  = Raise RuntimeError.
Proof.
  split; [simpl; lia |]. split; [simpl; lia |].
  apply (@AttentionMore.multihead_attend_indivisible_raises flat_similarity
           (identity_heads 2 1) query encoded source_lengths 2).
  - simpl. lia.
  - simpl. lia.
  - intros v. reflexivity.
  - lia.
  - split; [reflexivity | repeat constructor].
Defined.

Lemma multihead_attend_returns_context_at_example :
  1 <= heads (identity_heads 2 2) /\
  hidden_state_size (identity_heads 2 2) mod heads (identity_heads 2 2) = 0 /\
  exists c_t,
    multihead_attend flat_similarity (identity_heads 2 2) wide_query
                     wide_encoded source_lengths = Val c_t /\
    shape2 2 2 c_t.
Proof.
  split; [simpl; lia |]. split; [reflexivity |].
  apply (@AttentionMore.multihead_attend_returns_context flat_similarity
           (identity_heads 2 2) wide_query wide_encoded source_lengths 2 2).
  - simpl. lia.
  - reflexivity.
  - intros v. reflexivity.
  - intros v. reflexivity.
  - intros v. reflexivity.
  - split; [reflexivity | repeat constructor].
  - split; [reflexivity | repeat constructor].
  - reflexivity.
Defined.



(** The first hidden state of the decoder. *)
Import Outcome Decoder.

Lemma wide_encoded_shape : shape3 2 2 2 wide_encoded.
Proof. split; [reflexivity | repeat constructor]. Qed.

Lemma wide_encoded_repadded_shape : shape3 2 2 2 wide_encoded_repadded.
Proof. split; [reflexivity | repeat constructor]. Qed.

Lemma first_hidden_state_joins_directions_at_example :
  shape3 2 2 2 wide_encoded /\
  Forall (fun f => (1 <= f <= Z.of_nat 2)%Z) lengths_Z /\
  exists htilde,
    get_first_hidden_state 2 wide_encoded lengths_Z = Ret htilde /\
    shape2 2 2 htilde /\
    (forall m j, m < 2 -> j < 2 ->
       nth j (nth m htilde []) 0%R
       = if j <? 2 / 2
         then nth j (nth m (nth (Z.to_nat (nth m lengths_Z 0%Z - 1))
                                wide_encoded []) []) 0%R
         else nth j (nth m (nth 0 wide_encoded []) []) 0%R).
Proof.
  assert (H : Forall (fun f => (1 <= f <= Z.of_nat 2)%Z) lengths_Z)
    by (repeat constructor; simpl; lia).
  split; [exact wide_encoded_shape |]. split; [exact H |].
  apply (@DecoderMore.first_hidden_state_joins_directions 2 2 2 wide_encoded
           lengths_Z wide_encoded_shape).
  - reflexivity.
  - exact H.
  - lia.
Defined.

Lemma first_hidden_state_ignores_padding_at_example :
  (forall m s, m < 2 -> (Z.of_nat s < nth m lengths_Z 0)%Z ->
     nth m (nth s wide_encoded []) []
     = nth m (nth s wide_encoded_repadded []) []) /\
  get_first_hidden_state 2 wide_encoded lengths_Z
  = get_first_hidden_state 2 wide_encoded_repadded lengths_Z.
Proof.
  assert (H : forall m s, m < 2 -> (Z.of_nat s < nth m lengths_Z 0)%Z ->
     nth m (nth s wide_encoded []) []
     = nth m (nth s wide_encoded_repadded []) []).
  { intros m s Hm Hs.
    destruct m as [| [| m]]; [| | lia]; unfold lengths_Z in Hs;
      simpl nth in Hs; destruct s as [| [| s]]; try reflexivity; lia. }
  split; [exact H |].
  apply (@DecoderMore.first_hidden_state_ignores_padding 2 2 2 wide_encoded
           wide_encoded_repadded lengths_Z wide_encoded_shape
           wide_encoded_repadded_shape).
  - reflexivity.
  - repeat constructor; simpl; lia.
  - lia.
  - exact H.
Defined.

Lemma first_hidden_state_wraps_at_zero_at_example :
  nth 0 lengths_with_zero 0%Z = 0%Z /\
  exists htilde,
    get_first_hidden_state 2 wide_encoded lengths_with_zero = Ret htilde /\
    (forall j, j < 2 / 2 ->
       nth j (nth 0 htilde []) 0%R
       = nth j (nth 0 (nth (2 - 1) wide_encoded []) []) 0%R).
Proof.
  split; [reflexivity |].
  apply (@DecoderMore.first_hidden_state_wraps_at_zero 2 2 2 wide_encoded
           lengths_with_zero 0 wide_encoded_shape).
  - reflexivity.
  - repeat constructor; simpl; lia.
  - lia.
  - lia.
  - reflexivity.
Defined.

Lemma first_hidden_state_out_of_range_at_example :
  Exists (fun f => (Z.of_nat (length wide_encoded) < f)%Z \/
                   (f <= - Z.of_nat (length wide_encoded))%Z)
         lengths_too_long /\
  get_first_hidden_state 2 wide_encoded lengths_too_long = Throw IndexError.
Proof.
  assert (H : Exists (fun f => (Z.of_nat (length wide_encoded) < f)%Z \/
                               (f <= - Z.of_nat (length wide_encoded))%Z)
                     lengths_too_long)
    by (apply Exists_cons_hd; left; simpl; lia).
  split; [exact H |].
  apply (@DecoderMore.first_hidden_state_out_of_range 2 wide_encoded
           lengths_too_long).
  left. exact H.
Defined.

(** Teacher forcing with the first hidden state of the decoder without
    attention: without encoder states the index error of the first
    hidden state comes out; with them, two logits for three rows. *)
Lemma teacher_forcing_logits_count_at_example :
  get_logits_for_teacher_forcing gru (get_first_hidden_state 2) echo_decoder
    [] lengths_Z target_rows
  = Throw IndexError /\
  exists logits,
    get_logits_for_teacher_forcing gru (get_first_hidden_state 2) echo_decoder
      wide_encoded lengths_Z target_rows
    = Ret logits /\
    length logits = length target_rows - 1.
Proof.
  split.
  - apply (@TeacherMore.teacher_forcing_logits_count gru (list Z)
             (get_first_hidden_state 2) echo_decoder [] lengths_Z target_rows
             (fun _ => True)).
    reflexivity.
  - assert (H0 : get_first_hidden_state 2 wide_encoded lengths_Z
                 = Ret [[1%R; 2%R]; [7%R; 4%R]]) by reflexivity.
    destruct (@TeacherMore.teacher_forcing_logits_count gru (list Z)
                (get_first_hidden_state 2) echo_decoder wide_encoded lengths_Z
                target_rows (fun _ => True)) as [_ Hret].
    destruct (Hret _ H0) as [_ Hcount].
    apply Hcount; [simpl; lia | exact I |].
    intros E_i htilde _ _. eexists. split; [reflexivity | exact I].
Defined.

(** Greedy search: of the two tokens, the one of score -1 is kept. *)
Import Beam BeamTerms.

Lemma greedy_well_shaped :
  well_shaped greedy_beam 1 1 2 1 1 greedy_hidden greedy_history greedy_logpb
              greedy_logpy.
Proof.
  constructor; unfold shape3, shape2; simpl;
    repeat (first [reflexivity | lia | constructor]).
Qed.

Lemma update_beam_width_one_is_greedy_at_example :
  topk_contract Z.leb (topk_sorted Z.leb) /\
  well_shaped greedy_beam 1 1 2 1 1 greedy_hidden greedy_history greedy_logpb
              greedy_logpy /\
  exists tokens logpb_t,
    update_beam Z.add (topk_sorted Z.leb) greedy_beam greedy_hidden
                greedy_history greedy_logpb greedy_logpy
    = Val (greedy_hidden, greedy_history ++ [tokens], logpb_t) /\
    forall m, m < 1 ->
      exists v s,
        nth m tokens [] = [v] /\ nth m logpb_t [] = [s] /\ v < 2 /\
        candidate Z.add greedy_logpb greedy_logpy m 0 v = Some s /\
        forall v' c, v' < 2 -> v' <> v ->
          candidate Z.add greedy_logpb greedy_logpy m 0 v' = Some c ->
          Z.leb c s = true.
Proof.
  split; [exact Instances.topk_sorted_Z |].
  split; [exact greedy_well_shaped |].
  apply (@BeamMore.update_beam_width_one_is_greedy Z Z.add Z.leb
           (topk_sorted Z.leb) greedy_beam 1 2 1 1 greedy_hidden
           greedy_history greedy_logpb greedy_logpy Instances.topk_sorted_Z
           greedy_well_shaped).
Defined.

(** Batches of two sequences. *)
Import Evaluation.

Lemma batch_bleu_is_mean_of_column_scores_at_example :
  1 <= size1 ref_batch /\ size1 ref_batch <= size1 cand_batch /\
  exists scores,
    length scores = size1 ref_batch /\
    (forall i, i < size1 ref_batch ->
       BLEU_score Z.eq_dec
         (strip_tags sos eos (column 0%Z i (entries ref_batch)))
         (strip_tags sos eos (column 0%Z i (entries cand_batch))) 4
       = Val (nth i scores 0%R)) /\
    compute_batch_total_bleu ref_batch cand_batch sos eos
    = Ret (Rsum scores / INR (size1 ref_batch))%R /\
    (0 <= Rsum scores / INR (size1 ref_batch) <= 1)%R.
Proof.
  split; [simpl; lia |]. split; [simpl; lia |].
  apply (@EvaluationMore.batch_bleu_is_mean_of_column_scores sos eos ref_batch
           cand_batch); simpl; lia.
Defined.

Lemma batch_bleu_of_no_sequence_raises_at_example :
  size1 no_batch = 0 /\
  compute_batch_total_bleu no_batch no_batch sos eos
  = Throw (Builtin ZeroDivisionError).
Proof.
  split; [reflexivity |].
  apply (@EvaluationMore.batch_bleu_of_no_sequence_raises sos eos no_batch
           no_batch).
  reflexivity.
Defined.

Lemma batch_bleu_of_missing_candidates_raises_at_example :
  size1 narrow_batch < size1 ref_batch /\
  compute_batch_total_bleu ref_batch narrow_batch sos eos = Throw IndexError.
Proof.
  split; [simpl; lia |].
  apply (@EvaluationMore.batch_bleu_of_missing_candidates_raises sos eos
           ref_batch narrow_batch).
  simpl. lia.
Defined.

Lemma tag_rows_are_tags (n : nat) :
  n = 2 ->
  Forall (fun row => length row = n /\
                     Forall (fun x => x = sos \/ x = eos) row) tag_rows.
Proof.
  intros ->.
  repeat (first [reflexivity | left; reflexivity | right; reflexivity
                | constructor]).
Qed.

Lemma batch_bleu_ignores_padding_at_example :
  compute_batch_total_bleu
    {| size0 := size0 ref_batch + length tag_rows; size1 := size1 ref_batch;
       entries := entries ref_batch ++ tag_rows |}
    {| size0 := size0 cand_batch + length tag_rows; size1 := size1 cand_batch;
       entries := entries cand_batch ++ tag_rows |}
    sos eos
  = compute_batch_total_bleu ref_batch cand_batch sos eos.
Proof.
  apply (@EvaluationMore.batch_bleu_ignores_padding sos eos ref_batch
           cand_batch tag_rows tag_rows);
    apply tag_rows_are_tags; reflexivity.
Defined.

Lemma average_bleu_in_unit_interval_at_example :
  exists avg_score,
    compute_average_bleu_over_dataset searched_paths one_batch sos eos
    = Ret avg_score /\ (0 <= avg_score <= 1)%R.
Proof.
  apply (@EvaluationMore.average_bleu_in_unit_interval sos eos unit unit
           searched_paths one_batch).
  - repeat constructor; simpl; lia.
  - discriminate.
Defined.

End MoreInstances.
